(** * AddressFilter: the channel fetcher and the batch analyzer

    A shallow embedding of [Get_Address.go] (program A) and
    [execute_Address.go] (program B), and the properties of their
    qualification rule, deduplication pass, per-file rewriting and
    error handling.

    Go strings are byte sequences: they are [string]s here (lists of
    [ascii]).  A [float64] is an IEEE 754 binary64 value, taken from the
    standard library's [spec_float]; comparisons are [SFleb] and [SFltb],
    false as soon as one side is NaN.  A Go map with string keys is a
    [gmap string _]. *)

From Stdlib Require Import ZArith String Ascii List Bool Lia DecimalString.
From Stdlib Require Import Floats.SpecFloat.
From stdpp Require Import base option list strings gmap.

Local Open Scope string_scope.
Local Open Scope Z_scope.
Local Open Scope list_scope.

(** ** Numbers *)

Abbreviation float64 := spec_float (only parsing).

(** The binary64 value nearest to an integer (ties to even). *)
Definition float64_of_Z (z : Z) : float64 := binary_normalize 53 1024 z 0 false.

(** The binary64 value nearest to [m * 10^e10], for [0 <= m]: what the Go
    compiler stores for a decimal constant, and what [strconv.ParseFloat]
    returns for decimal digits. The quotient keeps at least 64 bits and the
    remainder decides the rounding. *)
Definition float64_of_decimal (neg : bool) (m e10 : Z) : float64 :=
  match m with
  | Z0 => S754_zero neg
  | Zneg _ => S754_nan
  | Zpos p =>
      if 0 <=? e10 then binary_round 53 1024 neg (Z.to_pos (m * 10 ^ e10)) 0
      else
        let d := 10 ^ (- e10) in
        let s := Z.max 0 (64 + Z.log2 d - Z.log2 m) in
        let '(q, r) := Z.div_eucl (Z.shiftl m s) d in
        binary_round_aux 53 1024 neg q (- s) (new_location d r)
  end.

(** The constants of the qualification rule and of the filter. *)
Definition c_1000000 : float64 := float64_of_Z 1000000.
Definition c_20 : float64 := float64_of_Z 20.
Definition c_10000 : float64 := float64_of_Z 10000.
Definition c_0_1 : float64 := float64_of_decimal false 1 (-1).
Definition c_0_755 : float64 := float64_of_decimal false 755 (-3).

(** Go's [a >= b], [a <= b] and [a > b] on float64. *)
Definition ge64 (a b : float64) : bool := SFleb b a.
Definition le64 (a b : float64) : bool := SFleb a b.
Definition gt64 (a b : float64) : bool := SFltb b a.

Definition is_nan (a : float64) : bool :=
  match a with S754_nan => true | _ => false end.

(** ** Runtime panics

    An index out of range stops the whole program. *)
Inductive run (A : Type) : Type :=
  | Ok (a : A)
  | Panic.
Arguments Ok {A} a.
Arguments Panic {A}.

Definition run_bind {A B} (x : run A) (f : A → run B) : run B :=
  match x with Ok a => f a | Panic => Panic end.

(** [s[i]] on a slice. *)
Definition index {A} (l : list A) (i : nat) : run A :=
  match l !! i with Some a => Ok a | None => Panic end.

(** ** Package strings *)

Fixpoint HasPrefix (s prefix : string) : bool :=
  match prefix with
  | EmptyString => true
  | String c p =>
      match s with
      | EmptyString => false
      | String d s' => if Ascii.eqb c d then HasPrefix s' p else false
      end
  end.

Fixpoint string_drop (n : nat) (s : string) : string :=
  match n with
  | O => s
  | S n' => match s with EmptyString => EmptyString | String _ s' => string_drop n' s' end
  end.

(** [before, after, found := strings.Cut(s, sep)]: the text around the
    first occurrence of [sep]. *)
Fixpoint Cut (s sep : string) : option (string * string) :=
  if HasPrefix s sep then Some (EmptyString, string_drop (String.length sep) s)
  else
    match s with
    | EmptyString => None
    | String c s' =>
        match Cut s' sep with
        | Some (a, b) => Some (String c a, b)
        | None => None
        end
    end.

Definition Contains (s substr : string) : bool :=
  match Cut s substr with Some _ => true | None => false end.

(** The loop of [strings.Split] for a separator that is not empty: cut at
    each occurrence in turn. Every cut removes at least one byte, so
    [String.length s] rounds are enough. *)
Fixpoint split_loop (fuel : nat) (s sep : string) : list string :=
  match fuel with
  | O => [s]
  | S fuel' =>
      match Cut s sep with
      | None => [s]
      | Some (a, b) => a :: split_loop fuel' b sep
      end
  end.

Fixpoint explode (s : string) : list string :=
  match s with
  | EmptyString => []
  | String c s' => String c EmptyString :: explode s'
  end.

(** [strings.Split(s, sep)]. With an empty separator Go splits after each
    UTF-8 sequence; [explode] splits after each byte, which is the same on
    ASCII text. The programs only split on ["winrate:"]. *)
Definition Split (s sep : string) : list string :=
  match sep with
  | EmptyString => explode s
  | _ => split_loop (String.length s) s sep
  end.

(** ** Records *)

Record Result := mkResult { Result_Address : string; Result_Label : string }.
Record AddressItem := mkAddressItem { Item_Address : string; Item_Label : string }.

(** ** Errors and traces *)

Inductive error :=
  | ErrRequest          (* 请求API失败 *)
  | ErrReadBody         (* 读取响应失败 *)
  | ErrJSON             (* 解析JSON失败, JSON解析失败 *)
  | ErrAccess           (* 访问失败 *)
  | ErrReadFile         (* 读取文件失败 *)
  | ErrReadTxt          (* 读取TXT文件失败 *)
  | ErrFormat (ext : string)   (* 不支持的文件格式 *)
  | ErrReadDir          (* 读取目录失败 *)
  | ErrSaveJSON         (* 保存JSON结果失败 *)
  | ErrMkdir            (* 创建ad_txt目录失败 *)
  | ErrSaveTxt.         (* 保存TXT结果失败 *)

(** What the analyzer writes to its log, and what else can be observed of a
    run: the browser sessions and the pauses, in seconds. *)
Inductive log_entry :=
  | LogQualifies (address : string) (totalProfit solBalance winRate : float64) (name : string)
  | LogNotQualifies (address : string) (totalProfit solBalance winRate : float64)
      (name : string)
  | LogFileFailed (name : string) (err : error)
  | LogAddressFailed (address : string) (err : error)
  | LogSaveFailed (name : string)
  | LogFileUpdated (name : string) (kept : nat)
  | LogRemoveFailed (name : string)
  | LogFileDeleted (name : string)
  | LogTotalSaveFailed
  | LogTotalUpdated (count : nat)
  | LogReadFailed (name : string) (err : error)
  | LogNoOriginalLabel (address : string)
  | LogError (err : error)
  | LogWinrateFailed (address : string)
  | LogExistingWinrateFailed (address : string).

Inductive event :=
  | Session (timeout : Z) (url : string)
  | Sleep (seconds : Z)
  | Log (entry : log_entry).

(** ** Library calls of the analyzer

    [Sscanf_f s] is [fmt.Sscanf(s, "%f", &x)]: [Some x] when it stores a
    number, [None] when it returns an error (and stores nothing).
    [Sprintf_f n x] is [fmt.Sprintf("%.nf", x)]. *)
Class Fmt := {
  Sscanf_f : string → option float64;
  Sprintf_f : nat → float64 → string;
}.

Section Dedup.
Context {fmt : Fmt}.

(** [fmt.Sscanf(strings.Split(label, "winrate:")[1], "%f", &winrate)] *)
Definition parse_winrate (label : string) : run (option float64) :=
  run_bind (index (Split label "winrate:") 1) (λ t, Ok (Sscanf_f t)).

(** One round of the loop of [deduplicateAndFilter] over the map
    [uniqueAddresses]: the map after the round and the lines of log. *)
Definition dedup_step (uniqueAddresses : gmap string Result) (result : Result)
  : run (gmap string Result * list log_entry) :=
  run_bind (parse_winrate (Result_Label result)) (λ p,
    match p with
    | None => Ok (uniqueAddresses, [LogWinrateFailed (Result_Address result)])
    | Some winrate =>
        if le64 winrate c_0_1 then Ok (uniqueAddresses, [])
        else
          match uniqueAddresses !! Result_Address result with
          | Some existing =>
              run_bind (parse_winrate (Result_Label existing)) (λ q,
                match q with
                | None =>
                    Ok (uniqueAddresses,
                        [LogExistingWinrateFailed (Result_Address existing)])
                | Some existingWinrate =>
                    if gt64 winrate existingWinrate
                    then Ok (<[Result_Address result := result]> uniqueAddresses, [])
                    else Ok (uniqueAddresses, [])
                end)
          | None => Ok (<[Result_Address result := result]> uniqueAddresses, [])
          end
    end).

Fixpoint dedup_loop (uniqueAddresses : gmap string Result) (results : list Result)
  (lines : list log_entry) : run (gmap string Result * list log_entry) :=
  match results with
  | [] => Ok (uniqueAddresses, lines)
  | result :: rest =>
      run_bind (dedup_step uniqueAddresses result)
        (λ '(m, new), dedup_loop m rest (lines ++ new))
  end.

(** [deduplicateAndFilter]: the slice it returns and the lines it logs. Go
    ranges over a map in an unspecified order; the slice returned here
    lists the map in the order of [map_to_list], and the properties below
    do not depend on that order. *)
Definition deduplicateAndFilter (results : list Result)
  : run (list Result * list log_entry) :=
  run_bind (dedup_loop ∅ results []) (λ '(m, lines), Ok ((map_to_list m).*2, lines)).
End Dedup.

(** ** A model of the two [fmt] calls

    [go_Sscanf_f] follows [fmt]'s scanner for the verb [%f]: leading blanks
    are skipped, [floatToken] collects the longest text that looks like a
    number, and the token is converted as [strconv.ParseFloat] does, to the
    nearest binary64 value. Input left after the token is ignored. The model
    covers [NaN], the infinities and decimal notation with an optional
    exponent; a token with a hexadecimal mantissa, a binary exponent or digit
    separators is outside the model and reported as an error. *)
Module GoFmt.

Definition in_set (c : ascii) (ok : string) : bool :=
  existsb (Ascii.eqb c) (list_ascii_of_string ok).

(** The scanner: the token read so far and the input left. *)
Definition scanner : Type := string * string.

Definition accept (ok : string) (s : scanner) : bool * scanner :=
  match s.2 with
  | String c rest =>
      if in_set c ok then (true, (s.1 +:+ String c EmptyString, rest)) else (false, s)
  | EmptyString => (false, s)
  end.

Fixpoint accept_all (ok : string) (buf rest : string) : scanner :=
  match rest with
  | String c rest' =>
      if in_set c ok then accept_all ok (buf +:+ String c EmptyString) rest' else (buf, rest)
  | EmptyString => (buf, rest)
  end.

Definition accept3 (a b c : string) (s : scanner) : bool * scanner :=
  let '(r1, s1) := accept a s in
  if r1 then
    let '(r2, s2) := accept b s1 in
    if r2 then accept c s2 else (false, s2)
  else (false, s1).

Definition floatToken (input : string) : string :=
  let '(nan, s1) := accept3 "nN" "aA" "nN" (EmptyString, input) in
  if nan then s1.1 else
  let '(_, s2) := accept "+-" s1 in
  let '(inf, s3) := accept3 "iI" "nN" "fF" s2 in
  if inf then s3.1 else
  let '(zero, s4) := accept "0" s3 in
  let '(hex, s5) := if zero then accept "xX" s4 else (false, s4) in
  let digits := if hex then "0123456789aAbBcCdDeEfF_" else "0123456789_" in
  let exp := if hex then "pP" else "eEpP" in
  let s6 := accept_all digits s5.1 s5.2 in
  let '(dot, s7) := accept "." s6 in
  let s8 := if dot then accept_all digits s7.1 s7.2 else s7 in
  let '(e, s9) := accept exp s8 in
  if e then
    let '(_, s10) := accept "+-" s9 in
    (accept_all "0123456789_" s10.1 s10.2).1
  else s9.1.

Definition is_digit (c : ascii) : bool := in_set c "0123456789".

Definition digit_val (c : ascii) : Z := Z.of_nat (nat_of_ascii c) - 48.

(** Decimal digits at the head of [s]: their value after [acc], how many
    there are, and the text that follows. *)
Fixpoint read_digits (s : string) (acc : Z) (n : Z) : Z * Z * string :=
  match s with
  | String c s' =>
      if is_digit c then read_digits s' (10 * acc + digit_val c) (n + 1) else (acc, n, s)
  | EmptyString => (acc, n, s)
  end.

Definition lower (c : ascii) : ascii :=
  let n := nat_of_ascii c in
  if (65 <=? n)%nat && (n <=? 90)%nat then ascii_of_nat (n + 32) else c.

Fixpoint lower_string (s : string) : string :=
  match s with
  | EmptyString => EmptyString
  | String c s' => String (lower c) (lower_string s')
  end.

Definition read_sign (s : string) : bool * string :=
  match s with
  | String "-" s' => (true, s')
  | String "+" s' => (false, s')
  | _ => (false, s)
  end.

(** An overflow to infinity is a range error. *)
Definition finite_or_error (x : float64) : option float64 :=
  match x with
  | S754_infinity _ | S754_nan => None
  | _ => Some x
  end.

(** [strconv.ParseFloat(token, 64)] on decimal notation: the whole token
    must be a number. *)
Definition ParseFloat (token : string) : option float64 :=
  let '(neg, body) := read_sign token in
  let l := lower_string body in
  if String.eqb l "inf" || String.eqb l "infinity" then Some (S754_infinity neg)
  else if String.eqb (lower_string token) "nan" then Some S754_nan
  else
    let '(ip, ni, r1) := read_digits body 0 0 in
    let '(m, nf, r2) :=
      match r1 with
      | String "." r => let '(m, nf, r') := read_digits r ip 0 in (m, nf, r')
      | _ => (ip, 0, r1)
      end in
    if ni + nf =? 0 then None
    else
      match r2 with
      | EmptyString => finite_or_error (float64_of_decimal neg m (- nf))
      | String c r3 =>
          if in_set c "eE" then
            let '(eneg, r4) := read_sign r3 in
            let '(e, ne, r5) := read_digits r4 0 0 in
            if (ne =? 0) || negb (String.eqb r5 EmptyString) then None
            else finite_or_error (float64_of_decimal neg m ((if eneg then - e else e) - nf))
          else None
      end.

(** Blanks before the token; a newline there is an error. *)
Fixpoint SkipSpace (s : string) : option string :=
  match s with
  | String c s' =>
      if in_set c (String "009" (String "011" (String "012" (String "013" " "))))
      then SkipSpace s'
      else if Ascii.eqb c "010" then None else Some s
  | EmptyString => Some s
  end.

Definition go_Sscanf_f (str : string) : option float64 :=
  match SkipSpace str with
  | None | Some EmptyString => None
  | Some s => ParseFloat (floatToken s)
  end.

(** [fmt.Sprintf("%.nf", x)]: the decimal notation of [x] with [n] digits
    after the point, rounded to nearest and ties to even on the exact
    value. *)
Definition round_div (a b : Z) : Z :=
  let '(q, r) := Z.div_eucl a b in
  match 2 * r ?= b with
  | Lt => q
  | Gt => q + 1
  | Eq => if Z.even q then q else q + 1
  end.

Definition digits_of_Z (z : Z) : string :=
  NilZero.string_of_uint (N.to_uint (Z.to_N z)).

Fixpoint zeros (n : nat) : string :=
  match n with O => EmptyString | S n' => String "0" (zeros n') end.

Definition string_take (n : nat) (s : string) : string := String.substring 0 n s.

Definition fixed (neg : bool) (scaled : Z) (n : nat) : string :=
  let d := digits_of_Z scaled in
  let d := zeros (S n - String.length d) +:+ d in
  let k := (String.length d - n)%nat in
  (if neg then "-" else EmptyString) +:+ string_take k d
    +:+ (if n is O then EmptyString else "." +:+ string_drop k d).

Definition go_Sprintf_f (n : nat) (x : float64) : string :=
  match x with
  | S754_nan => "NaN"
  | S754_infinity s => if s then "-Inf" else "+Inf"
  | S754_zero s => fixed s 0 n
  | S754_finite s m e =>
      let p := 10 ^ Z.of_nat n in
      let scaled := if 0 <=? e then Zpos m * 2 ^ e * p else round_div (Zpos m * p) (2 ^ (- e)) in
      fixed s scaled n
  end.

Definition go_fmt : Fmt := {| Sscanf_f := go_Sscanf_f; Sprintf_f := go_Sprintf_f |}.
End GoFmt.

(** ** Vocabulary of the deduplication properties *)
Section DedupSpec.
Context {fmt : Fmt}.

(** The win-rate that [deduplicateAndFilter] reads in a record. *)
Definition scanned (r : Result) (w : float64) : Prop :=
  parse_winrate (Result_Label r) = Ok (Some w).

(** A record that passes the filter: its win-rate is read and is not
    [<= 0.1]. *)
Definition candidate (r : Result) (w : float64) : Prop :=
  scanned r w ∧ le64 w c_0_1 = false.

(** What the map holds between two rounds. *)
Definition map_ok (m : gmap string Result) : Prop :=
  ∀ a r, m !! a = Some r → Result_Address r = a ∧ ∃ w, candidate r w.

(** Every label in the map contains the marker of the win-rate. *)
Definition labelled (m : gmap string Result) : Prop :=
  ∀ a r, m !! a = Some r → Contains (Result_Label r) "winrate:" = true.

(** [k], with win-rate [wk], stands in the input between [l1] and [l2]
    and wins for its address: no candidate of that address has a greater
    win-rate, and the ones before it, when they are numbers, have a
    smaller one. *)
Definition first_best (l1 : list Result) (k : Result) (wk : float64) (l2 : list Result)
  : Prop :=
  (∀ x w, x ∈ l1 → Result_Address x = Result_Address k → candidate x w →
     gt64 w wk = false ∧ (is_nan w = false → SFltb w wk = true))
  ∧ (∀ x w, x ∈ l2 → Result_Address x = Result_Address k → candidate x w →
     gt64 w wk = false).

(** The deduplication property in the words of the specification: the
    output holds exactly one record for each address of the input, that
    record is an input record whose win-rate is the greatest among the
    entries of the address, and no record with a win-rate [<= 0.1] is in
    the output. *)
Definition dedup_as_specified (results : list Result) : Prop :=
  ∃ out lines, deduplicateAndFilter results = Ok (out, lines)
    ∧ (∀ a, a ∈ Result_Address <$> results →
         ∃ k, filter (λ r, Result_Address r = a) out = [k]
           ∧ k ∈ results
           ∧ ∀ x w wk, x ∈ results → Result_Address x = a →
               scanned x w → scanned k wk → le64 w wk = true)
    ∧ (∀ x w, x ∈ results → scanned x w → le64 w c_0_1 = true → x ∉ out).
End DedupSpec.

(** ** A model of [encoding/json] for lists of address/label records

    [Result], [AddressItem] and program A's [WalletOutput] have the same
    two string fields with the JSON names [address] and [label]; the codec
    works on pairs of strings. *)
Module Json.

#[local] Set Warnings "-register-all".

Definition byte (c : ascii) : N := N_of_ascii c.
Definition chr (n : N) : ascii := ascii_of_N n.

Definition dq : ascii := "034"%char.

Definition is_cont (c : ascii) : bool := (128 <=? byte c)%N && (byte c <=? 191)%N.

(** The width of the UTF-8 sequence at the head of [s], as
    [utf8.DecodeRuneInString] finds it; [0] when the first byte starts no
    well-formed sequence (Go then reads one byte as [RuneError]). *)
Definition utf8_len (s : string) : nat :=
  match s with
  | EmptyString => 0
  | String c0 r0 =>
      let b0 := byte c0 in
      if (b0 <? 128)%N then 1
      else if (b0 <? 194)%N then 0
      else if (b0 <? 224)%N then
        match r0 with
        | String c1 _ => if is_cont c1 then 2 else 0
        | _ => 0
        end
      else if (b0 <? 240)%N then
        match r0 with
        | String c1 (String c2 _) =>
            let lo := if (b0 =? 224)%N then 160%N else 128%N in
            let hi := if (b0 =? 237)%N then 159%N else 191%N in
            if (lo <=? byte c1)%N && (byte c1 <=? hi)%N && is_cont c2 then 3 else 0
        | _ => 0
        end
      else if (b0 <? 245)%N then
        match r0 with
        | String c1 (String c2 (String c3 _)) =>
            let lo := if (b0 =? 240)%N then 144%N else 128%N in
            let hi := if (b0 =? 244)%N then 143%N else 191%N in
            if (lo <=? byte c1)%N && (byte c1 <=? hi)%N && is_cont c2 && is_cont c3
            then 4 else 0
        | _ => 0
        end
      else 0
  end%nat.

(** [utf8.ValidString]. [k] counts the bytes still owed to the sequence
    under way. *)
Fixpoint valid_from (k : nat) (s : string) : bool :=
  match s with
  | EmptyString => true
  | String c r =>
      match k with
      | S k' => valid_from k' r
      | O => match utf8_len s with
             | O => false
             | S n => valid_from n r
             end
      end
  end.

Definition ValidString (s : string) : bool := valid_from 0 s.

(** U+FFFD, the replacement character, in UTF-8. *)
Definition replacement : string :=
  String (chr 239) (String (chr 191) (String (chr 189) EmptyString)).

Definition hex_digit (n : N) : ascii :=
  if (n <? 10)%N then chr (48 + n) else chr (87 + n).

(** *** Writing *)

(** How [appendString] writes an ASCII byte with HTML escaping, as
    [json.Marshal] asks for it: quotes, backslashes, control characters,
    [<], [>] and [&] are escaped. *)
Definition escape_ascii (c : ascii) : string :=
  let b := byte c in
  if Ascii.eqb c "\" || Ascii.eqb c dq then String "\" (String c EmptyString)
  else if (b =? 8)%N then "\b"
  else if (b =? 12)%N then "\f"
  else if (b =? 10)%N then "\n"
  else if (b =? 13)%N then "\r"
  else if (b =? 9)%N then "\t"
  else if (b <? 32)%N || Ascii.eqb c "<" || Ascii.eqb c ">" || Ascii.eqb c "&"
  then "\u00" +:+ String (hex_digit (b / 16)) (String (hex_digit (b mod 16)) EmptyString)
  else String c EmptyString.

(** The body of [appendString]: a byte that belongs to a well-formed
    sequence is copied, but U+2028 and U+2029 are escaped, and a byte that
    starts no well-formed sequence is written as the escape of U+FFFD. [k]
    counts the bytes still owed to the sequence under way. *)
Fixpoint escape_from (k : nat) (s : string) : string :=
  match s with
  | EmptyString => EmptyString
  | String c r =>
      match k with
      | S k' => String c (escape_from k' r)
      | O =>
          if (byte c <? 128)%N then escape_ascii c +:+ escape_from 0 r
          else
            match utf8_len s with
            | O => "\ufffd" +:+ escape_from 0 r
            | S n =>
                match r with
                | String c1 (String c2 r3) =>
                    if (byte c =? 226)%N && (byte c1 =? 128)%N
                       && ((byte c2 =? 168)%N || (byte c2 =? 169)%N)
                    then "\u202" +:+ String (hex_digit (byte c2 - 160)) (escape_from 0 r3)
                    else String c (escape_from n r)
                | _ => String c (escape_from n r)
                end
            end
      end
  end.

Definition quote (s : string) : string :=
  String dq (escape_from 0 s +:+ String dq EmptyString).

Definition nl : string := String (chr 10) EmptyString.

(** One element of the array, indented as [json.MarshalIndent] writes it
    with no prefix and an indent of two spaces. *)
Definition indent_item (it : string * string) : string :=
  "  {" +:+ nl +:+ "    " +:+ quote "address" +:+ ": " +:+ quote it.1 +:+ "," +:+ nl
  +:+ "    " +:+ quote "label" +:+ ": " +:+ quote it.2 +:+ nl +:+ "  }".

Fixpoint indent_items (l : list (string * string)) : string :=
  match l with
  | [] => EmptyString
  | [it] => indent_item it
  | it :: rest => indent_item it +:+ "," +:+ nl +:+ indent_items rest
  end.

(** [json.MarshalIndent] of a slice of records. A slice that was never
    appended to is nil and is written as [null]; every slice the two
    programs marshal is either nil or not empty. The call cannot fail on
    records of strings, and the branches of the programs for its error are
    left out. *)
Definition MarshalIndent (l : list (string * string)) : string :=
  match l with
  | [] => "null"
  | _ => "[" +:+ nl +:+ indent_items l +:+ nl +:+ "]"
  end.

(** *** Reading *)

Inductive value :=
  | Null
  | Bool (b : bool)
  | Number
  | Str (s : string)
  | Array (l : list value)
  | Object (members : list (string * value)).

Definition is_ws (c : ascii) : bool :=
  (byte c =? 32)%N || (byte c =? 9)%N || (byte c =? 13)%N || (byte c =? 10)%N.

Fixpoint skip_ws (s : string) : string :=
  match s with
  | String c r => if is_ws c then skip_ws r else s
  | EmptyString => s
  end.

Definition hex_val (c : ascii) : option N :=
  let b := byte c in
  if (48 <=? b)%N && (b <=? 57)%N then Some (b - 48)%N
  else if (97 <=? b)%N && (b <=? 102)%N then Some (b - 87)%N
  else if (65 <=? b)%N && (b <=? 70)%N then Some (b - 55)%N
  else None.

Definition u4 (h1 h2 h3 h4 : ascii) : option N :=
  match hex_val h1, hex_val h2, hex_val h3, hex_val h4 with
  | Some a, Some b, Some c, Some d => Some (((a * 16 + b) * 16 + c) * 16 + d)%N
  | _, _, _, _ => None
  end.

(** [utf8.EncodeRune]. *)
Definition EncodeRune (r : N) : string :=
  (if r <? 128 then String (chr r) EmptyString
   else if r <? 2048 then String (chr (192 + r / 64)) (String (chr (128 + r mod 64)) EmptyString)
   else if (55296 <=? r) && (r <? 57344) || (1114111 <? r) then replacement
   else if r <? 65536 then
     String (chr (224 + r / 4096)) (String (chr (128 + (r / 64) mod 64))
       (String (chr (128 + r mod 64)) EmptyString))
   else
     String (chr (240 + r / 262144)) (String (chr (128 + (r / 4096) mod 64))
       (String (chr (128 + (r / 64) mod 64)) (String (chr (128 + r mod 64)) EmptyString))))%N.

Definition is_surrogate (r : N) : bool := (55296 <=? r)%N && (r <? 57344)%N.

(** [utf16.DecodeRune]: the code point of a surrogate pair. *)
Definition surrogate_pair (r1 r2 : N) : option N :=
  if (55296 <=? r1)%N && (r1 <? 56320)%N && (56320 <=? r2)%N && (r2 <? 57344)%N
  then Some (65536 + (r1 - 55296) * 1024 + (r2 - 56320))%N
  else None.

Definition prepend (p : string) (x : option (string * string)) : option (string * string) :=
  match x with
  | Some (t, rest) => Some (p +:+ t, rest)
  | None => None
  end.

(** A string literal after its opening quote: the text it stands for and
    the input after the closing quote. Escapes are resolved and a raw byte
    that starts no well-formed UTF-8 sequence becomes U+FFFD; a control
    character or an unknown escape is a syntax error. [k] counts the bytes
    still owed to the sequence under way. *)
Fixpoint unquote_from (k : nat) (s : string) : option (string * string) :=
  match s with
  | EmptyString => None
  | String c r =>
      match k with
      | S k' => prepend (String c EmptyString) (unquote_from k' r)
      | O =>
          if Ascii.eqb c dq then Some (EmptyString, r)
          else if Ascii.eqb c "\" then
            match r with
            | String e r1 =>
                if Ascii.eqb e dq || Ascii.eqb e "\" || Ascii.eqb e "/"
                then prepend (String e EmptyString) (unquote_from 0 r1)
                else if Ascii.eqb e "b" then prepend (String (chr 8) EmptyString) (unquote_from 0 r1)
                else if Ascii.eqb e "f" then prepend (String (chr 12) EmptyString) (unquote_from 0 r1)
                else if Ascii.eqb e "n" then prepend (String (chr 10) EmptyString) (unquote_from 0 r1)
                else if Ascii.eqb e "r" then prepend (String (chr 13) EmptyString) (unquote_from 0 r1)
                else if Ascii.eqb e "t" then prepend (String (chr 9) EmptyString) (unquote_from 0 r1)
                else if Ascii.eqb e "u" then
                  match r1 with
                  | String h1 (String h2 (String h3 (String h4 r2))) =>
                      match u4 h1 h2 h3 h4 with
                      | None => None
                      | Some rr =>
                          if is_surrogate rr then
                            match r2 with
                            | String "\" (String "u"
                                (String g1 (String g2 (String g3 (String g4 r3))))) =>
                                match u4 g1 g2 g3 g4 with
                                | Some rr1 =>
                                    match surrogate_pair rr rr1 with
                                    | Some dec => prepend (EncodeRune dec) (unquote_from 0 r3)
                                    | None => prepend replacement (unquote_from 0 r2)
                                    end
                                | None => prepend replacement (unquote_from 0 r2)
                                end
                            | _ => prepend replacement (unquote_from 0 r2)
                            end
                          else prepend (EncodeRune rr) (unquote_from 0 r2)
                      end
                  | _ => None
                  end
                else None
            | EmptyString => None
            end
          else if (byte c <? 32)%N then None
          else if (byte c <? 128)%N then prepend (String c EmptyString) (unquote_from 0 r)
          else
            match utf8_len s with
            | O => prepend replacement (unquote_from 0 r)
            | S n => prepend (String c EmptyString) (unquote_from n r)
            end
      end
  end.

Definition is_digit (c : ascii) : bool := (48 <=? byte c)%N && (byte c <=? 57)%N.

Fixpoint skip_digits (s : string) : string :=
  match s with
  | String c r => if is_digit c then skip_digits r else s
  | EmptyString => s
  end.

(** The input after a number: an optional minus, [0] or digits that do not
    start with [0], an optional fraction and an optional exponent. *)
Definition lex_exponent (s : string) : option string :=
  match s with
  | String e r =>
      if Ascii.eqb e "e" || Ascii.eqb e "E" then
        let r' := match r with
                  | String g r0 => if Ascii.eqb g "+" || Ascii.eqb g "-" then r0 else r
                  | EmptyString => r
                  end in
        match r' with
        | String d r1 => if is_digit d then Some (skip_digits r1) else None
        | EmptyString => None
        end
      else Some s
  | EmptyString => Some s
  end.

Definition lex_fraction (s : string) : option string :=
  match s with
  | String "." r =>
      match r with
      | String d r1 => if is_digit d then lex_exponent (skip_digits r1) else None
      | EmptyString => None
      end
  | _ => lex_exponent s
  end.

Definition lex_number (s : string) : option string :=
  let s1 := match s with String "-" r => r | _ => s end in
  match s1 with
  | String c r =>
      if Ascii.eqb c "0" then lex_fraction r
      else if is_digit c then lex_fraction (skip_digits r)
      else None
  | EmptyString => None
  end.

(** The scanner refuses more than 10000 nested arrays and objects. *)
Definition maxNestingDepth : N := 10000.

(** The value at the head of the input and the input after it. Every call
    passes less fuel on and is followed by the reading of at least one
    byte, so twice the length of the input is fuel enough. *)
Fixpoint parse_value (fuel : nat) (depth : N) (s : string) : option (value * string) :=
  match fuel with
  | O => None
  | S fuel' =>
      match skip_ws s with
      | EmptyString => None
      | String c r =>
          if Ascii.eqb c dq then
            match unquote_from 0 r with
            | Some (t, r') => Some (Str t, r')
            | None => None
            end
          else if Ascii.eqb c "[" then
            if (maxNestingDepth <? depth + 1)%N then None
            else
              match skip_ws r with
              | String "]" r' => Some (Array [], r')
              | _ =>
                  match parse_elems fuel' (depth + 1)%N r with
                  | Some (l, r') => Some (Array l, r')
                  | None => None
                  end
              end
          else if Ascii.eqb c "{" then
            if (maxNestingDepth <? depth + 1)%N then None
            else
              match skip_ws r with
              | String "}" r' => Some (Object [], r')
              | _ =>
                  match parse_members fuel' (depth + 1)%N r with
                  | Some (l, r') => Some (Object l, r')
                  | None => None
                  end
              end
          else if HasPrefix (String c r) "null" then Some (Null, string_drop 4 (String c r))
          else if HasPrefix (String c r) "true" then Some (Bool true, string_drop 4 (String c r))
          else if HasPrefix (String c r) "false" then Some (Bool false, string_drop 5 (String c r))
          else
            match lex_number (String c r) with
            | Some r' => Some (Number, r')
            | None => None
            end
      end
  end
with parse_elems (fuel : nat) (depth : N) (s : string) : option (list value * string) :=
  match fuel with
  | O => None
  | S fuel' =>
      match parse_value fuel' depth s with
      | Some (v, r) =>
          match skip_ws r with
          | String "," r' =>
              match parse_elems fuel' depth r' with
              | Some (l, r'') => Some (v :: l, r'')
              | None => None
              end
          | String "]" r' => Some ([v], r')
          | _ => None
          end
      | None => None
      end
  end
with parse_members (fuel : nat) (depth : N) (s : string)
  : option (list (string * value) * string) :=
  match fuel with
  | O => None
  | S fuel' =>
      match skip_ws s with
      | String c r =>
          if Ascii.eqb c dq then
            match unquote_from 0 r with
            | Some (key, r1) =>
                match skip_ws r1 with
                | String ":" r2 =>
                    match parse_value fuel' depth r2 with
                    | Some (v, r3) =>
                        match skip_ws r3 with
                        | String "," r4 =>
                            match parse_members fuel' depth r4 with
                            | Some (l, r5) => Some ((key, v) :: l, r5)
                            | None => None
                            end
                        | String "}" r4 => Some ([(key, v)], r4)
                        | _ => None
                        end
                    | None => None
                    end
                | _ => None
                end
            | None => None
            end
          else None
      | EmptyString => None
      end
  end.

(** The whole input as one value, as the validity check of
    [json.Unmarshal] demands. *)
Definition parse (text : string) : option value :=
  match parse_value (2 * String.length text + 2) 0 text with
  | Some (v, rest) =>
      match skip_ws rest with
      | EmptyString => Some v
      | _ => None
      end
  | None => None
  end.

Definition upper (c : ascii) : ascii :=
  if (97 <=? byte c)%N && (byte c <=? 122)%N then chr (byte c - 32) else c.

(** [foldName] on an object key: ASCII letters in upper case; the long s
    (U+017F) and the Kelvin sign (U+212A) fold to [S] and [K]. No other
    character folds to an ASCII letter. *)
Fixpoint foldName (s : string) : string :=
  match s with
  | EmptyString => EmptyString
  | String c r =>
      match r with
      | String c1 r1 =>
          if (byte c =? 197)%N && (byte c1 =? 191)%N then String "S" (foldName r1)
          else
            match r1 with
            | String c2 r2 =>
                if (byte c =? 226)%N && (byte c1 =? 132)%N && (byte c2 =? 170)%N
                then String "K" (foldName r2)
                else String (upper c) (foldName r)
            | EmptyString => String (upper c) (foldName r)
            end
      | EmptyString => String (upper c) EmptyString
      end
  end.

(** An object into a record with the string fields [address] and [label]:
    keys match without regard to case, the last of equal keys wins, a
    [null] leaves the field as it is and an unknown key is skipped. Any
    other kind of value for a field is a type error: the decoder notes it,
    leaves the field and goes on. The boolean tells whether an error was
    noted. *)
Definition noted {A} (x : A * bool) : A * bool := (x.1, true).

Fixpoint decode_members (members : list (string * value)) (it : string * string)
  : (string * string) * bool :=
  match members with
  | [] => (it, false)
  | (key, v) :: rest =>
      if String.eqb (foldName key) "ADDRESS" then
        match v with
        | Str s => decode_members rest (s, it.2)
        | Null => decode_members rest it
        | _ => noted (decode_members rest it)
        end
      else if String.eqb (foldName key) "LABEL" then
        match v with
        | Str s => decode_members rest (it.1, s)
        | Null => decode_members rest it
        | _ => noted (decode_members rest it)
        end
      else decode_members rest it
  end.

Definition decode_item (v : value) : (string * string) * bool :=
  match v with
  | Object members => decode_members members (EmptyString, EmptyString)
  | Null => ((EmptyString, EmptyString), false)
  | _ => ((EmptyString, EmptyString), true)
  end.

Fixpoint decode_items (l : list value) : list (string * string) * bool :=
  match l with
  | [] => ([], false)
  | v :: rest =>
      let '(it, e1) := decode_item v in
      let '(its, e2) := decode_items rest in
      (it :: its, e1 || e2)
  end.

(** [json.Unmarshal(data, &slice)] into a nil slice of records: what the
    slice holds afterwards, and whether an error is returned. Malformed
    input stores nothing. *)
Definition Unmarshal (data : string) : list (string * string) * bool :=
  match parse data with
  | Some Null => ([], false)
  | Some (Array l) => decode_items l
  | _ => ([], true)
  end.
End Json.

(** *** Vocabulary of the round trip *)
Module JsonSpec.
Import Json.

(** The line separators U+2028 and U+2029 at the head of a text. *)
Definition is_separator (c : ascii) (r : string) : bool :=
  match r with
  | String c1 (String c2 _) =>
      (byte c =? 226)%N && (byte c1 =? 128)%N && ((byte c2 =? 168)%N || (byte c2 =? 169)%N)
  | _ => false
  end.

Definition object_of (it : string * string) : value :=
  Object [("address", Str it.1); ("label", Str it.2)].

Definition valid_pair (it : string * string) : Prop :=
  ValidString it.1 = true ∧ ValidString it.2 = true.

(** What follows a member of an object. *)
Definition after_member (fuel : nat) (depth : N) (key : string) (v : value) (r3 : string)
  : option (list (string * value) * string) :=
  match skip_ws r3 with
  | String "," r4 =>
      match parse_members fuel depth r4 with
      | Some (l, r5) => Some ((key, v) :: l, r5)
      | None => None
      end
  | String "}" r4 => Some ([(key, v)], r4)
  | _ => None
  end.
End JsonSpec.

(** ** Files

    The disk maps a path to the bytes of the file. Reading fails on a path
    with no file; whether a write or a removal fails, and what a directory
    lists, is decided by the outside world. *)
Record DirEntry := mkDirEntry { Name : string; IsDir : bool }.

Class Disk := {
  WriteFile_fails : gmap string string → string → bool;
  Remove_fails : gmap string string → string → bool;
  MkdirAll_fails : gmap string string → string → bool;
  ReadDir : gmap string string → string → option (list DirEntry);
}.

Definition ReadFile (disk : gmap string string) (path : string) : option string :=
  disk !! path.

Section Files.
Context {dsk : Disk}.

Definition WriteFile (disk : gmap string string) (path content : string)
  : option (gmap string string) :=
  if WriteFile_fails disk path then None else Some (<[path := content]> disk).

Definition Remove (disk : gmap string string) (path : string)
  : option (gmap string string) :=
  match disk !! path with
  | None => None
  | Some _ => if Remove_fails disk path then None else Some (delete path disk)
  end.
End Files.

(** [filepath.Ext]: the suffix of the path from the last dot of its last
    element. The bytes are scanned from the end. *)
Fixpoint ext_scan (reversed : list ascii) (suffix : string) : string :=
  match reversed with
  | [] => EmptyString
  | c :: before =>
      if Ascii.eqb c "/" then EmptyString
      else if Ascii.eqb c "." then String c suffix
      else ext_scan before (String c suffix)
  end.

Definition Ext (path : string) : string :=
  ext_scan (rev (list_ascii_of_string path)) EmptyString.

(** [filepath.Join(dir, name)] for the name of a directory entry, which
    holds no separator and is neither [.] nor [..]: nothing to clean. *)
Definition Join (dir name : string) : string := dir +:+ "/" +:+ name.

(** *** Text files *)

(** The lines [bufio.Scanner] yields with [ScanLines]: cut at each newline,
    a last line without newline counts when it is not empty. *)
Fixpoint scan_lines (s : string) : list string :=
  match s with
  | EmptyString => []
  | String c r =>
      if Ascii.eqb c "010" then EmptyString :: scan_lines r
      else
        match scan_lines r with
        | [] => [String c EmptyString]
        | l :: ls => String c l :: ls
        end
  end.

(** One carriage return at the end of a line is dropped. *)
Fixpoint dropCR (line : string) : string :=
  match line with
  | EmptyString => EmptyString
  | String c r =>
      match r with
      | EmptyString => if Ascii.eqb c "013" then EmptyString else line
      | _ => String c (dropCR r)
      end
  end.

(** The scanner gives up with [ErrTooLong] on a line that does not fit its
    buffer of [MaxScanTokenSize] bytes. *)
Definition MaxScanTokenSize : Z := 65536.

Definition too_long (line : string) : bool :=
  MaxScanTokenSize <=? Z.of_nat (String.length line).

(** The width in bytes of the white space character at the head of [s], as
    [unicode.IsSpace] knows them, and [0] when there is none: the six of
    ASCII, U+0085, U+00A0, U+1680, U+2000 to U+200A, U+2028, U+2029,
    U+202F, U+205F and U+3000. *)
Definition space_width (s : string) : nat :=
  match s with
  | EmptyString => 0
  | String c r =>
      let b := Json.byte c in
      if ((9 <=? b) && (b <=? 13) || (b =? 32))%N then 1
      else
        match r with
        | String c1 r1 =>
            let b1 := Json.byte c1 in
            if ((b =? 194) && ((b1 =? 133) || (b1 =? 160)))%N then 2
            else
              match r1 with
              | String c2 _ =>
                  let b2 := Json.byte c2 in
                  if ((b =? 225) && (b1 =? 154) && (b2 =? 128))%N then 3
                  else if ((b =? 226) && (b1 =? 128)
                           && ((128 <=? b2) && (b2 <=? 138) || (b2 =? 168) || (b2 =? 169)
                               || (b2 =? 175)))%N then 3
                  else if ((b =? 226) && (b1 =? 129) && (b2 =? 159))%N then 3
                  else if ((b =? 227) && (b1 =? 128) && (b2 =? 128))%N then 3
                  else 0
              | EmptyString => 0
              end
        | EmptyString => 0
        end
  end%nat.

(** [strings.Fields]: the pieces between runs of white space. [skip] counts
    the bytes left of the white space character under way, [cur] is the
    piece read so far. *)
Fixpoint fields_from (skip : nat) (cur : string) (s : string) : list string :=
  match s with
  | EmptyString => match cur with EmptyString => [] | _ => [cur] end
  | String c r =>
      match skip with
      | S k => fields_from k cur r
      | O =>
          match space_width s with
          | O => fields_from 0 (cur +:+ String c EmptyString) r
          | S k =>
              match cur with
              | EmptyString => fields_from k EmptyString r
              | _ => cur :: fields_from k EmptyString r
              end
          end
      end
  end.

Definition Fields (s : string) : list string := fields_from 0 EmptyString s.

(** [strings.Join(elems, sep)] *)
Fixpoint strings_Join (elems : list string) (sep : string) : string :=
  match elems with
  | [] => EmptyString
  | [e] => e
  | e :: rest => e +:+ sep +:+ strings_Join rest sep
  end.

Definition item_of_pair (p : string * string) : AddressItem := mkAddressItem p.1 p.2.
Definition pair_of_item (it : AddressItem) : string * string := (Item_Address it, Item_Label it).
Definition result_of_pair (p : string * string) : Result := mkResult p.1 p.2.
Definition pair_of_result (r : Result) : string * string := (Result_Address r, Result_Label r).

(** The lines of a text file as records: at least two fields, the first is
    the address and the others, joined by one blank, the label. *)
Definition item_of_line (line : string) : option AddressItem :=
  match Fields line with
  | address :: (l :: ls) as labels => Some (mkAddressItem address (strings_Join labels " "))
  | _ => None
  end.

(** The [.txt] branch of [readAddressesFromFile]. A first line with two
    blanks in a row is taken for the title and left out. *)
Definition read_txt (content : string) : error + list AddressItem :=
  let raw := scan_lines content in
  if existsb too_long raw then inl ErrReadTxt
  else
    let lines := dropCR <$> raw in
    let data :=
      match lines with
      | firstLine :: rest => if Contains firstLine "  " then rest else lines
      | [] => []
      end in
    inr (omap item_of_line data).

Definition readAddressesFromFile (disk : gmap string string) (filePath : string)
  : error + list AddressItem :=
  match ReadFile disk filePath with
  | None => inl ErrReadFile
  | Some content =>
      let ext := Ext filePath in
      if String.eqb ext ".json" then
        let '(addresses, failed) := Json.Unmarshal content in
        if failed then inl ErrJSON else inr (item_of_pair <$> addresses)
      else if String.eqb ext ".txt" then read_txt content
      else inl (ErrFormat ext)
  end.

(** ** Program B: the batch analyzer *)

(** A field of type [interface{}] after [json.Unmarshal]: a JSON number is
    a float64, a JSON string a string; anything else (nil, a boolean, an
    array, an object) takes neither branch of the type switches. *)
Inductive interface :=
  | I_float64 (v : float64)
  | I_string (v : string)
  | I_other.

Record AddressInfo := mkAddressInfo {
  TotalProfit : interface;
  SolBalance : interface;
  WinRate : interface;
  TwitterName : string;
}.

Record AddrData := mkAddrData { PageProps_AddressInfo : AddressInfo }.

(** The browser: [chromedp_Run timeout url] is the text of the page body
    read by a headless session (behind the local proxy) that navigates to
    [url] under a context that is cancelled after [timeout] seconds, or
    [None] for an error.
    [Unmarshal_AddrData] is [json.Unmarshal] into an [AddrData]. *)
Class Browser := {
  chromedp_Run : Z → string → option string;
  Unmarshal_AddrData : string → option AddrData;
}.

Record state := mkState {
  disk : gmap string string;
  allResults : list Result;
  trace : list event;
}.

Definition log (entry : log_entry) (st : state) : state :=
  mkState (disk st) (allResults st) (trace st ++ [Log entry]).

Definition set_disk (d : gmap string string) (st : state) : state :=
  mkState d (allResults st) (trace st).

Section Analyzer.
Context {fmt : Fmt} {browser : Browser} {dsk : Disk}.

(** The type switches of [FetchAndAnalyzeData]: a variable keeps its zero
    value when the field is neither a number nor a string, and when
    [Sscanf] fails on the string. *)
Definition number_of (field : interface) : float64 :=
  match field with
  | I_float64 v => v
  | I_string v => match Sscanf_f v with Some x => x | None => S754_zero false end
  | I_other => S754_zero false
  end.

Definition apiURL (address : string) : string :=
  "https://gmgn.ai/_next/data/uFrHZZO4a9NWehviXLbes/sol/address/" +:+ address
  +:+ ".json?chain=sol".

Definition format_label (totalProfit solBalance winRate : float64) (name : string) : string :=
  "profit:" +:+ Sprintf_f 2 totalProfit +:+ ",balance:" +:+ Sprintf_f 2 solBalance
  +:+ ",winrate:" +:+ Sprintf_f 3 winRate +:+ ",name:" +:+ name.

(** [FetchAndAnalyzeData]: what it does (one browser session, one line of
    log) and what it returns: an error, or a result that may be nil. *)
Definition FetchAndAnalyzeData (address : string) : list event * (error + option Result) :=
  let session := Session 30 (apiURL address) in
  match chromedp_Run 30 (apiURL address) with
  | None => ([session], inl ErrAccess)
  | Some jsonContent =>
      match Unmarshal_AddrData jsonContent with
      | None => ([session], inl ErrJSON)
      | Some data =>
          let addr := PageProps_AddressInfo data in
          let totalProfit := number_of (TotalProfit addr) in
          let solBalance := number_of (SolBalance addr) in
          let winRate := number_of (WinRate addr) in
          if (ge64 totalProfit c_1000000 && ge64 solBalance c_20 && ge64 winRate c_0_1)
             || (ge64 totalProfit c_10000 && ge64 winRate c_0_755)
          then
            ([session;
              Log (LogQualifies address totalProfit solBalance winRate (TwitterName addr))],
             inr (Some (mkResult address
                          (format_label totalProfit solBalance winRate (TwitterName addr)))))
          else
            ([session;
              Log (LogNotQualifies address totalProfit solBalance winRate (TwitterName addr))],
             inr None)
      end
  end.

(** The loop over the addresses of one file. *)
Fixpoint scrape (addresses validAddresses : list AddressItem) (fileResults : list Result)
  (tr : list event) : list AddressItem * list Result * list event :=
  match addresses with
  | [] => (validAddresses, fileResults, tr)
  | item :: rest =>
      let '(events, outcome) := FetchAndAnalyzeData (Item_Address item) in
      match outcome with
      | inl err =>
          scrape rest validAddresses fileResults
            (tr ++ events ++ [Log (LogAddressFailed (Item_Address item) err); Sleep 2])
      | inr (Some result) =>
          scrape rest (validAddresses ++ [item]) (fileResults ++ [result])
            (tr ++ events ++ [Sleep 2])
      | inr None =>
          scrape rest validAddresses fileResults (tr ++ events ++ [Sleep 2])
      end
  end.

Definition MarshalIndent_items (l : list AddressItem) : string :=
  Json.MarshalIndent (pair_of_item <$> l).

Definition MarshalIndent_results (l : list Result) : string :=
  Json.MarshalIndent (pair_of_result <$> l).

Definition txt_line (address label : string) : string :=
  address +:+ "  " +:+ label +:+ Json.nl.

Fixpoint txt_lines (l : list AddressItem) : string :=
  match l with
  | [] => EmptyString
  | addr :: rest => txt_line (Item_Address addr) (Item_Label addr) +:+ txt_lines rest
  end.

Definition txt_content (l : list AddressItem) : string :=
  "address  label" +:+ Json.nl +:+ txt_lines l.

(** The end of a round of the loop over the files: the results of the file
    join the total, which is saved at once. *)
Definition save_total (fileResults : list Result) (st : state) : state :=
  match fileResults with
  | [] => st
  | _ =>
      let all := allResults st ++ fileResults in
      let st' := mkState (disk st) all (trace st) in
      match WriteFile (disk st) "ad.json" (MarshalIndent_results all) with
      | None => log LogTotalSaveFailed st'
      | Some d => log (LogTotalUpdated (length all)) (set_disk d st')
      end
  end.

Definition wanted (file : DirEntry) : bool :=
  negb (IsDir file)
  && (String.eqb (Ext (Name file)) ".json" || String.eqb (Ext (Name file)) ".txt").

(** One round of the loop over the files of [ad_json]. *)
Definition process_file (file : DirEntry) (st : state) : state :=
  if wanted file then
    let filePath := Join "ad_json" (Name file) in
    match readAddressesFromFile (disk st) filePath with
    | inl err => log (LogFileFailed (Name file) err) st
    | inr addresses =>
        let '(validAddresses, fileResults, tr) := scrape addresses [] [] (trace st) in
        let st1 := mkState (disk st) (allResults st) tr in
        match validAddresses with
        | _ :: _ =>
            let content :=
              if String.eqb (Ext (Name file)) ".json"
              then MarshalIndent_items validAddresses
              else txt_content validAddresses in
            match WriteFile (disk st1) filePath content with
            | None => log (LogSaveFailed (Name file)) st1
            | Some d =>
                save_total fileResults
                  (log (LogFileUpdated (Name file) (length validAddresses)) (set_disk d st1))
            end
        | [] =>
            match Remove (disk st1) filePath with
            | None => save_total fileResults (log (LogRemoveFailed (Name file)) st1)
            | Some d => save_total fileResults (log (LogFileDeleted (Name file)) (set_disk d st1))
            end
        end
    end
  else st.

Fixpoint process_files (files : list DirEntry) (st : state) : state :=
  match files with
  | [] => st
  | file :: rest => process_files rest (process_file file st)
  end.

(** The second pass over [ad_json]: the labels as the files have them now,
    the last one read for an address wins. *)
Fixpoint original_labels (files : list DirEntry) (st : state)
  (originalLabels : gmap string string) : gmap string string * state :=
  match files with
  | [] => (originalLabels, st)
  | file :: rest =>
      if wanted file then
        match readAddressesFromFile (disk st) (Join "ad_json" (Name file)) with
        | inl err => original_labels rest (log (LogReadFailed (Name file) err) st) originalLabels
        | inr addresses =>
            original_labels rest st
              (foldl (λ m addr, <[Item_Address addr := Item_Label addr]> m)
                 originalLabels addresses)
        end
      else original_labels rest st originalLabels
  end.

Fixpoint txt_results (filteredResults : list Result) (originalLabels : gmap string string)
  (st : state) : string * state :=
  match filteredResults with
  | [] => (EmptyString, st)
  | result :: rest =>
      match originalLabels !! Result_Address result with
      | Some originalLabel =>
          let '(text, st') := txt_results rest originalLabels st in
          (txt_line (Result_Address result) originalLabel +:+ text, st')
      | None =>
          let '(text, st') :=
            txt_results rest originalLabels
              (log (LogNoOriginalLabel (Result_Address result)) st) in
          (txt_line (Result_Address result) (Result_Label result) +:+ text, st')
      end
  end.

(** [processAddressFiles]: the state it leaves and the error it returns, if
    any; [Panic] when the deduplication indexes out of range. The results
    of an earlier run are taken from [ad.json] when it can be read,
    whatever [json.Unmarshal] says of it. *)
Definition processAddressFiles (d : gmap string string) : run (state * option error) :=
  match ReadDir d "ad_json" with
  | None => Ok (mkState d [] [], Some ErrReadDir)
  | Some files =>
      let earlier :=
        match ReadFile d "ad.json" with
        | Some resultContent => result_of_pair <$> (Json.Unmarshal resultContent).1
        | None => []
        end in
      let st := process_files files (mkState d earlier []) in
      run_bind (deduplicateAndFilter (allResults st)) (λ '(filteredResults, lines),
        let st := mkState (disk st) (allResults st) (trace st ++ (Log <$> lines)) in
        match WriteFile (disk st) "ad.json" (MarshalIndent_results filteredResults) with
        | None => Ok (st, Some ErrSaveJSON)
        | Some d1 =>
            let st1 := set_disk d1 st in
            if MkdirAll_fails d1 "ad_txt" then Ok (st1, Some ErrMkdir)
            else
              match ReadDir d1 "ad_json" with
              | None => Ok (st1, Some ErrReadDir)
              | Some files2 =>
                  let '(originalLabels, st2) := original_labels files2 st1 ∅ in
                  let '(text, st3) := txt_results filteredResults originalLabels st2 in
                  match WriteFile (disk st3) (Join "ad_txt" "addresses.txt")
                          ("address  label" +:+ Json.nl +:+ text) with
                  | None => Ok (st3, Some ErrSaveTxt)
                  | Some d2 => Ok (set_disk d2 st3, None)
                  end
              end
        end)
  end.

(** [main] of program B logs the error, if there is one. *)
Definition main_B (d : gmap string string) : run state :=
  run_bind (processAddressFiles d) (λ '(st, err),
    match err with
    | Some e => Ok (log (LogError e) st)
    | None => Ok st
    end).
End Analyzer.

(** ** Program A: the channel fetcher *)

(** One element of [Result.Data.Json], and a [WalletItem] reduced to that
    list, its only content. *)
Record WalletEntry := mkWalletEntry { Entry_Address : string; Entry_Labels : list string }.
Record WalletItem := mkWalletItem { Result_Data_Json : list WalletEntry }.
Record WalletOutput := mkWalletOutput { Output_Address : string; Output_Label : string }.

Inductive http_result :=
  | RequestFails
  | BodyFails
  | Body (body : string).

(** [http_Get url] is [http.Get] followed by [ioutil.ReadAll] of the body;
    [Unmarshal_WalletItems] is [json.Unmarshal] into a slice of
    [WalletItem]. *)
Class Network := {
  http_Get : string → http_result;
  Unmarshal_WalletItems : string → option (list WalletItem);
}.

(** What program A prints. *)
Inductive printed :=
  | PrintUsage
  | PrintProcessing (channelID : string)
  | PrintFetchFailed (channelID : string) (err : error)
  | PrintWriteFailed (filename : string)
  | PrintSaved (filename : string).

Record state_A := mkStateA { disk_A : gmap string string; output : list printed }.

Definition print (line : printed) (st : state_A) : state_A :=
  mkStateA (disk_A st) (output st ++ [line]).

Section Fetcher.
Context {net : Network} {dsk : Disk}.

Definition channel_url (channelID : string) : string :=
  "https://chain.fm/api/trpc/walletItem.listBuyChannel?batch=1&input={"
  +:+ Json.quote "0" +:+ ":{" +:+ Json.quote "json" +:+ ":{" +:+ Json.quote "chanelId"
  +:+ ":" +:+ String Json.dq (channelID +:+ String Json.dq "}}}").

Definition fetchWalletData (channelID : string) : error + list WalletItem :=
  match http_Get (channel_url channelID) with
  | RequestFails => inl ErrRequest
  | BodyFails => inl ErrReadBody
  | Body body =>
      match Unmarshal_WalletItems body with
      | None => inl ErrJSON
      | Some data => inr data
      end
  end.

(** The inner loop of [main]: an entry without label is passed over, the
    others give their address and their first label. *)
Fixpoint collect (entries : list WalletEntry) (outputs : list WalletOutput)
  : list WalletOutput :=
  match entries with
  | [] => outputs
  | item :: rest =>
      match Entry_Labels item with
      | [] => collect rest outputs
      | label0 :: _ => collect rest (outputs ++ [mkWalletOutput (Entry_Address item) label0])
      end
  end.

Definition pair_of_output (o : WalletOutput) : string * string :=
  (Output_Address o, Output_Label o).

Definition MarshalIndent_outputs (l : list WalletOutput) : string :=
  Json.MarshalIndent (pair_of_output <$> l).

(** One round of the loop of [main] over the channel identifiers.
    [data[0]] is read without a check of the length. *)
Definition process_channel (channelID : string) (st : state_A) : run state_A :=
  let st := print (PrintProcessing channelID) st in
  match fetchWalletData channelID with
  | inl err => Ok (print (PrintFetchFailed channelID err) st)
  | inr data =>
      run_bind (index data 0) (λ first,
        let outputs := collect (Result_Data_Json first) [] in
        let jsonData := MarshalIndent_outputs outputs in
        let filename := channelID +:+ ".json" in
        match WriteFile (disk_A st) filename jsonData with
        | None => Ok (print (PrintWriteFailed filename) st)
        | Some d => Ok (print (PrintSaved filename) (mkStateA d (output st)))
        end)
  end.

Fixpoint process_channels (channelIDs : list string) (st : state_A) : run state_A :=
  match channelIDs with
  | [] => Ok st
  | channelID :: rest =>
      run_bind (process_channel channelID st) (λ st', process_channels rest st')
  end.

(** [main] of program A on [os.Args]. *)
Definition main_A (args : list string) (st : state_A) : run state_A :=
  match args with
  | [] | [_] => Ok (print PrintUsage st)
  | _ :: channelIDs => process_channels channelIDs st
  end.
End Fetcher.

(** ** Vocabulary of the other properties *)

(** The rule of the specification on three numbers. *)
Definition rule (totalProfit solBalance winRate : float64) : Prop :=
  (ge64 totalProfit c_1000000 = true ∧ ge64 solBalance c_20 = true
   ∧ ge64 winRate c_0_1 = true)
  ∨ (ge64 totalProfit c_10000 = true ∧ ge64 winRate c_0_755 = true).


(** The record program A writes for an entry, if it writes one. *)
Definition first_label (item : WalletEntry) : option WalletOutput :=
  match Entry_Labels item with
  | [] => None
  | label0 :: _ => Some (mkWalletOutput (Entry_Address item) label0)
  end.

Section FetcherSpec.
Context {net : Network}.

(** The file program A writes for a channel whose answer holds an element. *)
Definition channel_file (channelID : string) : string :=
  match fetchWalletData channelID with
  | inr (first :: _) => MarshalIndent_outputs (omap first_label (Result_Data_Json first))
  | _ => EmptyString
  end.
End FetcherSpec.

Section AnalyzerSpec.
Context {fmt : Fmt} {browser : Browser}.

(** The result of an address of a file, when it qualifies. *)
Definition fetched (item : AddressItem) : option Result :=
  match (FetchAndAnalyzeData (Item_Address item)).2 with
  | inr (Some result) => Some result
  | _ => None
  end.

(** The addresses of a file that qualify, in the order of the file. *)
Definition qualifying (addresses : list AddressItem) : list AddressItem :=
  filter (λ item, is_Some (fetched item)) addresses.

(** What the loop over the addresses does for one address. *)
Definition address_events (item : AddressItem) : list event :=
  (FetchAndAnalyzeData (Item_Address item)).1
  ++ match (FetchAndAnalyzeData (Item_Address item)).2 with
     | inl err => [Log (LogAddressFailed (Item_Address item) err)]
     | inr _ => []
     end
  ++ [Sleep 2].
End AnalyzerSpec.

Section RunSpec.
Context {fmt : Fmt} {browser : Browser} {dsk : Disk}.

(** The addresses a run over the files scrapes, in order: those of each
    file of the listing that is wanted and can be read when its turn
    comes. *)
Fixpoint scraped (files : list DirEntry) (st : state) : list string :=
  match files with
  | [] => []
  | file :: rest =>
      (if wanted file then
         match readAddressesFromFile (disk st) (Join "ad_json" (Name file)) with
         | inr addresses => Item_Address <$> addresses
         | inl _ => []
         end
       else [])
      ++ scraped rest (process_file file st)
  end.
End RunSpec.

(** A trace without its lines of log: the browser sessions and the pauses. *)
Fixpoint timing (tr : list event) : list event :=
  match tr with
  | [] => []
  | Log _ :: rest => timing rest
  | e :: rest => e :: timing rest
  end.

(** The round trip in the words of the specification: a list of records
    written as JSON to a [.json] file is read back by
    [readAddressesFromFile] as the same list. *)
Definition round_trip_as_specified (items : list AddressItem) : Prop :=
  ∀ (dsk : Disk) (d d' : gmap string string) (path : string),
    Ext path = ".json" →
    WriteFile d path (MarshalIndent_items items) = Some d' →
    readAddressesFromFile d' path = inr items.

(** Records whose two strings are well-formed UTF-8. *)
Definition valid_item (it : AddressItem) : Prop :=
  Json.ValidString (Item_Address it) = true ∧ Json.ValidString (Item_Label it) = true.

(** ** Sample inputs and worlds *)

Definition sample_results : list Result :=
  [ mkResult "A" "profit:20000.00,balance:1.00,winrate:0.800,name:first";
    mkResult "B" "profit:20000.00,balance:1.00,winrate:0.050,name:low";
    mkResult "A" "profit:30000.00,balance:2.00,winrate:0.900,name:second";
    mkResult "A" "profit:40000.00,balance:3.00,winrate:0.900,name:third" ].

(** A disk on which nothing fails, and one on which every write and every
    removal fails; [ad_json] lists three files and a directory. *)
Definition sample_listing : list DirEntry :=
  [ mkDirEntry "group.json" false; mkDirEntry "old" true; mkDirEntry "notes.txt" false;
    mkDirEntry "readme.md" false ].

Definition sound_disk : Disk :=
  {| WriteFile_fails := λ _ _, false;
     Remove_fails := λ _ _, false;
     MkdirAll_fails := λ _ _, false;
     ReadDir := λ _ dir, if String.eqb dir "ad_json" then Some sample_listing else None |}.



(** A browser that reaches four pages: [RICH] passes the first branch of
    the rule, [KEEN] the second, [POOR] none, the page of [ODD] is not
    JSON; every other address is out of reach. *)
Definition sample_page (totalProfit : Z) (solBalance winRate : string) (name : string)
  : AddrData :=
  mkAddrData (mkAddressInfo (I_float64 (float64_of_Z totalProfit)) (I_string solBalance)
                (I_string winRate) name).

Definition sample_browser : Browser :=
  {| chromedp_Run := λ _ url,
       if String.eqb url (apiURL "RICH") then Some "rich"
       else if String.eqb url (apiURL "KEEN") then Some "keen"
       else if String.eqb url (apiURL "POOR") then Some "poor"
       else if String.eqb url (apiURL "ODD") then Some "<html>"
       else None;
     Unmarshal_AddrData := λ text,
       if String.eqb text "rich" then Some (sample_page 2000000 "25.5" "0.2" "rich")
       else if String.eqb text "keen" then Some (sample_page 10000 "0" "0.755" "keen")
       else if String.eqb text "poor" then Some (sample_page 999999 "100" "0.7549" "poor")
       else None |}.

(** A network on which channel [one] answers with two entries, one of them
    without label, channel [none] answers with an empty list, the answer of
    [odd] is not JSON and every other channel is out of reach. *)
Definition sample_network : Network :=
  {| http_Get := λ url,
       if String.eqb url (channel_url "one") then Body "one"
       else if String.eqb url (channel_url "none") then Body "[]"
       else if String.eqb url (channel_url "odd") then Body "<html>"
       else RequestFails;
     Unmarshal_WalletItems := λ body,
       if String.eqb body "one"
       then Some [ mkWalletItem [ mkWalletEntry "W1" ["alpha"; "beta"];
                                  mkWalletEntry "W2" [];
                                  mkWalletEntry "W3" ["gamma"] ] ]
       else if String.eqb body "[]" then Some []
       else None |}.

(** The files of [ad_json] before a run, and the state at the start of the
    loop over them. *)
Definition sample_addresses : list AddressItem :=
  [ mkAddressItem "RICH" "whale"; mkAddressItem "POOR" "minnow";
    mkAddressItem "GONE" "ghost"; mkAddressItem "KEEN" "trader" ].

Definition sample_disk : gmap string string :=
  {[ "ad_json/group.json" := Json.MarshalIndent (pair_of_item <$> sample_addresses);
     "ad_json/notes.txt" := "address  label" +:+ Json.nl +:+ "POOR  small fish" +:+ Json.nl;
     "ad_json/broken.json" := "{" ]}.

Definition sample_state : state := mkState sample_disk [] [].

(** ** Vocabulary of the further properties *)

(** The six white space characters of ASCII. *)
Definition blank (c : ascii) : bool :=
  let b := Json.byte c in ((9 <=? b) && (b <=? 13) || (b =? 32))%N.

(** A text in which no white space character starts, read on its own. *)
Fixpoint spaceless (s : string) : bool :=
  match s with
  | EmptyString => true
  | String c r => Nat.eqb (space_width s) 0 && spaceless r
  end.

(** A record as a line of a text file gives it: the address is one field,
    the label is made of fields with one blank between them. *)
Definition txt_record (it : AddressItem) : Prop :=
  Fields (Item_Address it) = [Item_Address it]
  ∧ Fields (Item_Label it) ≠ []
  ∧ strings_Join (Fields (Item_Label it)) " " = Item_Label it.

(** The line written for a record, without its newline, and whether it
    fits the buffer of the scanner. *)
Definition written_line (it : AddressItem) : string :=
  Item_Address it +:+ "  " +:+ Item_Label it.

Definition fits (it : AddressItem) : Prop := too_long (written_line it) = false.

Section FurtherVocabulary.
Context {fmt : Fmt}.

(** A field of the page that gives no number: it is neither a number nor a
    string, or a string that [Sscanf] does not read. *)
Definition unreadable (field : interface) : Prop :=
  match field with
  | I_float64 _ => False
  | I_string v => Sscanf_f v = None
  | I_other => True
  end.

(** The line of log [deduplicateAndFilter] owes to a record, if any. *)
Definition winrate_failure (r : Result) : option log_entry :=
  match parse_winrate (Result_Label r) with
  | Ok None => Some (LogWinrateFailed (Result_Address r))
  | _ => None
  end.
End FurtherVocabulary.

(** The record the text output holds for a result: the label is the one
    the second pass found for the address, or else the label of the
    result. *)
Definition output_item (originalLabels : gmap string string) (r : Result) : AddressItem :=
  mkAddressItem (Result_Address r)
    (default (Result_Label r) (originalLabels !! Result_Address r)).

(** The records of the files of a listing that are wanted and can be read,
    in the order of the listing. *)
Definition listed_items (d : gmap string string) (files : list DirEntry)
  : list AddressItem :=
  flat_map (λ file,
    if wanted file then
      match readAddressesFromFile d (Join "ad_json" (Name file)) with
      | inr addresses => addresses
      | inl _ => []
      end
    else []) files.

(** The strings of a parsed value, at the places where the decoder of
    records takes them, are well-formed UTF-8. *)
Module JsonValues.
Definition str_ok (v : Json.value) : Prop :=
  match v with Json.Str s => Json.ValidString s = true | _ => True end.

Definition obj_ok (v : Json.value) : Prop :=
  match v with Json.Object members => Forall (λ kv, str_ok kv.2) members | _ => True end.

Definition arr_ok (v : Json.value) : Prop :=
  match v with Json.Array l => Forall obj_ok l | _ => True end.

Definition well_formed (v : Json.value) : Prop := str_ok v ∧ obj_ok v ∧ arr_ok v.
End JsonValues.

(** ** More sample inputs and worlds *)

(** A network on which channel [mute] answers with entries that have no
    label. *)
Definition quiet_network : Network :=
  {| http_Get := λ url, if String.eqb url (channel_url "mute") then Body "mute" else RequestFails;
     Unmarshal_WalletItems := λ body,
       if String.eqb body "mute"
       then Some [ mkWalletItem [ mkWalletEntry "W4" []; mkWalletEntry "W5" [] ] ]
       else None |}.

(** A browser that reaches four pages: the page of [BARE] gives no
    balance and a win-rate that is not a number, [GOOD] passes the second
    branch of the rule, [BEST] both, and [EDGE] the first with a win-rate
    just above 0.1. *)
Definition second_browser : Browser :=
  {| chromedp_Run := λ _ url,
       if String.eqb url (apiURL "BARE") then Some "bare"
       else if String.eqb url (apiURL "GOOD") then Some "good"
       else if String.eqb url (apiURL "BEST") then Some "best"
       else if String.eqb url (apiURL "EDGE") then Some "edge"
       else None;
     Unmarshal_AddrData := λ text,
       if String.eqb text "bare"
       then Some (mkAddrData (mkAddressInfo (I_float64 (float64_of_Z 5000000)) I_other
                                (I_string "n/a") "bare"))
       else if String.eqb text "good" then Some (sample_page 20000 "1" "0.8" "good")
       else if String.eqb text "best" then Some (sample_page 3000000 "30" "0.9" "best")
       else if String.eqb text "edge" then Some (sample_page 2000000 "25" "0.1004" "edge")
       else None |}.

(** A text file of [ad_json] with a title and three records, and a disk
    that holds it beside the results of an earlier run. *)
Definition sample_text : string :=
  "address  label" +:+ Json.nl +:+ "RICH  big   whale" +:+ Json.nl
  +:+ "POOR small" +:+ Json.nl +:+ "KEEN  sharp trader" +:+ Json.nl.

Definition text_listing : list DirEntry :=
  [ mkDirEntry "list.txt" false; mkDirEntry "group.json" false ].

Definition text_disk : Disk :=
  {| WriteFile_fails := λ _ _, false;
     Remove_fails := λ _ _, false;
     MkdirAll_fails := λ _ _, false;
     ReadDir := λ _ dir, if String.eqb dir "ad_json" then Some text_listing else None |}.

Definition earlier_disk : gmap string string :=
  {[ "ad_json/list.txt" := sample_text;
     "ad_json/group.json" := Json.MarshalIndent (pair_of_item <$> sample_addresses);
     "ad.json" := Json.MarshalIndent (pair_of_result <$> sample_results);
     "notes/todo.md" := "keep" ]}.

(** The part of a display name that comes before the first ["winrate:"]
    in it, the whole name when there is none. *)
Definition before_marker (name : string) : string :=
  match Cut name "winrate:" with
  | Some (a, _) => a
  | None => name
  end.

(** A text without the letter [w]. *)
Definition no_w (s : string) : Prop :=
  Forall (λ c, c ≠ "w"%char) (list_ascii_of_string s).

(** The results a run takes over from an earlier one: what [json.Unmarshal]
    stores from [ad.json], when the file can be read. *)
Definition earlier_results (d : gmap string string) : list Result :=
  match ReadFile d "ad.json" with
  | Some resultContent => result_of_pair <$> (Json.Unmarshal resultContent).1
  | None => []
  end.

(** * Properties *)

(** ** The order of float64 *)

Lemma SFcompare_refl_cases (a : float64) : SFcompare a a = Some Eq ∨ a = S754_nan.
Proof.
  destruct a as [s|s| |s m e]; simpl; auto; left; destruct s; try done.
  - by rewrite Z.compare_refl, Pos.compare_cont_refl.
  - by rewrite Z.compare_refl, Pos.compare_cont_refl.
Qed.

Lemma gt64_irrefl (a : float64) : gt64 a a = false.
Proof.
  unfold gt64, SFltb. destruct (SFcompare_refl_cases a) as [-> | ->]; done.
Qed.

Ltac cmp_cases :=
  repeat match goal with
  | |- context [Z.compare ?x ?y] => destruct (Z.compare_spec x y)
  | H : context [Z.compare ?x ?y] |- _ => destruct (Z.compare_spec x y)
  | |- context [Pos.compare_cont Eq ?x ?y] =>
      change (Pos.compare_cont Eq x y) with (Pos.compare x y);
      destruct (Pos.compare_spec x y)
  | H : context [Pos.compare_cont Eq ?x ?y] |- _ =>
      change (Pos.compare_cont Eq x y) with (Pos.compare x y) in H;
      destruct (Pos.compare_spec x y)
  end.

Lemma SFltb_trans (a b c : float64) :
  SFltb a b = true → SFltb b c = true → SFltb a c = true.
Proof.
  unfold SFltb.
  destruct a as [sa|sa| |sa ma ea], b as [sb|sb| |sb mb eb], c as [sc|sc| |sc mc ec];
    simpl; try done;
    repeat match goal with s : bool |- _ => destruct s end; simpl; try done;
    cmp_cases; simpl; try done; try lia.
Qed.

Lemma SFleb_of_not_ltb (a b : float64) :
  is_nan a = false → is_nan b = false → SFltb b a = false → SFleb a b = true.
Proof.
  unfold SFltb, SFleb.
  destruct a as [sa|sa| |sa ma ea], b as [sb|sb| |sb mb eb];
    simpl; try done;
    repeat match goal with s : bool |- _ => destruct s end; simpl; try done;
    cmp_cases; simpl; try done; try lia.
Qed.

Lemma SFleb_ltb_trans (a b c : float64) :
  SFleb a b = true → SFltb b c = true → SFltb a c = true.
Proof.
  unfold SFltb, SFleb.
  destruct a as [sa|sa| |sa ma ea], b as [sb|sb| |sb mb eb], c as [sc|sc| |sc mc ec];
    simpl; try done;
    repeat match goal with s : bool |- _ => destruct s end; simpl; try done;
    cmp_cases; simpl; try done; try lia.
Qed.

Lemma SFltb_not_nan (a b : float64) : SFltb a b = true → is_nan a = false ∧ is_nan b = false.
Proof. unfold SFltb. destruct a, b; simpl; try done. Qed.

Lemma SFltb_leb_false (a b : float64) : SFltb a b = true → SFleb b a = false.
Proof.
  unfold SFltb, SFleb.
  destruct a as [sa|sa| |sa ma ea], b as [sb|sb| |sb mb eb];
    simpl; try done;
    repeat match goal with s : bool |- _ => destruct s end; simpl; try done;
    cmp_cases; simpl; try done; try lia.
Qed.

(** ** strings.Split *)

Lemma Cut_Contains (s sep : string) : Contains s sep = true ↔ is_Some (Cut s sep).
Proof.
  unfold Contains. destruct (Cut s sep) as [p|]; split; intros Hc; eauto.
  - done.
  - by destruct Hc.
Qed.

Lemma split_loop_nonempty (n : nat) (s sep : string) : split_loop n s sep ≠ [].
Proof. destruct n; simpl; [done|]. by destruct (Cut s sep) as [[a b]|]. Qed.

(** Element 1 of the split exists exactly when the separator occurs. *)
Lemma Split_index_1 (s sep : string) :
  sep ≠ EmptyString →
  (Contains s sep = true → ∃ t, index (Split s sep) 1 = Ok t)
  ∧ (Contains s sep = false → index (Split s sep) 1 = Panic).
Proof.
  intros Hsep. unfold Split, Contains, index.
  destruct sep as [|c sep']; [done|].
  destruct s as [|d s'].
  - simpl. split; [done|]. done.
  - cbn [String.length split_loop].
    destruct (Cut (String d s') (String c sep')) as [[a b]|]; split; try done.
    intros _. simpl.
    pose proof (split_loop_nonempty (String.length s') b (String c sep')) as Hne.
    destruct (split_loop (String.length s') b (String c sep')) as [|t l]; [done|].
    by exists t.
Qed.

Lemma string_drop_length (n : nat) (s : string) :
  (String.length (string_drop n s) ≤ String.length s)%nat.
Proof.
  revert s. induction n as [|n IH]; intros s; [done|].
  destruct s as [|c s]; [done|]. simpl. specialize (IH s). lia.
Qed.

(** More rounds than the length of the text change nothing. *)
Lemma Cut_shorter (s sep a b : string) :
  sep ≠ EmptyString → Cut s sep = Some (a, b) →
  (String.length b < String.length s)%nat.
Proof.
  intros Hsep. revert a b. induction s as [|c s IH]; intros a b.
  - destruct sep; [done|]. simpl. done.
  - cbn [Cut]. destruct (HasPrefix (String c s) sep) eqn:Hp.
    + intros [= <- <-]. destruct sep as [|d sep']; [done|].
      cbn [String.length string_drop].
      pose proof (string_drop_length (String.length sep') s). lia.
    + destruct (Cut s sep) as [[a' b']|] eqn:Hc; [|done].
      intros [= <- <-]. specialize (IH a' b' eq_refl). simpl. lia.
Qed.

Lemma split_loop_enough (n : nat) (s sep : string) :
  sep ≠ EmptyString → (String.length s ≤ n)%nat →
  split_loop n s sep = split_loop (String.length s) s sep.
Proof.
  intros Hsep. revert s.
  induction n as [n IH] using lt_wf_ind. intros s Hn.
  destruct n as [|n].
  { destruct s; [done|simpl in Hn; lia]. }
  destruct s as [|c s].
  { simpl. destruct sep; [done|]. done. }
  cbn [split_loop String.length].
  destruct (Cut (String c s) sep) as [[a b]|] eqn:Hc; [|done].
  pose proof (Cut_shorter _ _ _ _ Hsep Hc) as Hb. simpl in Hb, Hn.
  rewrite (IH n); [|lia|lia]. rewrite (IH (String.length s)); [done|lia|lia].
Qed.

Section DedupProofs.
Context {fmt : Fmt}.

Lemma parse_winrate_ok (label : string) :
  Contains label "winrate:" = true → ∃ p, parse_winrate label = Ok p.
Proof.
  intros Hc. unfold parse_winrate.
  destruct (Split_index_1 label "winrate:") as [Hok _]; [done|].
  destruct (Hok Hc) as [t ->]. by eexists.
Qed.

Lemma parse_winrate_panic (label : string) :
  Contains label "winrate:" = false → parse_winrate label = Panic.
Proof.
  intros Hc. unfold parse_winrate.
  destruct (Split_index_1 label "winrate:") as [_ Hp]; [done|].
  by rewrite (Hp Hc).
Qed.

Lemma scanned_fun (r : Result) (w w' : float64) : scanned r w → scanned r w' → w = w'.
Proof. unfold scanned. congruence. Qed.

Lemma candidate_fun (r : Result) (w w' : float64) : candidate r w → candidate r w' → w = w'.
Proof. intros [? _] [? _]. by eapply scanned_fun. Qed.

Lemma map_ok_empty : map_ok ∅.
Proof. intros a r Hl. by rewrite lookup_empty in Hl. Qed.

Lemma map_ok_insert (m : gmap string Result) (y : Result) (w : float64) :
  map_ok m → candidate y w → map_ok (<[Result_Address y := y]> m).
Proof.
  intros Hm Hy a r Hl. destruct (decide (Result_Address y = a)) as [<-|Hne].
  - rewrite lookup_insert_eq in Hl. injection Hl as <-. eauto.
  - rewrite lookup_insert_ne in Hl by done. by apply Hm.
Qed.

(** What one round does to the map. *)
Lemma dedup_step_cases (m m1 : gmap string Result) (y : Result) (new : list log_entry) :
  map_ok m → dedup_step m y = Ok (m1, new) →
  (m1 = m ∧ ∀ w, candidate y w →
     ∃ e we, m !! Result_Address y = Some e ∧ candidate e we ∧ gt64 w we = false)
  ∨ (m1 = <[Result_Address y := y]> m ∧ ∃ w, candidate y w ∧
     ∀ e we, m !! Result_Address y = Some e → candidate e we → gt64 w we = true).
Proof.
  intros Hm. unfold dedup_step.
  destruct (parse_winrate (Result_Label y)) as [[w|]|] eqn:Hy; simpl; [| |done].
  - destruct (le64 w c_0_1) eqn:Hle.
    + intros [= <- <-]. left. split; [done|]. intros w' [Hs Hw'].
      rewrite (scanned_fun y w' w Hs Hy) in Hw'. congruence.
    + destruct (m !! Result_Address y) as [e|] eqn:He.
      * destruct (Hm _ _ He) as [_ [we [Hse Hwe]]].
        unfold scanned in Hse. rewrite Hse. simpl.
        destruct (gt64 w we) eqn:Hgt; intros [= <- <-].
        -- right. split; [done|]. exists w. split; [done|].
           intros e' we' [= <-] Hc'.
           by rewrite (candidate_fun e we' we Hc' (conj Hse Hwe)).
        -- left. split; [done|]. intros w' Hc'.
           rewrite (candidate_fun y w' w Hc' (conj Hy Hle)).
           exists e, we. done.
      * intros [= <- <-]. right. split; [done|]. exists w. split; [done|]. done.
  - intros [= <- <-]. left. split; [done|]. intros w' [Hs _].
    unfold scanned in Hs. congruence.
Qed.

Lemma dedup_step_map_ok (m m1 : gmap string Result) (y : Result) (new : list log_entry) :
  map_ok m → dedup_step m y = Ok (m1, new) → map_ok m1.
Proof.
  intros Hm Hs. destruct (dedup_step_cases m m1 y new Hm Hs) as [[-> _]|[-> [w [Hc _]]]]; [done|].
  by eapply map_ok_insert.
Qed.

Lemma dedup_loop_map_ok (l : list Result) (m m' : gmap string Result)
    (lines lines' : list log_entry) :
  map_ok m → dedup_loop m l lines = Ok (m', lines') → map_ok m'.
Proof.
  revert m lines. induction l as [|y l IH]; intros m lines Hm; simpl.
  - by intros [= <- <-].
  - destruct (dedup_step m y) as [[m1 new]|] eqn:Hs; simpl; [|done].
    intros Hl. eapply IH; [|done]. by eapply dedup_step_map_ok.
Qed.


Lemma dedup_step_total (m : gmap string Result) (y : Result) :
  labelled m → Contains (Result_Label y) "winrate:" = true →
  ∃ m1 new, dedup_step m y = Ok (m1, new) ∧ labelled m1.
Proof.
  intros Hm Hy. unfold dedup_step.
  destruct (parse_winrate_ok _ Hy) as [p ->]. simpl.
  assert (Hins : labelled (<[Result_Address y := y]> m)).
  { intros a r Hl. destruct (decide (Result_Address y = a)) as [<-|Hne].
    - rewrite lookup_insert_eq in Hl. by injection Hl as <-.
    - rewrite lookup_insert_ne in Hl by done. by eapply Hm. }
  destruct p as [w|]; [|by eauto].
  destruct (le64 w c_0_1); [by eauto|].
  destruct (m !! Result_Address y) as [e|] eqn:He; [|by eauto].
  destruct (parse_winrate_ok _ (Hm _ _ He)) as [q ->]. simpl.
  destruct q as [we|]; [|by eauto].
  destruct (gt64 w we); eauto.
Qed.

Lemma dedup_loop_total (l : list Result) (m : gmap string Result) (lines : list log_entry) :
  labelled m → Forall (λ r, Contains (Result_Label r) "winrate:" = true) l →
  ∃ m' lines', dedup_loop m l lines = Ok (m', lines').
Proof.
  revert m lines. induction l as [|y l IH]; intros m lines Hm Hl; simpl; [by eauto|].
  inversion Hl as [|? ? Hy Hl']; subst.
  destruct (dedup_step_total m y Hm Hy) as (m1 & new & -> & Hm1). simpl. by apply IH.
Qed.

Lemma dedup_step_panic (m : gmap string Result) (y : Result) :
  Contains (Result_Label y) "winrate:" = false → dedup_step m y = Panic.
Proof. intros Hy. unfold dedup_step. by rewrite (parse_winrate_panic _ Hy). Qed.

Lemma dedup_loop_panic (l : list Result) (m : gmap string Result) (lines : list log_entry) :
  Exists (λ r, Contains (Result_Label r) "winrate:" = false) l →
  dedup_loop m l lines = Panic.
Proof.
  revert m lines. induction l as [|y l IH]; intros m lines Hex; [by inversion Hex|].
  simpl. destruct (Contains (Result_Label y) "winrate:") eqn:Hy.
  - inversion Hex as [? ? Hy'|? ? Hex']; subst; [congruence|].
    destruct (dedup_step m y) as [[m1 new]|]; simpl; [|done]. by apply IH.
  - by rewrite (dedup_step_panic m y Hy).
Qed.

Lemma dedup_loop_dom (l : list Result) (m m' : gmap string Result)
    (lines lines' : list log_entry) :
  map_ok m → dedup_loop m l lines = Ok (m', lines') →
  ∀ a, is_Some (m' !! a) ↔
       is_Some (m !! a) ∨ ∃ x w, x ∈ l ∧ Result_Address x = a ∧ candidate x w.
Proof.
  revert m lines. induction l as [|y l IH]; intros m lines Hm; simpl.
  - intros [= <- <-] a. split; [by left|]. intros [?|(x & w & Hx & _)]; [done|].
    by apply elem_of_nil in Hx.
  - destruct (dedup_step m y) as [[m1 new]|] eqn:Hs; simpl; [|done].
    intros Hl a. rewrite (IH m1 _ (dedup_step_map_ok _ _ _ _ Hm Hs) Hl a).
    destruct (dedup_step_cases m m1 y new Hm Hs) as [[-> Hy]|[-> (wy & Hcy & _)]].
    + split.
      * intros [?|(x & w & Hx & Ha & Hc)]; [by left|].
        right. exists x, w. split; [by apply elem_of_cons; right|done].
      * intros [?|(x & w & Hx & Ha & Hc)]; [by left|].
        apply elem_of_cons in Hx as [->|Hx].
        -- left. destruct (Hy w Hc) as (e & we & He & _). subst a. by rewrite He.
        -- right. by exists x, w.
    + split.
      * intros [Hi|(x & w & Hx & Ha & Hc)].
        -- destruct (decide (Result_Address y = a)) as [<-|Hne].
           ++ right. exists y, wy. split; [by apply elem_of_cons; left|done].
           ++ rewrite lookup_insert_ne in Hi by done. by left.
        -- right. exists x, w. split; [by apply elem_of_cons; right|done].
      * intros [Hi|(x & w & Hx & Ha & Hc)].
        -- left. destruct (decide (Result_Address y = a)) as [<-|Hne].
           ++ by rewrite lookup_insert_eq.
           ++ by rewrite lookup_insert_ne.
        -- apply elem_of_cons in Hx as [->|Hx].
           ++ left. subst a. by rewrite lookup_insert_eq.
           ++ right. by exists x, w.
Qed.

(** The record the loop leaves for an address: either the one the map
    held before, which no later candidate beat, or the first of the
    candidates with the greatest win-rate. *)
Lemma dedup_loop_kept (l : list Result) (m m' : gmap string Result)
    (lines lines' : list log_entry) :
  map_ok m → dedup_loop m l lines = Ok (m', lines') →
  ∀ a k, m' !! a = Some k →
    ∃ wk, candidate k wk ∧ Result_Address k = a ∧
      ((m !! a = Some k ∧
        ∀ x w, x ∈ l → Result_Address x = a → candidate x w → gt64 w wk = false)
       ∨ (∃ l1 l2, l = l1 ++ k :: l2 ∧ first_best l1 k wk l2 ∧
            ∀ e we, m !! a = Some e → candidate e we → gt64 wk we = true)).
Proof.
  revert m lines. induction l as [|y l IH]; intros m lines Hm; simpl.
  - intros [= <- <-] a k Hk. destruct (Hm _ _ Hk) as [Ha [wk Hc]].
    exists wk. split; [done|]. split; [done|]. left. split; [done|].
    intros x w Hx. by apply elem_of_nil in Hx.
  - destruct (dedup_step m y) as [[m1 new]|] eqn:Hs; simpl; [|done].
    intros Hl a k Hk.
    pose proof (dedup_step_map_ok _ _ _ _ Hm Hs) as Hm1.
    destruct (IH m1 _ Hm1 Hl a k Hk) as (wk & Hck & Hak & Hcase).
    exists wk. split; [done|]. split; [done|].
    destruct (dedup_step_cases m m1 y new Hm Hs) as [[-> Hy]|[-> (wy & Hcy & Hbeat)]].
    + (* the round left the map as it was *)
      destruct Hcase as [[Hmk Hlater]|(l1 & l2 & -> & [Hb Ha] & Hold)].
      * left. split; [done|]. intros x w Hx Hxa Hcx.
        apply elem_of_cons in Hx as [->|Hx]; [|by eapply Hlater].
        destruct (Hy w Hcx) as (e & we & He & Hce & Hgt).
        rewrite Hxa, Hmk in He. injection He as <-.
        by rewrite (candidate_fun k wk we Hck Hce).
      * right. exists (y :: l1), l2. split; [done|]. split; [|done].
        split; [|done]. intros x w Hx Hxa Hcx.
        apply elem_of_cons in Hx as [->|Hx]; [|by eapply Hb].
        destruct (Hy w Hcx) as (e & we & He & Hce & Hgt).
        rewrite Hxa, Hak in He. pose proof (Hold e we He Hce) as Hkw.
        unfold gt64 in *. split.
        -- destruct (SFltb wk w) eqn:Hwk; [|done].
           by rewrite (SFltb_trans we wk w Hkw Hwk) in Hgt.
        -- intros Hnan. destruct (SFltb_not_nan we wk Hkw) as [Hne _].
           eapply SFleb_ltb_trans; [|exact Hkw]. by apply SFleb_of_not_ltb.
    + (* the round stored [y] *)
      destruct (decide (Result_Address y = a)) as [Hya|Hne].
      * destruct Hcase as [[Hmk Hlater]|(l1 & l2 & -> & [Hb Ha] & Hold)].
        -- rewrite <- Hya, lookup_insert_eq in Hmk. injection Hmk as ->.
           right. exists [], l. split; [done|].
           rewrite (candidate_fun k wy wk Hcy Hck) in Hbeat.
           split; [|by rewrite Hya in Hbeat].
           split.
           ++ intros x w Hx. by apply elem_of_nil in Hx.
           ++ intros x w Hx Hxa. apply Hlater; [done|]. by rewrite Hxa.
        -- right. exists (y :: l1), l2. split; [done|].
           assert (Hkw : gt64 wk wy = true).
           { eapply Hold; [|done]. by rewrite <- Hya, lookup_insert_eq. }
           split.
           ++ split; [|done]. intros x w Hx Hxa Hcx.
              apply elem_of_cons in Hx as [->|Hx]; [|by eapply Hb].
              rewrite (candidate_fun y w wy Hcx Hcy). unfold gt64 in *. split.
              ** destruct (SFltb wk wy) eqn:Hwk; [|done].
                 pose proof (SFltb_trans _ _ _ Hkw Hwk) as Hww.
                 pose proof (gt64_irrefl wy) as Hirr. unfold gt64 in Hirr. congruence.
              ** done.
           ++ intros e we He Hce. unfold gt64 in *.
              eapply SFltb_trans; [|exact Hkw]. rewrite <- Hya in He.
              by apply (Hbeat e we).
      * destruct Hcase as [[Hmk Hlater]|(l1 & l2 & -> & [Hb Ha] & Hold)].
        -- rewrite lookup_insert_ne in Hmk by done. left. split; [done|].
           intros x w Hx Hxa Hcx.
           apply elem_of_cons in Hx as [->|Hx]; [done|by eapply Hlater].
        -- right. exists (y :: l1), l2. split; [done|]. split.
           ++ split; [|done]. intros x w Hx Hxa Hcx.
              apply elem_of_cons in Hx as [->|Hx]; [congruence|by eapply Hb].
           ++ intros e we He. apply Hold. by rewrite lookup_insert_ne.
Qed.

Lemma map_ok_addresses (m : gmap string Result) :
  map_ok m → Result_Address <$> (map_to_list m).*2 = (map_to_list m).*1.
Proof.
  intros Hm. rewrite <- list_fmap_compose. apply list_fmap_ext.
  intros i [a r] Hi. simpl.
  apply list_elem_of_lookup_2, elem_of_map_to_list in Hi. by destruct (Hm _ _ Hi).
Qed.

Lemma dedup_output (results out : list Result) (lines : list log_entry) :
  deduplicateAndFilter results = Ok (out, lines) →
  ∃ m, dedup_loop ∅ results [] = Ok (m, lines) ∧ map_ok m ∧ out = (map_to_list m).*2
       ∧ ∀ k, k ∈ out ↔ m !! Result_Address k = Some k.
Proof.
  unfold deduplicateAndFilter.
  destruct (dedup_loop ∅ results []) as [[m lines0]|] eqn:Hl; simpl; [|done].
  intros [= <- <-]. exists m.
  pose proof (dedup_loop_map_ok _ _ _ _ _ map_ok_empty Hl) as Hm.
  do 3 (split; [done|]). intros k. rewrite list_elem_of_fmap. split.
  - intros [[a r] [-> Hin]]. simpl. apply elem_of_map_to_list in Hin.
    by destruct (Hm _ _ Hin) as [-> _].
  - intros Hk. exists (Result_Address k, k). split; [done|].
    by apply elem_of_map_to_list.
Qed.

(** The record kept for an address, seen from the whole input. *)
Lemma dedup_kept_position (results out : list Result) (lines : list log_entry)
    (k : Result) :
  deduplicateAndFilter results = Ok (out, lines) → k ∈ out →
  ∃ wk l1 l2, results = l1 ++ k :: l2 ∧ candidate k wk ∧ first_best l1 k wk l2.
Proof.
  intros Hd Hk. destruct (dedup_output _ _ _ Hd) as (m & Hl & Hm & -> & Hin).
  apply Hin in Hk.
  destruct (dedup_loop_kept _ _ _ _ _ map_ok_empty Hl _ _ Hk)
    as (wk & Hck & _ & [[He _]|(l1 & l2 & -> & Hfb & _)]).
  - by rewrite lookup_empty in He.
  - by exists wk, l1, l2.
Qed.
End DedupProofs.

Lemma SFeqb_not_ltb (a b : float64) :
  SFeqb a b = true → is_nan a = false ∧ SFltb a b = false.
Proof.
  unfold SFeqb, SFltb. destruct (SFcompare a b) as [[]|] eqn:Hc; try done.
  intros _. split; [|done]. by destruct a.
Qed.

Section DedupClaims.
Context {fmt : Fmt}.

(** C2 (amended). On every input whose labels all contain ["winrate:"],
    [deduplicateAndFilter] returns, and its output holds at most one
    record per address; an address has a record there exactly when one of
    its entries is a candidate (its win-rate is read and is not [<= 0.1]);
    the record is an input record and a candidate, no candidate of its
    address has a strictly greater win-rate, and it has the greatest one
    whenever the win-rates compared are numbers; no record whose win-rate
    is [<= 0.1] is in the output. *)
Theorem dedup_keeps_best (results : list Result) :
  Forall (λ r, Contains (Result_Label r) "winrate:" = true) results →
  ∃ out lines, deduplicateAndFilter results = Ok (out, lines)
    ∧ NoDup (Result_Address <$> out)
    ∧ (∀ a, a ∈ Result_Address <$> out ↔
            ∃ x w, x ∈ results ∧ Result_Address x = a ∧ candidate x w)
    ∧ (∀ k, k ∈ out →
         k ∈ results ∧ ∃ wk, candidate k wk ∧
           ∀ x w, x ∈ results → Result_Address x = Result_Address k → candidate x w →
             gt64 w wk = false
             ∧ (is_nan w = false → is_nan wk = false → le64 w wk = true))
    ∧ (∀ x w, x ∈ results → scanned x w → le64 w c_0_1 = true → x ∉ out).
Proof.
  intros Hlab.
  destruct (dedup_loop_total results ∅ []) as (m & lines & Hl); [|done|].
  { intros a r Hr. by rewrite lookup_empty in Hr. }
  assert (Hd : deduplicateAndFilter results = Ok ((map_to_list m).*2, lines)).
  { unfold deduplicateAndFilter. by rewrite Hl. }
  exists ((map_to_list m).*2), lines. split; [done|].
  destruct (dedup_output _ _ _ Hd) as (m0 & Hl0 & Hm & _ & Hin).
  assert (m0 = m) as -> by congruence.
  assert (Hkept : ∀ k, k ∈ (map_to_list m).*2 →
    k ∈ results ∧ ∃ wk, candidate k wk ∧
      ∀ x w, x ∈ results → Result_Address x = Result_Address k → candidate x w →
        gt64 w wk = false ∧ (is_nan w = false → is_nan wk = false → le64 w wk = true)).
  { intros k Hk.
    destruct (dedup_kept_position _ _ _ _ Hd Hk) as (wk & l1 & l2 & -> & Hck & [Hb Ha]).
    split; [apply elem_of_app; right; apply elem_of_cons; by left|].
    exists wk. split; [done|]. intros x w Hx Hxa Hcx.
    assert (Hgt : gt64 w wk = false).
    { apply elem_of_app in Hx as [Hx|Hx]; [by destruct (Hb x w Hx Hxa Hcx)|].
      apply elem_of_cons in Hx as [->|Hx]; [|by eapply Ha].
      rewrite (candidate_fun k w wk Hcx Hck). apply gt64_irrefl. }
    split; [done|]. intros Hnw Hnk. by apply SFleb_of_not_ltb. }
  split; [|split; [|split; [done|]]].
  - rewrite (map_ok_addresses m Hm). apply NoDup_fst_map_to_list.
  - intros a. rewrite (map_ok_addresses m Hm).
    pose proof (dedup_loop_dom _ _ _ _ _ map_ok_empty Hl a) as Hdom.
    rewrite list_elem_of_fmap. split.
    + intros [[a' r] [-> Hr]]. apply elem_of_map_to_list in Hr. simpl in *.
      destruct (proj1 Hdom) as [[e He]|Hx]; [by rewrite Hr| |done].
      by rewrite lookup_empty in He.
    + intros Hx. destruct (proj2 Hdom (or_intror Hx)) as [r Hr].
      exists (a, r). split; [done|]. by apply elem_of_map_to_list.
  - intros x w Hx Hs Hle Hout.
    destruct (Hkept x Hout) as [_ (wk & [Hs' Hle'] & _)].
    rewrite (scanned_fun x w wk Hs Hs') in Hle. congruence.
Qed.

(** C9. Element 1 of the split of a label on ["winrate:"] exists exactly
    when the label contains that text. With the text in every label of
    the input, [deduplicateAndFilter] returns; with a label that lacks
    it, the unguarded index is out of range and the function panics. *)
Theorem dedup_split_index_unguarded :
  (∀ label, Contains label "winrate:" = true →
     ∃ t, index (Split label "winrate:") 1 = Ok t)
  ∧ (∀ label, Contains label "winrate:" = false →
     index (Split label "winrate:") 1 = Panic)
  ∧ (∀ results, Forall (λ r, Contains (Result_Label r) "winrate:" = true) results →
     ∃ out lines, deduplicateAndFilter results = Ok (out, lines))
  ∧ (∀ results, Exists (λ r, Contains (Result_Label r) "winrate:" = false) results →
     deduplicateAndFilter results = Panic).
Proof.
  split; [|split; [|split]].
  - intros label. by apply (Split_index_1 label "winrate:").
  - intros label. by apply (Split_index_1 label "winrate:").
  - intros results Hlab.
    destruct (dedup_loop_total results ∅ []) as (m & lines & Hl); [|done|].
    { intros a r Hr. by rewrite lookup_empty in Hr. }
    exists ((map_to_list m).*2), lines. unfold deduplicateAndFilter. by rewrite Hl.
  - intros results Hex. unfold deduplicateAndFilter.
    by rewrite (dedup_loop_panic results ∅ [] Hex).
Qed.

(** C10. A round replaces the record stored for an address only by a
    record with a strictly greater win-rate; so the record in the output
    stands in the input after no candidate of its address with an equal
    or greater win-rate, and before none with a strictly greater one: of
    records with equal win-rates the first one is retained. *)
Theorem dedup_tie_keeps_first :
  (∀ (m m1 : gmap string Result) (new : list log_entry) (y e : Result),
     m !! Result_Address y = Some e → dedup_step m y = Ok (m1, new) → m1 ≠ m →
     m1 = <[Result_Address y := y]> m
     ∧ ∃ w we, scanned y w ∧ scanned e we ∧ gt64 w we = true)
  ∧ (∀ (results out : list Result) (lines : list log_entry) (k : Result),
       deduplicateAndFilter results = Ok (out, lines) → k ∈ out →
       ∃ wk l1 l2, results = l1 ++ k :: l2 ∧ candidate k wk
         ∧ (∀ x w, x ∈ l1 → Result_Address x = Result_Address k → candidate x w →
              SFeqb w wk = false ∧ gt64 w wk = false)
         ∧ (∀ x w, x ∈ l2 → Result_Address x = Result_Address k → candidate x w →
              gt64 w wk = false)).
Proof.
  split.
  - intros m m1 new y e He. unfold dedup_step.
    destruct (parse_winrate (Result_Label y)) as [[w|]|] eqn:Hy; simpl; [| |done].
    + destruct (le64 w c_0_1); [by intros [= <- <-]|]. rewrite He.
      destruct (parse_winrate (Result_Label e)) as [[we|]|] eqn:Hwe; simpl; [| |done].
      * destruct (gt64 w we) eqn:Hgt; [|by intros [= <- <-]].
        intros [= <- <-] _. split; [done|]. by exists w, we.
      * by intros [= <- <-].
    + by intros [= <- <-].
  - intros results out lines k Hd Hk.
    destruct (dedup_kept_position _ _ _ _ Hd Hk) as (wk & l1 & l2 & -> & Hck & [Hb Ha]).
    exists wk, l1, l2. do 2 (split; [done|]). split; [|done].
    intros x w Hx Hxa Hcx. destruct (Hb x w Hx Hxa Hcx) as [Hgt Hlt].
    split; [|done]. destruct (SFeqb w wk) eqn:Heq; [|done].
    destruct (SFeqb_not_ltb _ _ Heq) as [Hn Hnlt]. rewrite (Hlt Hn) in Hnlt. done.
Qed.
End DedupClaims.

(** ** The deduplication on concrete inputs *)

Example sample_dedup :
  deduplicateAndFilter (fmt := GoFmt.go_fmt) sample_results
  = Ok ([ mkResult "A" "profit:30000.00,balance:2.00,winrate:0.900,name:second" ], []).
Proof. vm_compute. reflexivity. Qed.

Lemma dedup_keeps_best_witness :
  Forall (λ r, Contains (Result_Label r) "winrate:" = true) sample_results
  ∧ ∃ out lines,
      deduplicateAndFilter (fmt := GoFmt.go_fmt) sample_results = Ok (out, lines)
      ∧ NoDup (Result_Address <$> out)
      ∧ (∀ a, a ∈ Result_Address <$> out ↔
              ∃ x w, x ∈ sample_results ∧ Result_Address x = a
                     ∧ candidate (fmt := GoFmt.go_fmt) x w)
      ∧ (∀ k, k ∈ out →
           k ∈ sample_results ∧ ∃ wk, candidate (fmt := GoFmt.go_fmt) k wk ∧
             ∀ x w, x ∈ sample_results → Result_Address x = Result_Address k →
               candidate (fmt := GoFmt.go_fmt) x w →
               gt64 w wk = false
               ∧ (is_nan w = false → is_nan wk = false → le64 w wk = true))
      ∧ (∀ x w, x ∈ sample_results → scanned (fmt := GoFmt.go_fmt) x w →
           le64 w c_0_1 = true → x ∉ out).
Proof.
  assert (Hlab : Forall (λ r, Contains (Result_Label r) "winrate:" = true) sample_results)
    by (repeat constructor).
  split; [exact Hlab|]. exact (dedup_keeps_best (fmt := GoFmt.go_fmt) sample_results Hlab).
Defined.

(** The property as specified fails when an address has only records at or
    below 0.1 (no record is kept for it), and when a record whose win-rate
    reads as NaN comes first (it is kept, whatever follows). *)
Lemma dedup_as_specified_fails :
  ¬ dedup_as_specified (fmt := GoFmt.go_fmt)
      [ mkResult "B" "profit:20000.00,balance:1.00,winrate:0.050,name:low" ]
  ∧ ¬ dedup_as_specified (fmt := GoFmt.go_fmt)
      [ mkResult "C" "profit:20000.00,balance:1.00,winrate:NaN,name:none";
        mkResult "C" "profit:20000.00,balance:1.00,winrate:0.900,name:high" ].
Proof.
  split.
  - intros (out & lines & Hd & Hone & _). vm_compute in Hd. injection Hd as <- <-.
    destruct (Hone "B") as (k & Hk & _); [by apply list_elem_of_here|].
    vm_compute in Hk. done.
  - intros (out & lines & Hd & Hone & _). vm_compute in Hd. injection Hd as <- <-.
    destruct (Hone "C") as (k & Hk & _ & Hmax); [by apply list_elem_of_here|].
    vm_compute in Hk. injection Hk as <-.
    specialize (Hmax (mkResult "C" "profit:20000.00,balance:1.00,winrate:0.900,name:high")
      (float64_of_decimal false 9 (-1)) S754_nan).
    assert (Hf : le64 (float64_of_decimal false 9 (-1)) S754_nan = true).
    { apply Hmax;
        [apply list_elem_of_further, list_elem_of_here | reflexivity
        | vm_compute; reflexivity | vm_compute; reflexivity]. }
    vm_compute in Hf. done.
Qed.

Lemma dedup_split_index_unguarded_witness :
  (∃ t, index (Split "profit:1.00,balance:2.00,winrate:0.900,name:x" "winrate:") 1 = Ok t)
  ∧ index (Split "imported label" "winrate:") 1 = Panic
  ∧ (∃ out lines,
       deduplicateAndFilter (fmt := GoFmt.go_fmt) sample_results = Ok (out, lines))
  ∧ deduplicateAndFilter (fmt := GoFmt.go_fmt)
      (sample_results ++ [mkResult "D" "imported label"]) = Panic.
Proof.
  destruct (dedup_split_index_unguarded (fmt := GoFmt.go_fmt)) as (H1 & H2 & H3 & H4).
  split; [|split; [|split]].
  - apply H1. reflexivity.
  - apply H2. reflexivity.
  - apply H3. repeat constructor.
  - apply H4. do 4 apply Exists_cons_tl. apply Exists_cons_hd. reflexivity.
Defined.

(** A label brought in by an older [ad.json] stops the whole run. *)
Example sample_imported_label :
  processAddressFiles (fmt := GoFmt.go_fmt) (browser := sample_browser) (dsk := sound_disk)
    {[ "ad.json" := MarshalIndent_results [mkResult "D" "imported label"] ]}
  = Panic.
Proof. vm_compute. reflexivity. Qed.

Lemma dedup_tie_keeps_first_witness :
  ∃ wk l1 l2,
    sample_results
    = l1 ++ mkResult "A" "profit:30000.00,balance:2.00,winrate:0.900,name:second" :: l2
    ∧ candidate (fmt := GoFmt.go_fmt)
        (mkResult "A" "profit:30000.00,balance:2.00,winrate:0.900,name:second") wk
    ∧ (∀ x w, x ∈ l1 → Result_Address x = "A" → candidate (fmt := GoFmt.go_fmt) x w →
         SFeqb w wk = false ∧ gt64 w wk = false)
    ∧ (∀ x w, x ∈ l2 → Result_Address x = "A" → candidate (fmt := GoFmt.go_fmt) x w →
         gt64 w wk = false).
Proof.
  apply (proj2 (dedup_tie_keeps_first (fmt := GoFmt.go_fmt)) sample_results
           [mkResult "A" "profit:30000.00,balance:2.00,winrate:0.900,name:second"] []).
  - vm_compute. reflexivity.
  - apply list_elem_of_here.
Defined.

(** ** The qualification rule *)

Example constants :
  c_1000000 = S754_finite false 8589934592000000 (-33)
  ∧ c_20 = S754_finite false 5629499534213120 (-48)
  ∧ c_10000 = S754_finite false 5497558138880000 (-39)
  ∧ c_0_1 = S754_finite false 7205759403792794 (-56)
  ∧ c_0_755 = S754_finite false 6800435437329449 (-53)
  ∧ GoFmt.go_Sscanf_f "1000000" = Some c_1000000
  ∧ GoFmt.go_Sscanf_f "0.1" = Some c_0_1
  ∧ GoFmt.go_Sscanf_f "0.755" = Some c_0_755.
Proof. vm_compute. repeat split. Qed.

Section RuleClaims.
Context {fmt : Fmt} {browser : Browser}.

(** C1. [FetchAndAnalyzeData] returns a result that is not nil exactly when
    the page is read and decoded and its three numbers satisfy the rule
    (total_profit >= 1,000,000 and sol_balance >= 20 and win_rate >= 0.1) or
    (total_profit >= 10,000 and win_rate >= 0.755); two pages with the same
    three numbers are decided alike, whatever the address and the name. *)
Theorem qualification_rule :
  (∀ address r,
     (FetchAndAnalyzeData address).2 = inr (Some r) ↔
     ∃ jsonContent data,
       chromedp_Run 30 (apiURL address) = Some jsonContent
       ∧ Unmarshal_AddrData jsonContent = Some data
       ∧ rule (number_of (TotalProfit (PageProps_AddressInfo data)))
              (number_of (SolBalance (PageProps_AddressInfo data)))
              (number_of (WinRate (PageProps_AddressInfo data)))
       ∧ r = mkResult address
               (format_label (number_of (TotalProfit (PageProps_AddressInfo data)))
                  (number_of (SolBalance (PageProps_AddressInfo data)))
                  (number_of (WinRate (PageProps_AddressInfo data)))
                  (TwitterName (PageProps_AddressInfo data))))
  ∧ (∀ a1 a2 j1 j2 d1 d2,
       chromedp_Run 30 (apiURL a1) = Some j1 → Unmarshal_AddrData j1 = Some d1 →
       chromedp_Run 30 (apiURL a2) = Some j2 → Unmarshal_AddrData j2 = Some d2 →
       number_of (TotalProfit (PageProps_AddressInfo d1))
         = number_of (TotalProfit (PageProps_AddressInfo d2)) →
       number_of (SolBalance (PageProps_AddressInfo d1))
         = number_of (SolBalance (PageProps_AddressInfo d2)) →
       number_of (WinRate (PageProps_AddressInfo d1))
         = number_of (WinRate (PageProps_AddressInfo d2)) →
       ((∃ r, (FetchAndAnalyzeData a1).2 = inr (Some r))
        ↔ (∃ r, (FetchAndAnalyzeData a2).2 = inr (Some r)))).
Proof.
  assert (Hrule : ∀ tp sb wr,
    (ge64 tp c_1000000 && ge64 sb c_20 && ge64 wr c_0_1) || (ge64 tp c_10000 && ge64 wr c_0_755)
    = true ↔ rule tp sb wr).
  { intros tp sb wr. unfold rule.
    rewrite orb_true_iff, !andb_true_iff. tauto. }
  assert (Hone : ∀ address r,
     (FetchAndAnalyzeData address).2 = inr (Some r) ↔
     ∃ jsonContent data,
       chromedp_Run 30 (apiURL address) = Some jsonContent
       ∧ Unmarshal_AddrData jsonContent = Some data
       ∧ rule (number_of (TotalProfit (PageProps_AddressInfo data)))
              (number_of (SolBalance (PageProps_AddressInfo data)))
              (number_of (WinRate (PageProps_AddressInfo data)))
       ∧ r = mkResult address
               (format_label (number_of (TotalProfit (PageProps_AddressInfo data)))
                  (number_of (SolBalance (PageProps_AddressInfo data)))
                  (number_of (WinRate (PageProps_AddressInfo data)))
                  (TwitterName (PageProps_AddressInfo data)))).
  { intros address r. unfold FetchAndAnalyzeData.
    destruct (chromedp_Run 30 (apiURL address)) as [jsonContent|] eqn:Hrun.
    2:{ simpl. split; [done|]. by intros (? & ? & ? & _). }
    destruct (Unmarshal_AddrData jsonContent) as [data|] eqn:Hdata.
    2:{ simpl. split; [done|]. intros (j & d & [= <-] & Hd & _). congruence. }
    set (tp := number_of (TotalProfit (PageProps_AddressInfo data))).
    set (sb := number_of (SolBalance (PageProps_AddressInfo data))).
    set (wr := number_of (WinRate (PageProps_AddressInfo data))).
    destruct ((ge64 tp c_1000000 && ge64 sb c_20 && ge64 wr c_0_1)
              || (ge64 tp c_10000 && ge64 wr c_0_755)) eqn:Hq; simpl.
    - apply Hrule in Hq. split.
      + intros [= <-]. by exists jsonContent, data.
      + intros (j & d & [= <-] & Hd & _ & ->).
        assert (d = data) as -> by congruence. done.
    - split; [done|]. intros (j & d & [= <-] & Hd & Hr & _).
      assert (d = data) as -> by congruence.
      apply Hrule in Hr. fold tp sb wr in Hr. congruence. }
  split; [exact Hone|].
  intros a1 a2 j1 j2 d1 d2 Hr1 Hd1 Hr2 Hd2 Htp Hsb Hwr. split.
  - intros [r Hr]. apply Hone in Hr as (j & d & Hj & Hd & Hru & _).
    assert (j = j1) as -> by congruence. assert (d = d1) as -> by congruence.
    eexists. apply Hone. exists j2, d2. do 2 (split; [done|]).
    split; [|done]. by rewrite <- Htp, <- Hsb, <- Hwr.
  - intros [r Hr]. apply Hone in Hr as (j & d & Hj & Hd & Hru & _).
    assert (j = j2) as -> by congruence. assert (d = d2) as -> by congruence.
    eexists. apply Hone. exists j1, d1. do 2 (split; [done|]).
    split; [|done]. by rewrite Htp, Hsb, Hwr.
Qed.
End RuleClaims.

Example sample_fetch :
  (FetchAndAnalyzeData (fmt := GoFmt.go_fmt) (browser := sample_browser) "RICH").2
    = inr (Some (mkResult "RICH" "profit:2000000.00,balance:25.50,winrate:0.200,name:rich"))
  ∧ (FetchAndAnalyzeData (fmt := GoFmt.go_fmt) (browser := sample_browser) "KEEN").2
    = inr (Some (mkResult "KEEN" "profit:10000.00,balance:0.00,winrate:0.755,name:keen"))
  ∧ (FetchAndAnalyzeData (fmt := GoFmt.go_fmt) (browser := sample_browser) "POOR").2 = inr None
  ∧ (FetchAndAnalyzeData (fmt := GoFmt.go_fmt) (browser := sample_browser) "ODD").2 = inl ErrJSON
  ∧ (FetchAndAnalyzeData (fmt := GoFmt.go_fmt) (browser := sample_browser) "GONE").2 = inl ErrAccess.
Proof. vm_compute. repeat split. Qed.

Lemma qualification_rule_witness :
  (FetchAndAnalyzeData (fmt := GoFmt.go_fmt) (browser := sample_browser) "KEEN").2
  = inr (Some (mkResult "KEEN"
                 (format_label (fmt := GoFmt.go_fmt) c_10000 (S754_zero false) c_0_755 "keen"))).
Proof.
  apply (proj1 (qualification_rule (fmt := GoFmt.go_fmt) (browser := sample_browser)) "KEEN").
  exists "keen", (sample_page 10000 "0" "0.755" "keen").
  split; [reflexivity|]. split; [reflexivity|]. split.
  - right. split; vm_compute; reflexivity.
  - vm_compute. reflexivity.
Defined.

(** ** Program A *)

Section FetcherProofs.
Context {net : Network} {dsk : Disk}.

Lemma collect_omap (entries : list WalletEntry) (outputs : list WalletOutput) :
  collect entries outputs = outputs ++ omap first_label entries.
Proof.
  revert outputs. induction entries as [|item rest IH]; intros outputs; simpl.
  - by rewrite app_nil_r.
  - unfold first_label at 1. destruct (Entry_Labels item) as [|label0 labels].
    + apply IH.
    + rewrite IH, <- app_assoc. done.
Qed.


(** A round on a channel whose answer holds an element. *)
Lemma process_channel_ok (channelID : string) (st : state_A) (first : WalletItem)
    (others : list WalletItem) :
  fetchWalletData channelID = inr (first :: others) →
  process_channel channelID st =
    match WriteFile (disk_A st) (channelID +:+ ".json") (channel_file channelID) with
    | None => Ok (mkStateA (disk_A st)
                    (output st ++ [PrintProcessing channelID;
                                   PrintWriteFailed (channelID +:+ ".json")]))
    | Some d => Ok (mkStateA d
                      (output st ++ [PrintProcessing channelID;
                                     PrintSaved (channelID +:+ ".json")]))
    end.
Proof.
  intros Hf. unfold process_channel, channel_file. rewrite Hf. simpl.
  rewrite collect_omap. simpl.
  destruct (WriteFile _ _ _); simpl; unfold print; simpl; by rewrite <- app_assoc.
Qed.

Lemma process_channel_error (channelID : string) (st : state_A) (err : error) :
  fetchWalletData channelID = inl err →
  process_channel channelID st =
    Ok (mkStateA (disk_A st)
          (output st ++ [PrintProcessing channelID; PrintFetchFailed channelID err])).
Proof.
  intros Hf. unfold process_channel. rewrite Hf. unfold print. simpl.
  by rewrite <- app_assoc.
Qed.

Lemma process_channel_empty (channelID : string) (st : state_A) :
  fetchWalletData channelID = inr [] → process_channel channelID st = Panic.
Proof. intros Hf. unfold process_channel. by rewrite Hf. Qed.




(** C8. [data[0]] is read without a check: on an answer that holds an
    element the round ends as usual, on the empty list the index is out of
    range and the program stops there, whatever channels remain; after a
    failed fetch, by contrast, the loop goes on with the next channel. *)
Theorem fetcher_first_element_unguarded :
  (∀ channelID st first others,
     fetchWalletData channelID = inr (first :: others) →
     ∃ st', process_channel channelID st = Ok st')
  ∧ (∀ channelID st remaining,
       fetchWalletData channelID = inr [] →
       index (@nil WalletItem) 0 = Panic
       ∧ process_channel channelID st = Panic
       ∧ process_channels (channelID :: remaining) st = Panic)
  ∧ (∀ channelID st remaining err,
       fetchWalletData channelID = inl err →
       process_channels (channelID :: remaining) st =
         process_channels remaining
           (mkStateA (disk_A st)
              (output st ++ [PrintProcessing channelID; PrintFetchFailed channelID err]))).
Proof.
  split; [|split].
  - intros channelID st first others Hf.
    rewrite (process_channel_ok channelID st first others Hf).
    destruct (WriteFile _ _ _); eauto.
  - intros channelID st remaining Hf. split; [done|].
    split; [by apply process_channel_empty|].
    simpl. by rewrite (process_channel_empty channelID st Hf).
  - intros channelID st remaining err Hf. simpl.
    by rewrite (process_channel_error channelID st err Hf).
Qed.
End FetcherProofs.

Example sample_fetcher_run :
  main_A (net := sample_network) (dsk := sound_disk) ["fetch"; "gone"; "one"; "odd"]
    (mkStateA ∅ [])
  = Ok (mkStateA
          {[ "one.json" := MarshalIndent_outputs
                             [mkWalletOutput "W1" "alpha"; mkWalletOutput "W3" "gamma"] ]}
          [ PrintProcessing "gone"; PrintFetchFailed "gone" ErrRequest;
            PrintProcessing "one"; PrintSaved "one.json";
            PrintProcessing "odd"; PrintFetchFailed "odd" ErrJSON ])
  ∧ main_A (net := sample_network) (dsk := sound_disk) ["fetch"; "none"; "one"]
      (mkStateA ∅ []) = Panic.
Proof. split; vm_compute; reflexivity. Qed.


Lemma fetcher_first_element_unguarded_witness :
  (∃ st', process_channel (net := sample_network) (dsk := sound_disk) "one" (mkStateA ∅ [])
          = Ok st')
  ∧ process_channels (net := sample_network) (dsk := sound_disk) ["none"; "one"]
      (mkStateA ∅ []) = Panic
  ∧ process_channels (net := sample_network) (dsk := sound_disk) ["gone"; "one"]
      (mkStateA ∅ [])
    = process_channels (net := sample_network) (dsk := sound_disk) ["one"]
        (mkStateA ∅ ([] ++ [PrintProcessing "gone"; PrintFetchFailed "gone" ErrRequest])).
Proof.
  destruct (fetcher_first_element_unguarded (net := sample_network) (dsk := sound_disk))
    as (H1 & H2 & H3).
  split; [|split].
  - eapply H1. reflexivity.
  - apply (H2 "none" (mkStateA ∅ []) ["one"]). reflexivity.
  - apply (H3 "gone" (mkStateA ∅ []) ["one"] ErrRequest). reflexivity.
Defined.

(** ** The JSON codec *)

Module JsonProofs.
Import Json JsonSpec.

Lemma append_cons (x : ascii) (a b : string) : String x a +:+ b = String x (a +:+ b).
Proof. reflexivity. Qed.

Lemma append_assoc (a b c : string) : (a +:+ b) +:+ c = a +:+ (b +:+ c).
Proof. induction a as [|x a IH]; [done|]. rewrite !append_cons. by rewrite IH. Qed.

Lemma append_length (a b : string) :
  String.length (a +:+ b) = (String.length a + String.length b)%nat.
Proof. induction a as [|x a IH]; [done|]. rewrite append_cons. simpl. by rewrite IH. Qed.

Lemma chr_byte (c : ascii) : chr (byte c) = c.
Proof. apply ascii_N_embedding. Qed.

(** An ASCII byte comes back from its escape. *)
Lemma unquote_escape_ascii (c : ascii) (X : string) :
  (byte c <? 128)%N = true →
  unquote_from 0 (escape_ascii c +:+ X) = prepend (String c EmptyString) (unquote_from 0 X).
Proof.
  destruct c as [[] [] [] [] [] [] [] []]; intros Hb; try discriminate Hb; reflexivity.
Qed.

Lemma high_byte (c : ascii) :
  (byte c <? 128)%N = false →
  Ascii.eqb c dq = false ∧ Ascii.eqb c "\" = false ∧ (byte c <? 32)%N = false.
Proof.
  destruct c as [[] [] [] [] [] [] [] []]; intros Hb; try discriminate Hb; done.
Qed.

Lemma unquote_multi (c : ascii) (X : string) (n : nat) :
  (byte c <? 128)%N = false → utf8_len (String c X) = S n →
  unquote_from 0 (String c X) = prepend (String c EmptyString) (unquote_from n X).
Proof.
  intros Hb Hlen. destruct (high_byte c Hb) as (Hq & Hbs & Hctl).
  cbn [unquote_from]. rewrite Hq, Hbs, Hctl, Hb. by rewrite Hlen.
Qed.

Lemma escape_multi (c : ascii) (r : string) (n : nat) :
  (byte c <? 128)%N = false → utf8_len (String c r) = S n → is_separator c r = false →
  escape_from 0 (String c r) = String c (escape_from n r).
Proof.
  intros Hb Hlen Hsep. cbn [escape_from]. rewrite Hb, Hlen.
  destruct r as [|c1 [|c2 r3]]; try done. simpl in Hsep. by rewrite Hsep.
Qed.

Lemma byte_eq (c : ascii) (n : N) : (byte c =? n)%N = true → c = chr n.
Proof. intros Hc. apply N.eqb_eq in Hc. by rewrite <- Hc, chr_byte. Qed.

Lemma escape_separator (c c1 c2 : ascii) (r3 X : string) :
  is_separator c (String c1 (String c2 r3)) = true →
  unquote_from 0 (escape_from 0 (String c (String c1 (String c2 r3))) +:+ X)
  = prepend (String c (String c1 (String c2 EmptyString)))
      (unquote_from 0 (escape_from 0 r3 +:+ X))
  ∧ utf8_len (String c (String c1 (String c2 r3))) = 3%nat.
Proof.
  simpl. rewrite !andb_true_iff, orb_true_iff. intros [[Hc Hc1] Hc2].
  apply byte_eq in Hc as ->. apply byte_eq in Hc1 as ->.
  destruct Hc2 as [Hc2|Hc2]; apply byte_eq in Hc2 as ->; split; reflexivity.
Qed.

Lemma utf8_len_copy (c : ascii) (r X : string) (n : nat) :
  (byte c <? 128)%N = false → utf8_len (String c r) = S n →
  utf8_len (String c (escape_from n r +:+ X)) = S n ∧ (n ≤ String.length r)%nat.
Proof.
  intros Hb. unfold utf8_len. rewrite Hb.
  destruct (byte c <? 194)%N; [done|].
  destruct (byte c <? 224)%N.
  { destruct r as [|c1 r1]; [done|]. destruct (is_cont c1) eqn:Hc1; [|done].
    intros [= <-]. cbn [escape_from]. rewrite append_cons, Hc1. split; [done|simpl; lia]. }
  destruct (byte c <? 240)%N.
  { destruct r as [|c1 [|c2 r2]]; try done.
    destruct (_ && _) eqn:Hc; [|done].
    intros [= <-]. cbn [escape_from]. rewrite !append_cons, Hc. split; [done|simpl; lia]. }
  destruct (byte c <? 245)%N; [|done].
  destruct r as [|c1 [|c2 [|c3 r3]]]; try done.
  destruct (_ && _) eqn:Hc; [|done].
  intros [= <-]. cbn [escape_from]. rewrite !append_cons, Hc. split; [done|simpl; lia].
Qed.

Lemma valid_ascii (c : ascii) (r : string) :
  (byte c <? 128)%N = true → valid_from 0 (String c r) = valid_from 0 r.
Proof. intros Hb. cbn [valid_from]. unfold utf8_len. by rewrite Hb. Qed.

(** A text of well-formed UTF-8 comes back from its escaped form. *)
Lemma unquote_escape_from (fuel : nat) (s rest : string) (k : nat) :
  (String.length s ≤ fuel)%nat → (k ≤ String.length s)%nat → valid_from k s = true →
  unquote_from k (escape_from k s +:+ String dq rest) = Some (s, rest).
Proof.
  revert s k. induction fuel as [|fuel IH]; intros s k Hlen Hk Hv.
  { destruct s; [|simpl in Hlen; lia]. simpl in Hk. assert (k = 0%nat) as -> by lia.
    reflexivity. }
  destruct s as [|c r].
  { simpl in Hk. assert (k = 0%nat) as -> by lia. reflexivity. }
  simpl in Hlen, Hk. destruct k as [|k].
  2:{ cbn [escape_from]. rewrite append_cons. cbn [unquote_from].
      rewrite IH; [done|lia|lia|done]. }
  destruct (byte c <? 128)%N eqn:Hb.
  { cbn [escape_from]. rewrite Hb, append_assoc, (unquote_escape_ascii c _ Hb).
    rewrite valid_ascii in Hv by done. rewrite IH; [done|lia|lia|done]. }
  cbn [valid_from] in Hv.
  destruct (utf8_len (String c r)) as [|n] eqn:Hn; [done|].
  destruct (is_separator c r) eqn:Hsep.
  - destruct r as [|c1 [|c2 r3]]; try done.
    destruct (escape_separator c c1 c2 r3 (String dq rest) Hsep) as [-> Hthree].
    rewrite Hthree in Hn. injection Hn as <-. cbn [valid_from] in Hv.
    simpl in Hlen. rewrite IH; [done|lia|lia|done].
  - rewrite (escape_multi c r n Hb Hn Hsep), append_cons.
    destruct (utf8_len_copy c r (String dq rest) n Hb Hn) as [Hcopy Hle].
    rewrite (unquote_multi c _ n Hb Hcopy).
    rewrite IH; [done|lia|lia|done].
Qed.

Lemma unquote_quote (s X : string) :
  ValidString s = true → unquote_from 0 (escape_from 0 s +:+ String dq X) = Some (s, X).
Proof.
  intros Hv. by apply (unquote_escape_from (String.length s)); [lia|lia|].
Qed.

Lemma quote_append (s X : string) :
  quote s +:+ X = String dq (escape_from 0 s +:+ String dq X).
Proof. unfold quote. by rewrite append_cons, append_assoc. Qed.

Lemma parse_string_value (fuel : nat) (depth : N) (s X : string) :
  ValidString s = true →
  parse_value (S fuel) depth (String " " (quote s +:+ X)) = Some (Str s, X).
Proof.
  intros Hv. rewrite quote_append.
  transitivity (match unquote_from 0 (escape_from 0 s +:+ String dq X) with
                | Some (t, r') => Some (Str t, r')
                | None => None
                end); [reflexivity|].
  by rewrite (unquote_quote s X Hv).
Qed.

Lemma parse_member (fuel : nat) (depth : N) (key s X : string) :
  ValidString s = true →
  (∀ Y, unquote_from 0 (escape_from 0 key +:+ String dq Y) = Some (key, Y)) →
  parse_members (S (S fuel)) depth
    (nl +:+ "    " +:+ quote key +:+ ": " +:+ quote s +:+ X)
  = after_member (S fuel) depth key (Str s) X.
Proof.
  intros Hv Hkey. rewrite (quote_append key).
  transitivity
    (match unquote_from 0 (escape_from 0 key +:+ String dq (": " +:+ quote s +:+ X)) with
     | Some (k, r1) =>
         match skip_ws r1 with
         | String ":" r2 =>
             match parse_value (S fuel) depth r2 with
             | Some (v, r3) => after_member (S fuel) depth k v r3
             | None => None
             end
         | _ => None
         end
     | None => None
     end); [reflexivity|].
  rewrite Hkey.
  transitivity
    (match parse_value (S fuel) depth (String " " (quote s +:+ X)) with
     | Some (v, r3) => after_member (S fuel) depth key v r3
     | None => None
     end); [reflexivity|].
  by rewrite (parse_string_value fuel depth s X Hv).
Qed.

Lemma unquote_key_address (Y : string) :
  unquote_from 0 (escape_from 0 "address" +:+ String dq Y) = Some ("address", Y).
Proof. reflexivity. Qed.

Lemma unquote_key_label (Y : string) :
  unquote_from 0 (escape_from 0 "label" +:+ String dq Y) = Some ("label", Y).
Proof. reflexivity. Qed.

(** An element written by [indent_item] is read as its object. *)
Lemma parse_item (fuel : nat) (depth : N) (it : string * string) (X : string) :
  valid_pair it → (maxNestingDepth <? depth + 1)%N = false →
  parse_value (S (S (S (S fuel)))) depth (nl +:+ indent_item it +:+ X)
  = Some (object_of it, X).
Proof.
  intros [Ha Hl] Hd. unfold indent_item. rewrite !append_assoc.
  transitivity
    (if (maxNestingDepth <? depth + 1)%N then None
     else
       match parse_members (S (S (S fuel))) (depth + 1)
               (nl +:+ "    " +:+ quote "address" +:+ ": " +:+ quote it.1 +:+ "," +:+ nl
                +:+ "    " +:+ quote "label" +:+ ": " +:+ quote it.2 +:+ nl +:+ "  }" +:+ X)
       with
       | Some (l, r') => Some (Object l, r')
       | None => None
       end); [reflexivity|].
  rewrite Hd.
  rewrite (parse_member (S fuel) (depth + 1) "address" it.1 _ Ha unquote_key_address).
  transitivity
    (match parse_members (S (S fuel)) (depth + 1)
             (nl +:+ "    " +:+ quote "label" +:+ ": " +:+ quote it.2 +:+ nl +:+ "  }" +:+ X)
     with
     | Some (l, r') => Some (Object (("address", Str it.1) :: l), r')
     | None => None
     end).
  { unfold after_member.
    change (skip_ws ("," +:+ ?Y)) with (String "," Y).
    cbv beta iota. by destruct (parse_members _ _ _) as [[]|]. }
  rewrite (parse_member fuel (depth + 1) "label" it.2 _ Hl unquote_key_label).
  reflexivity.
Qed.

Lemma indent_items_cons (it it2 : string * string) (l : list (string * string)) :
  indent_items (it :: it2 :: l) = indent_item it +:+ "," +:+ nl +:+ indent_items (it2 :: l).
Proof. reflexivity. Qed.

Lemma parse_elems_eq (fuel : nat) (depth : N) (s : string) :
  parse_elems (S fuel) depth s =
  match parse_value fuel depth s with
  | Some (v, r) =>
      match skip_ws r with
      | String "," r' =>
          match parse_elems fuel depth r' with
          | Some (l, r'') => Some (v :: l, r'')
          | None => None
          end
      | String "]" r' => Some ([v], r')
      | _ => None
      end
  | None => None
  end.
Proof. reflexivity. Qed.

(** The elements written by [indent_items] are read as their objects. *)
Lemma parse_items (l : list (string * string)) (it : string * string) (fuel : nat)
    (depth : N) (X : string) :
  Forall valid_pair (it :: l) → (maxNestingDepth <? depth + 1)%N = false →
  (length l + 5 ≤ fuel)%nat →
  parse_elems fuel depth (nl +:+ indent_items (it :: l) +:+ nl +:+ "]" +:+ X)
  = Some (object_of <$> (it :: l), X).
Proof.
  revert it fuel. induction l as [|it2 l IH]; intros it fuel Hv Hd Hf.
  - destruct fuel as [|[|[|[|[|fuel]]]]]; simpl in Hf; try lia.
    rewrite parse_elems_eq.
    change (indent_items [it]) with (indent_item it).
    rewrite (parse_item fuel depth it); [|by inversion Hv|done].
    reflexivity.
  - destruct fuel as [|[|[|[|[|fuel]]]]]; simpl in Hf; try lia.
    rewrite parse_elems_eq, indent_items_cons, !append_assoc.
    inversion Hv as [|? ? Hit Hrest]; subst.
    rewrite (parse_item fuel depth it); [|done|done].
    change (skip_ws ("," +:+ ?Y)) with (String "," Y). cbv beta iota.
    rewrite (IH it2 (S (S (S (S fuel)))) Hrest Hd); [done|lia].
Qed.

Lemma indent_items_length (l : list (string * string)) :
  (length l ≤ String.length (indent_items l))%nat.
Proof.
  induction l as [|it [|it2 l] IH]; [done| |].
  - unfold indent_items, indent_item. rewrite !append_length. simpl. lia.
  - rewrite indent_items_cons, !append_length. simpl in *. lia.
Qed.

Lemma decode_objects (l : list (string * string)) :
  decode_items (object_of <$> l) = (l, false).
Proof.
  induction l as [|[a b] l IH]; [done|].
  rewrite fmap_cons. cbn [decode_items]. rewrite IH.
  reflexivity.
Qed.

(** What [MarshalIndent] writes for records of well-formed UTF-8,
    [Unmarshal] reads back, without error. *)
Lemma Unmarshal_MarshalIndent (l : list (string * string)) :
  Forall valid_pair l → Unmarshal (MarshalIndent l) = (l, false).
Proof.
  intros Hv. destruct l as [|it l]; [reflexivity|].
  unfold Unmarshal, parse.
  set (text := MarshalIndent (it :: l)).
  assert (Hlen : (length l + 4 ≤ String.length text)%nat).
  { unfold text, MarshalIndent. rewrite !append_length.
    pose proof (indent_items_length (it :: l)). simpl in *. lia. }
  destruct (String.length text) as [|n] eqn:Hn; [lia|].
  replace (2 * S n + 2)%nat with (S (S (2 * n + 2))) by lia.
  assert (Hp : parse_value (S (S (2 * n + 2))) 0 text
               = Some (Array (object_of <$> (it :: l)), EmptyString)).
  { unfold text, MarshalIndent.
    transitivity
      (match parse_elems (S (2 * n + 2)) 1
               (nl +:+ indent_items (it :: l) +:+ nl +:+ "]" +:+ EmptyString) with
       | Some (l0, r') => Some (Array l0, r')
       | None => None
       end).
    - destruct l; reflexivity.
    - rewrite (parse_items l it); [done|done|done|lia]. }
  rewrite Hp. cbn [skip_ws]. apply decode_objects.
Qed.
End JsonProofs.

Lemma fmap_item_pair (items : list AddressItem) :
  item_of_pair <$> (pair_of_item <$> items) = items.
Proof.
  induction items as [|[a l] items IH]; [done|]. rewrite !fmap_cons, IH. done.
Qed.

(** C5 (amended). A list of records whose addresses and labels are
    well-formed UTF-8, written as JSON to a [.json] file, is read back by
    [readAddressesFromFile] as the same list. *)
Theorem json_round_trip {dsk : Disk} (d d' : gmap string string) (path : string)
    (items : list AddressItem) :
  Forall valid_item items →
  Ext path = ".json" →
  WriteFile d path (MarshalIndent_items items) = Some d' →
  readAddressesFromFile d' path = inr items.
Proof.
  intros Hv Hext Hw. unfold WriteFile in Hw.
  destruct (WriteFile_fails d path); [done|]. injection Hw as <-.
  unfold readAddressesFromFile, ReadFile. rewrite lookup_insert_eq, Hext.
  cbn [String.eqb]. change (String.eqb ".json" ".json") with true. cbv iota.
  unfold MarshalIndent_items. rewrite JsonProofs.Unmarshal_MarshalIndent.
  - by rewrite fmap_item_pair.
  - apply Forall_fmap. eapply Forall_impl; [exact Hv|]. by intros [a l] [??].
Qed.

Lemma json_round_trip_witness :
  Forall valid_item sample_addresses
  ∧ readAddressesFromFile
      (<["ad_json/copy.json" := MarshalIndent_items sample_addresses]> sample_disk)
      "ad_json/copy.json" = inr sample_addresses.
Proof.
  assert (Hv : Forall valid_item sample_addresses) by (repeat constructor).
  split; [exact Hv|].
  exact (json_round_trip (dsk := sound_disk) sample_disk _ "ad_json/copy.json"
           sample_addresses Hv eq_refl eq_refl).
Defined.

(** A byte that starts no UTF-8 sequence is written as the escape of
    U+FFFD and read back as U+FFFD: the record does not come back. *)
Lemma round_trip_as_specified_fails :
  ¬ round_trip_as_specified [mkAddressItem (String (Json.chr 255) "abc") "imported"].
Proof.
  intros Hrt.
  specialize (Hrt sound_disk ∅ _ "ad_json/copy.json" eq_refl eq_refl).
  vm_compute in Hrt. discriminate Hrt.
Qed.

Example sample_not_round_trip :
  readAddressesFromFile
    (<["ad_json/copy.json" :=
         MarshalIndent_items [mkAddressItem (String (Json.chr 255) "abc") "imported"]]> ∅)
    "ad_json/copy.json"
  = inr [mkAddressItem (Json.replacement +:+ "abc") "imported"].
Proof. vm_compute. reflexivity. Qed.

(** ** Program B *)

Lemma timing_app (t1 t2 : list event) : timing (t1 ++ t2) = timing t1 ++ timing t2.
Proof.
  induction t1 as [|e t1 IH]; simpl; [done|]. destruct e; simpl; by rewrite ?IH.
Qed.

Lemma Join_not_total (name : string) : Join "ad_json" name ≠ "ad.json".
Proof. unfold Join. simpl. intros [=]. Qed.

Section AnalyzerProofs.
Context {fmt : Fmt} {browser : Browser} {dsk : Disk}.

Lemma scrape_spec (addresses validAddresses : list AddressItem) (fileResults : list Result)
    (tr : list event) :
  scrape addresses validAddresses fileResults tr
  = (validAddresses ++ qualifying addresses, fileResults ++ omap fetched addresses,
     tr ++ flat_map address_events addresses).
Proof.
  revert validAddresses fileResults tr.
  induction addresses as [|item rest IH]; intros v r tr.
  - simpl. by rewrite !app_nil_r.
  - cbn [scrape flat_map]. unfold qualifying. rewrite filter_cons. fold (qualifying rest).
    cbn [omap list_omap].
    pose proof (eq_refl (fetched item)) as Hfe. unfold fetched at 2 in Hfe.
    pose proof (eq_refl (address_events item)) as Hev. unfold address_events at 2 in Hev.
    destruct (decide (is_Some (fetched item))) as [Hs|Hn];
      destruct (FetchAndAnalyzeData (Item_Address item)) as [events [err|[result|]]];
      simpl in Hfe, Hev; rewrite Hfe in *; rewrite IH, Hev;
      try (by destruct Hs); try (by exfalso; apply Hn; eexists);
      by rewrite <- !app_assoc.
Qed.

Lemma fetch_timing (address : string) :
  timing (FetchAndAnalyzeData address).1 = [Session 30 (apiURL address)].
Proof.
  unfold FetchAndAnalyzeData.
  destruct (chromedp_Run 30 (apiURL address)) as [jsonContent|]; [|done].
  destruct (Unmarshal_AddrData jsonContent) as [data|]; [|done].
  by destruct (_ || _).
Qed.

Lemma address_timing (item : AddressItem) :
  timing (address_events item) = [Session 30 (apiURL (Item_Address item)); Sleep 2].
Proof.
  unfold address_events. rewrite !timing_app, fetch_timing.
  by destruct ((FetchAndAnalyzeData (Item_Address item)).2).
Qed.

Lemma addresses_timing (addresses : list AddressItem) :
  timing (flat_map address_events addresses)
  = flat_map (λ a, [Session 30 (apiURL a); Sleep 2]) (Item_Address <$> addresses).
Proof.
  induction addresses as [|item rest IH]; simpl; [done|].
  by rewrite timing_app, address_timing, IH.
Qed.

Lemma save_total_trace (fileResults : list Result) (st : state) :
  timing (trace (save_total fileResults st)) = timing (trace st).
Proof.
  unfold save_total. destruct fileResults; [done|].
  destruct (WriteFile _ _ _); simpl; by rewrite timing_app, app_nil_r.
Qed.

Lemma save_total_disk (fileResults : list Result) (st : state) (path : string) :
  path ≠ "ad.json" → disk (save_total fileResults st) !! path = disk st !! path.
Proof.
  intros Hp. unfold save_total. destruct fileResults; [done|].
  unfold WriteFile. destruct (WriteFile_fails _ _); simpl; [done|].
  by rewrite lookup_insert_ne.
Qed.

(** A round on a file that is read: the scraping, then the update. *)
Lemma process_file_read (file : DirEntry) (st : state) (addresses : list AddressItem) :
  wanted file = true →
  readAddressesFromFile (disk st) (Join "ad_json" (Name file)) = inr addresses →
  process_file file st =
    let st1 := mkState (disk st) (allResults st)
                 (trace st ++ flat_map address_events addresses) in
    match qualifying addresses with
    | _ :: _ =>
        match WriteFile (disk st) (Join "ad_json" (Name file))
                (if String.eqb (Ext (Name file)) ".json"
                 then MarshalIndent_items (qualifying addresses)
                 else txt_content (qualifying addresses)) with
        | None => log (LogSaveFailed (Name file)) st1
        | Some d =>
            save_total (omap fetched addresses)
              (log (LogFileUpdated (Name file) (length (qualifying addresses)))
                 (set_disk d st1))
        end
    | [] =>
        match Remove (disk st) (Join "ad_json" (Name file)) with
        | None => save_total (omap fetched addresses) (log (LogRemoveFailed (Name file)) st1)
        | Some d =>
            save_total (omap fetched addresses)
              (log (LogFileDeleted (Name file)) (set_disk d st1))
        end
    end.
Proof.
  intros Hw Hr. unfold process_file. rewrite Hw, Hr, scrape_spec. simpl.
  by destruct (qualifying addresses).
Qed.

Lemma process_file_timing (file : DirEntry) (st : state) :
  timing (trace (process_file file st))
  = timing (trace st)
    ++ flat_map (λ a, [Session 30 (apiURL a); Sleep 2])
         (if wanted file then
            match readAddressesFromFile (disk st) (Join "ad_json" (Name file)) with
            | inr addresses => Item_Address <$> addresses
            | inl _ => []
            end
          else []).
Proof.
  destruct (wanted file) eqn:Hw.
  2:{ unfold process_file. rewrite Hw. simpl. by rewrite app_nil_r. }
  destruct (readAddressesFromFile (disk st) (Join "ad_json" (Name file)))
    as [err|addresses] eqn:Hr.
  { unfold process_file. rewrite Hw, Hr. simpl.
    by rewrite timing_app, !app_nil_r. }
  rewrite (process_file_read file st addresses Hw Hr). cbv zeta.
  destruct (qualifying addresses).
  - destruct (Remove _ _); rewrite save_total_trace; simpl;
      by rewrite !timing_app, addresses_timing, app_nil_r.
  - destruct (WriteFile _ _ _); rewrite ?save_total_trace; simpl;
      by rewrite !timing_app, addresses_timing, app_nil_r.
Qed.


(** C7. The addresses of a file are scraped one after the other: for each
    of them, whether it qualifies, does not or fails, one browser session
    with a timeout of 30 seconds and then a pause of 2 seconds; over all
    the files, the sessions and the pauses of a run alternate in this way,
    one pair for each address of each file that is read. *)
Theorem scraping_is_paced :
  (∀ address, timing (FetchAndAnalyzeData address).1 = [Session 30 (apiURL address)])
  ∧ (∀ addresses validAddresses fileResults tr,
       timing (scrape addresses validAddresses fileResults tr).2
       = timing tr
         ++ flat_map (λ a, [Session 30 (apiURL a); Sleep 2]) (Item_Address <$> addresses))
  ∧ (∀ files st,
       timing (trace (process_files files st))
       = timing (trace st)
         ++ flat_map (λ a, [Session 30 (apiURL a); Sleep 2]) (scraped files st)).
Proof.
  split; [exact fetch_timing|]. split.
  - intros addresses v r tr. rewrite scrape_spec. simpl.
    by rewrite timing_app, addresses_timing.
  - intros files. induction files as [|file rest IH]; intros st.
    + simpl. by rewrite app_nil_r.
    + cbn [process_files scraped].
      by rewrite IH, process_file_timing, flat_map_app, app_assoc.
Qed.


End AnalyzerProofs.

(** ** Program B on the sample files *)


Example sample_run_timing :
  timing (trace (process_files (fmt := GoFmt.go_fmt) (browser := sample_browser) (dsk := sound_disk)
                   sample_listing sample_state))
  = [ Session 30 (apiURL "RICH"); Sleep 2; Session 30 (apiURL "POOR"); Sleep 2;
      Session 30 (apiURL "GONE"); Sleep 2; Session 30 (apiURL "KEEN"); Sleep 2;
      Session 30 (apiURL "POOR"); Sleep 2 ].
Proof. vm_compute. reflexivity. Qed.

Example sample_run_files :
  let st := process_files (fmt := GoFmt.go_fmt) (browser := sample_browser) (dsk := sound_disk)
              sample_listing sample_state in
  disk st !! "ad_json/group.json"
    = Some (MarshalIndent_items [mkAddressItem "RICH" "whale"; mkAddressItem "KEEN" "trader"])
  ∧ disk st !! "ad_json/notes.txt" = None
  ∧ allResults st
    = [ mkResult "RICH" "profit:2000000.00,balance:25.50,winrate:0.200,name:rich";
        mkResult "KEEN" "profit:10000.00,balance:0.00,winrate:0.755,name:keen" ].
Proof. vm_compute. repeat split. Qed.




(** * Further properties of the two programs *)

(** ** Paths *)

Lemma list_ascii_append (a b : string) :
  list_ascii_of_string (a +:+ b) = list_ascii_of_string a ++ list_ascii_of_string b.
Proof. induction a as [|c a IH]; [done|]. cbn. by rewrite <- IH. Qed.

(** The name of the file of a channel ends in [.json]. *)
Lemma Ext_json (s : string) : Ext (s +:+ ".json") = ".json".
Proof. unfold Ext. rewrite list_ascii_append, rev_app_distr. reflexivity. Qed.

(** ** Program A: what a run leaves on the disk *)

Section FetcherFrame.
Context {net : Network} {dsk : Disk}.

Lemma process_channel_frame (channelID : string) (st st' : state_A) (path : string) :
  process_channel channelID st = Ok st' →
  path ≠ channelID +:+ ".json" →
  disk_A st' !! path = disk_A st !! path.
Proof.
  intros Hp Hne. destruct (fetchWalletData channelID) as [err|[|first others]] eqn:Hf.
  - rewrite (process_channel_error channelID st err Hf) in Hp. by injection Hp as <-.
  - by rewrite (process_channel_empty channelID st Hf) in Hp.
  - rewrite (process_channel_ok channelID st first others Hf) in Hp.
    unfold WriteFile in Hp. destruct (WriteFile_fails _ _); injection Hp as <-; [done|].
    simpl. by rewrite lookup_insert_ne.
Qed.

Lemma process_channels_frame (channelIDs : list string) (st st' : state_A) (path : string) :
  process_channels channelIDs st = Ok st' →
  (∀ c, c ∈ channelIDs → path ≠ c +:+ ".json") →
  disk_A st' !! path = disk_A st !! path.
Proof.
  revert st. induction channelIDs as [|c rest IH]; intros st; simpl.
  - by intros [= <-].
  - destruct (process_channel c st) as [st1|] eqn:Hc; simpl; [|done].
    intros Hrest Hpath. rewrite (IH st1 Hrest).
    + apply (process_channel_frame c st st1 path Hc). apply Hpath, list_elem_of_here.
    + intros c' Hc'. by apply Hpath, list_elem_of_further.
Qed.

(** X1. A run of program A that ends changes no file but those named after
    its channel identifiers: every other path of the disk holds what it
    held before, and without channel identifier nothing is written at all. *)
Theorem fetcher_touches_only_channel_files (args : list string) (st st' : state_A)
    (path : string) :
  main_A args st = Ok st' →
  (∀ c, c ∈ tail args → path ≠ c +:+ ".json") →
  disk_A st' !! path = disk_A st !! path.
Proof.
  intros Hm Hpath. destruct args as [|prog [|c rest]].
  - simpl in Hm. by injection Hm as <-.
  - simpl in Hm. by injection Hm as <-.
  - change (main_A (prog :: c :: rest) st) with (process_channels (c :: rest) st) in Hm.
    by apply (process_channels_frame (c :: rest) st st' path Hm).
Qed.

(** X2. The file program A writes for a channel is one that program B
    reads: when the entries with a label hold well-formed UTF-8,
    [readAddressesFromFile] returns for that file the records written, the
    address and the first label of each entry with a label, in order. *)
Theorem fetcher_file_read_by_analyzer (channelID : string) (st : state_A)
    (first : WalletItem) (others : list WalletItem) :
  fetchWalletData channelID = inr (first :: others) →
  WriteFile_fails (disk_A st) (channelID +:+ ".json") = false →
  Forall (λ o, Json.ValidString (Output_Address o) = true
               ∧ Json.ValidString (Output_Label o) = true)
    (omap first_label (Result_Data_Json first)) →
  ∃ st', process_channel channelID st = Ok st'
    ∧ readAddressesFromFile (disk_A st') (channelID +:+ ".json")
      = inr ((λ o, mkAddressItem (Output_Address o) (Output_Label o))
               <$> omap first_label (Result_Data_Json first)).
Proof.
  intros Hf Hw Hv. rewrite (process_channel_ok channelID st first others Hf).
  unfold WriteFile, channel_file. rewrite Hw, Hf. eexists. split; [done|].
  unfold readAddressesFromFile, ReadFile. cbn [disk_A]. rewrite lookup_insert_eq, Ext_json.
  change (String.eqb ".json" ".json") with true. cbv iota.
  unfold MarshalIndent_outputs. rewrite JsonProofs.Unmarshal_MarshalIndent.
  - f_equal. rewrite <- list_fmap_compose. by apply list_fmap_ext.
  - apply Forall_fmap. eapply Forall_impl; [exact Hv|]. by intros o [??].
Qed.

(** X3. When no entry of the first element has a label, the slice of
    outputs is never appended to: the file of the channel holds [null], not
    an empty array. *)
Theorem fetcher_writes_null_without_labels (channelID : string) (st : state_A)
    (first : WalletItem) (others : list WalletItem) :
  fetchWalletData channelID = inr (first :: others) →
  WriteFile_fails (disk_A st) (channelID +:+ ".json") = false →
  Forall (λ item, Entry_Labels item = []) (Result_Data_Json first) →
  ∃ st', process_channel channelID st = Ok st'
    ∧ disk_A st' !! (channelID +:+ ".json") = Some "null".
Proof.
  intros Hf Hw Hl. rewrite (process_channel_ok channelID st first others Hf).
  unfold WriteFile, channel_file. rewrite Hw, Hf. eexists. split; [done|].
  cbn [disk_A]. rewrite lookup_insert_eq. f_equal.
  assert (Hnone : omap first_label (Result_Data_Json first) = []).
  { induction Hl as [|item rest Hitem _ IH]; [done|].
    cbn [omap list_omap]. unfold first_label at 1. by rewrite Hitem. }
  by rewrite Hnone.
Qed.
End FetcherFrame.

(** ** A separator that is there is found *)

Lemma HasPrefix_append (p r : string) : HasPrefix (p +:+ r) p = true.
Proof.
  induction p as [|c p IH].
  - change (EmptyString +:+ r) with r. by destruct r.
  - change (String c p +:+ r) with (String c (p +:+ r)). cbn [HasPrefix].
    by rewrite Ascii.eqb_refl.
Qed.

Lemma Cut_eq (s sep : string) :
  Cut s sep
  = if HasPrefix s sep then Some (EmptyString, string_drop (String.length sep) s)
    else match s with
         | EmptyString => None
         | String c s' =>
             match Cut s' sep with
             | Some (a, b) => Some (String c a, b)
             | None => None
             end
         end.
Proof. by destruct s. Qed.

Lemma Contains_append (a sep b : string) : Contains (a +:+ sep +:+ b) sep = true.
Proof.
  apply Cut_Contains. induction a as [|c a IH].
  - change (EmptyString +:+ sep +:+ b) with (sep +:+ b).
    rewrite Cut_eq, HasPrefix_append. by eexists.
  - change (String c a +:+ sep +:+ b) with (String c (a +:+ sep +:+ b)).
    rewrite Cut_eq. destruct (HasPrefix _ _); [by eexists|].
    destruct IH as [[x y] ->]. by eexists.
Qed.

(** ** Text files: fields and lines *)

Import JsonProofs.

Lemma append_nil_r (s : string) : s +:+ EmptyString = s.
Proof. induction s as [|c s IH]; [done|]. by rewrite append_cons, IH. Qed.

Lemma space_width_blank (c : ascii) (r : string) :
  space_width (String c r) = 0%nat → blank c = false.
Proof. unfold space_width, blank. cbv zeta. by destruct (_ || _). Qed.

Lemma space_width_of_blank (c : ascii) (r : string) :
  blank c = true → space_width (String c r) = 1%nat.
Proof. unfold space_width, blank. cbv zeta. by intros ->. Qed.

(** A blank after a text starts no white space character earlier. *)
Lemma space_width_before_blank (c : ascii) (r X : string) :
  space_width (String c r +:+ String " " X) = space_width (String c r).
Proof.
  destruct r as [|c1 [|c2 r2]]; rewrite ?append_cons;
    change (EmptyString +:+ String " " X) with (String " " X);
    unfold space_width; cbv zeta.
  - change (Json.byte " ") with 32%N. simpl N.eqb.
    rewrite ?andb_false_r. destruct (_ || _); [done|].
    destruct X; [done|]. by rewrite ?andb_false_r.
  - change (Json.byte " ") with 32%N. simpl N.eqb. simpl N.leb.
    by rewrite ?andb_false_r.
  - done.
Qed.

Lemma space_width_prefix (p q : string) :
  space_width (p +:+ q) = 0%nat → space_width p = 0%nat.
Proof.
  destruct p as [|c [|c1 [|c2 r2]]]; [done| | |]; rewrite ?append_cons.
  - intros Hw. apply space_width_blank in Hw.
    unfold space_width, blank in *. cbv zeta in *. by rewrite Hw.
  - change (EmptyString +:+ q) with q. unfold space_width. cbv zeta.
    destruct (_ || _); [done|]. destruct (_ && _); done.
  - done.
Qed.

(** *** strings.Fields *)

Lemma spaceless_cons (c : ascii) (r : string) :
  spaceless (String c r) = true → space_width (String c r) = 0%nat ∧ spaceless r = true.
Proof.
  cbn [spaceless]. rewrite andb_true_iff, Nat.eqb_eq. tauto.
Qed.

(** A spaceless text followed by a blank is added whole to the piece under
    way, which then ends. *)
Lemma fields_from_field (f cur X : string) :
  spaceless f = true →
  fields_from 0 cur (f +:+ String " " X)
  = match cur +:+ f with
    | EmptyString => fields_from 0 EmptyString X
    | w => w :: fields_from 0 EmptyString X
    end.
Proof.
  revert cur. induction f as [|c f IH]; intros cur Hf.
  - change (EmptyString +:+ String " " X) with (String " " X). rewrite append_nil_r.
    by destruct cur.
  - apply spaceless_cons in Hf as [Hw Hf].
    rewrite append_cons. cbn [fields_from].
    change (String c (f +:+ String " " X)) with (String c f +:+ String " " X).
    rewrite space_width_before_blank, Hw.
    rewrite (IH _ Hf), append_assoc. reflexivity.
Qed.

Lemma fields_from_last (f cur : string) :
  spaceless f = true →
  fields_from 0 cur f = match cur +:+ f with EmptyString => [] | w => [w] end.
Proof.
  revert cur. induction f as [|c f IH]; intros cur Hf.
  - rewrite append_nil_r. by destruct cur.
  - apply spaceless_cons in Hf as [Hw Hf]. cbn [fields_from]. rewrite Hw.
    rewrite (IH _ Hf), append_assoc. reflexivity.
Qed.

Lemma Fields_spaceless (f : string) :
  f ≠ EmptyString → spaceless f = true → Fields f = [f].
Proof.
  intros Hne Hf. unfold Fields. rewrite (fields_from_last f _ Hf).
  change (EmptyString +:+ f) with f. by destruct f.
Qed.

Lemma strings_Join_cons (l l2 : string) (ls : list string) (sep : string) :
  strings_Join (l :: l2 :: ls) sep = l +:+ sep +:+ strings_Join (l2 :: ls) sep.
Proof. reflexivity. Qed.

Lemma Fields_Join (l : string) (ls : list string) :
  Forall (λ f, f ≠ EmptyString ∧ spaceless f = true) (l :: ls) →
  Fields (strings_Join (l :: ls) " ") = l :: ls.
Proof.
  revert l. induction ls as [|l2 ls IH]; intros l Hall.
  - inversion Hall as [|? ? [Hne Hf] _]; subst. by apply Fields_spaceless.
  - inversion Hall as [|? ? [Hne Hf] Hrest]; subst.
    rewrite strings_Join_cons. unfold Fields.
    change (" " +:+ strings_Join (l2 :: ls) " ") with (String " " (strings_Join (l2 :: ls) " ")).
    rewrite (fields_from_field l _ _ Hf).
    change (EmptyString +:+ l) with l.
    fold (Fields (strings_Join (l2 :: ls) " ")). rewrite (IH l2 Hrest).
    by destruct l.
Qed.

(** The pieces [fields_from] gives are not empty and spaceless. *)
Lemma before_spaceless (cur s : string) :
  (∀ a b, cur = a +:+ b → b ≠ EmptyString → space_width (b +:+ s) = 0%nat) →
  spaceless cur = true.
Proof.
  induction cur as [|c cur IH]; intros HP; [done|].
  cbn [spaceless]. apply andb_true_iff. split.
  - apply Nat.eqb_eq. apply (space_width_prefix _ s).
    by apply (HP EmptyString (String c cur)).
  - apply IH. intros a b -> Hb. by apply (HP (String c a) b).
Qed.

Lemma before_snoc (cur : string) (c : ascii) (r : string) :
  (∀ a b, cur = a +:+ b → b ≠ EmptyString → space_width (b +:+ String c r) = 0%nat) →
  space_width (String c r) = 0%nat →
  ∀ a b, cur +:+ String c EmptyString = a +:+ b → b ≠ EmptyString →
         space_width (b +:+ r) = 0%nat.
Proof.
  intros HP Hw. induction cur as [|d cur IH] in HP |- *; intros a b Hab Hb.
  - change (EmptyString +:+ String c EmptyString) with (String c EmptyString) in Hab.
    destruct a as [|x a].
    + change (EmptyString +:+ b) with b in Hab. subst b. by rewrite append_cons.
    + rewrite append_cons in Hab. injection Hab as <- Hab.
      destruct a; [|by rewrite append_cons in Hab].
      change (EmptyString +:+ b) with b in Hab. by subst b.
  - rewrite append_cons in Hab. destruct a as [|x a].
    + change (EmptyString +:+ b) with b in Hab. subst b.
      rewrite append_cons, append_assoc.
      change (String c EmptyString +:+ r) with (String c r).
      rewrite <- append_cons. by apply (HP EmptyString (String d cur)).
    + rewrite append_cons in Hab. injection Hab as <- Hab.
      apply (IH (λ a' b' Hc, HP (String d a') b' (f_equal (String d) Hc)) a b Hab Hb).
Qed.

Lemma fields_from_spaceless (s : string) (skip : nat) (cur : string) :
  (skip = 0%nat ∨ cur = EmptyString) →
  (∀ a b, cur = a +:+ b → b ≠ EmptyString → space_width (b +:+ s) = 0%nat) →
  Forall (λ f, f ≠ EmptyString ∧ spaceless f = true) (fields_from skip cur s).
Proof.
  revert skip cur. induction s as [|c r IH]; intros skip cur Hsk HP.
  - cbn [fields_from]. destruct cur as [|d cur]; [constructor|].
    constructor; [|constructor]. split; [done|]. by apply (before_spaceless _ EmptyString).
  - cbn [fields_from]. destruct skip as [|k].
    + destruct (space_width (String c r)) as [|k] eqn:Hw.
      * apply IH; [by left|]. by apply before_snoc.
      * assert (Hnil : ∀ a b : string, EmptyString = a +:+ b → b ≠ EmptyString →
                         space_width (b +:+ r) = 0%nat).
        { intros [|x a] b Hab Hb; [|by rewrite append_cons in Hab].
          change (EmptyString +:+ b) with b in Hab. by subst b. }
        destruct cur as [|d cur].
        -- apply IH; [by right|exact Hnil].
        -- constructor.
           ++ split; [done|]. by apply (before_spaceless _ (String c r)).
           ++ apply IH; [by right|exact Hnil].
    + destruct Hsk as [Hk| ->]; [done|]. apply IH; [by right|].
      intros [|x a] b Hab Hb; [|by rewrite append_cons in Hab].
      change (EmptyString +:+ b) with b in Hab. by subst b.
Qed.

Lemma Fields_pieces (s : string) :
  Forall (λ f, f ≠ EmptyString ∧ spaceless f = true) (Fields s).
Proof.
  apply fields_from_spaceless; [by left|].
  intros [|x a] b Hab Hb; [|by rewrite append_cons in Hab].
  change (EmptyString +:+ b) with b in Hab. by subst b.
Qed.

(** *** Lines *)

Lemma spaceless_chars (f : string) :
  spaceless f = true → Forall (λ c, blank c = false) (list_ascii_of_string f).
Proof.
  induction f as [|c f IH]; intros Hf; [constructor|].
  apply spaceless_cons in Hf as [Hw Hf]. constructor; [|by apply IH].
  by apply (space_width_blank c f).
Qed.

Lemma Join_chars (fields : list string) :
  Forall (λ f, f ≠ EmptyString ∧ spaceless f = true) fields →
  Forall (λ c, blank c = false ∨ c = " "%char) (list_ascii_of_string (strings_Join fields " ")).
Proof.
  induction fields as [|l [|l2 ls] IH]; intros Hall.
  - constructor.
  - inversion Hall as [|? ? [_ Hf] _]; subst. cbn [strings_Join].
    eapply Forall_impl; [by apply spaceless_chars|]. by left.
  - inversion Hall as [|? ? [_ Hf] Hrest]; subst.
    rewrite strings_Join_cons. rewrite !list_ascii_append. apply Forall_app. split.
    + eapply Forall_impl; [by apply spaceless_chars|]. by left.
    + apply Forall_app. split; [|by apply IH].
      constructor; [by right|constructor].
Qed.

Lemma scan_lines_line (line rest : string) :
  Forall (λ c, c ≠ "010"%char) (list_ascii_of_string line) →
  scan_lines (line +:+ String "010" rest) = line :: scan_lines rest.
Proof.
  induction line as [|c line IH]; intros Hl.
  - reflexivity.
  - inversion Hl as [|? ? Hc Hl']; subst. rewrite append_cons. cbn [scan_lines].
    destruct (Ascii.eqb_spec c "010"); [done|]. by rewrite (IH Hl').
Qed.

Lemma dropCR_id (line : string) :
  Forall (λ c, c ≠ "013"%char) (list_ascii_of_string line) → dropCR line = line.
Proof.
  induction line as [|c line IH]; intros Hl; [done|].
  inversion Hl as [|? ? Hc Hl']; subst. cbn [dropCR]. destruct line as [|d line].
  - by destruct (Ascii.eqb_spec c "013").
  - by rewrite (IH Hl').
Qed.

Lemma plain_not_newline (c : ascii) :
  blank c = false ∨ c = " "%char → c ≠ "010"%char ∧ c ≠ "013"%char.
Proof. intros [Hb| ->]; split; intros Heq; try subst c; done. Qed.

(** *** Records and lines *)

Lemma txt_record_pieces (it : AddressItem) :
  txt_record it →
  (Item_Address it ≠ EmptyString ∧ spaceless (Item_Address it) = true)
  ∧ ∃ l ls, Forall (λ f, f ≠ EmptyString ∧ spaceless f = true) (l :: ls)
            ∧ Item_Label it = strings_Join (l :: ls) " ".
Proof.
  intros (Ha & Hl & Hj). split.
  - pose proof (Fields_pieces (Item_Address it)) as Hp. rewrite Ha in Hp.
    by inversion Hp.
  - pose proof (Fields_pieces (Item_Label it)) as Hp.
    destruct (Fields (Item_Label it)) as [|l ls]; [done|]. by exists l, ls.
Qed.

Lemma item_of_written_line (it : AddressItem) :
  txt_record it → item_of_line (written_line it) = Some it.
Proof.
  intros Hit. destruct (txt_record_pieces it Hit) as ([Hne Ha] & l & ls & Hall & Hl).
  unfold item_of_line, Fields, written_line.
  change ("  " +:+ Item_Label it) with (String " " (String " " (Item_Label it))).
  rewrite (fields_from_field _ _ _ Ha). change (EmptyString +:+ Item_Address it) with (Item_Address it).
  change (fields_from 0 EmptyString (String " " (Item_Label it))) with (Fields (Item_Label it)).
  rewrite Hl, (Fields_Join l ls Hall).
  destruct it as [a b]. cbn [Item_Address Item_Label] in *. subst b. by destruct a.
Qed.

Lemma written_line_chars (it : AddressItem) :
  txt_record it →
  Forall (λ c, c ≠ "010"%char ∧ c ≠ "013"%char) (list_ascii_of_string (written_line it)).
Proof.
  intros Hit. destruct (txt_record_pieces it Hit) as ([Hne Ha] & l & ls & Hall & Hl).
  eapply Forall_impl; [|exact plain_not_newline].
  unfold written_line. rewrite !list_ascii_append. apply Forall_app. split.
  - eapply Forall_impl; [by apply spaceless_chars|]. by left.
  - apply Forall_app. split.
    + constructor; [by right|]. constructor; [by right|constructor].
    + rewrite Hl. by apply Join_chars.
Qed.

Lemma written_line_two_blanks (it : AddressItem) : Contains (written_line it) "  " = true.
Proof. apply Contains_append. Qed.

Lemma txt_lines_cons (it : AddressItem) (rest : list AddressItem) :
  txt_lines (it :: rest) = written_line it +:+ String "010" (txt_lines rest).
Proof.
  cbn [txt_lines]. unfold txt_line, written_line, Json.nl. by rewrite !append_assoc.
Qed.

(** The lines of the records written, as the scanner yields them. *)
Lemma scan_txt_lines (items : list AddressItem) :
  Forall txt_record items → scan_lines (txt_lines items) = written_line <$> items.
Proof.
  induction items as [|it rest IH]; intros Hall; [done|].
  inversion Hall as [|? ? Hit Hrest]; subst.
  rewrite txt_lines_cons, scan_lines_line, (IH Hrest); [done|].
  eapply Forall_impl; [by apply written_line_chars|]. by intros c [? _].
Qed.

Lemma written_lines_fit (items : list AddressItem) :
  Forall fits items → existsb too_long (written_line <$> items) = false.
Proof.
  induction 1 as [|it rest Hit _ IH]; [done|].
  rewrite fmap_cons. cbn [existsb]. unfold fits in Hit. by rewrite Hit.
Qed.

Lemma written_lines_dropCR (items : list AddressItem) :
  Forall txt_record items → dropCR <$> (written_line <$> items) = written_line <$> items.
Proof.
  induction 1 as [|it rest Hit _ IH]; [done|].
  rewrite !fmap_cons, IH. f_equal. apply dropCR_id.
  eapply Forall_impl; [by apply written_line_chars|]. by intros c [_ ?].
Qed.

Lemma written_lines_items (items : list AddressItem) :
  Forall txt_record items → omap item_of_line (written_line <$> items) = items.
Proof.
  induction 1 as [|it rest Hit _ IH]; [done|].
  rewrite fmap_cons. cbn [omap list_omap].
  by rewrite (item_of_written_line it Hit), IH.
Qed.

(** What the program writes for records of a text file, it reads back. *)
Lemma read_txt_content (items : list AddressItem) :
  Forall txt_record items → Forall fits items →
  read_txt (txt_content items) = inr items.
Proof.
  intros Hrec Hfit. unfold read_txt, txt_content.
  change ("address  label" +:+ Json.nl +:+ txt_lines items)
    with ("address  label" +:+ String "010" (txt_lines items)).
  rewrite scan_lines_line by (repeat constructor; done).
  rewrite (scan_txt_lines items Hrec).
  cbn [existsb]. change (too_long "address  label") with false. cbn [orb].
  rewrite (written_lines_fit items Hfit), fmap_cons, (written_lines_dropCR items Hrec).
  change (dropCR "address  label") with "address  label".
  change (Contains "address  label" "  ") with true. cbv iota.
  by rewrite (written_lines_items items Hrec).
Qed.

(** The records of any text file are of that kind. *)
Lemma item_of_line_record (line : string) (it : AddressItem) :
  item_of_line line = Some it → txt_record it.
Proof.
  unfold item_of_line. pose proof (Fields_pieces line) as Hp.
  destruct (Fields line) as [|a [|l ls]]; [done|done|].
  intros Heq.
  assert (it = mkAddressItem a (strings_Join (l :: ls) " ")) as -> by congruence.
  inversion Hp as [|? ? [Hne Ha] Hrest]; subst.
  unfold txt_record. cbn [Item_Address Item_Label].
  rewrite (Fields_spaceless a Hne Ha), (Fields_Join l ls Hrest). done.
Qed.

Lemma read_txt_records (content : string) (items : list AddressItem) :
  read_txt content = inr items → Forall txt_record items.
Proof.
  unfold read_txt. destruct (existsb too_long (scan_lines content)); [done|].
  intros [= <-]. apply Forall_forall. intros it Hin.
  apply list_elem_of_omap in Hin as (line & _ & Hline).
  by apply (item_of_line_record line).
Qed.

(** X4. Text files round trip: every record [readAddressesFromFile] takes
    from a [.txt] file has an address that is one field and a label made
    of fields with one blank between them; and records of that kind,
    written to a [.txt] file under the title as [processAddressFiles]
    writes them, are read back as they were, as long as each line fits
    the buffer of the scanner. *)
Theorem txt_round_trip {dsk : Disk} (d d' : gmap string string) (path : string)
    (items : list AddressItem) :
  Ext path = ".txt" →
  (readAddressesFromFile d path = inr items → Forall txt_record items)
  ∧ (Forall txt_record items → Forall fits items →
     WriteFile d path (txt_content items) = Some d' →
     readAddressesFromFile d' path = inr items).
Proof.
  intros Hext. unfold readAddressesFromFile, ReadFile. rewrite Hext.
  change (String.eqb ".txt" ".json") with false.
  change (String.eqb ".txt" ".txt") with true. cbv iota. split.
  - destruct (d !! path) as [content|]; [|done]. apply read_txt_records.
  - intros Hrec Hfit Hw. unfold WriteFile in Hw.
    destruct (WriteFile_fails d path); [done|]. injection Hw as <-.
    rewrite lookup_insert_eq. by apply read_txt_content.
Qed.

(** X5. The title is recognised by two blanks in a row, which is also how
    the program separates the address from the label: a text file that
    holds lines of that layout and no title loses its first record when it
    is read. *)
Theorem record_on_first_line_is_lost (it : AddressItem) (items : list AddressItem) :
  Forall txt_record (it :: items) → Forall fits (it :: items) →
  read_txt (txt_lines (it :: items)) = inr items.
Proof.
  intros Hrec Hfit. unfold read_txt.
  rewrite (scan_txt_lines _ Hrec), (written_lines_fit _ Hfit), (written_lines_dropCR _ Hrec).
  rewrite fmap_cons, written_line_two_blanks.
  inversion Hrec as [|? ? _ Hrest]; subst.
  by rewrite (written_lines_items items Hrest).
Qed.

Lemma ext_scan_app (l l' : list ascii) (suffix : string) :
  ext_scan l suffix ≠ EmptyString → ext_scan (l ++ l') suffix = ext_scan l suffix.
Proof.
  revert suffix. induction l as [|c l IH]; intros suffix; [done|].
  cbn [ext_scan app]. destruct (Ascii.eqb c "/"); [done|].
  destruct (Ascii.eqb c "."); [done|]. apply IH.
Qed.

(** The extension of a name is the extension of its path. *)
Lemma Ext_Join (dir name : string) :
  Ext name ≠ EmptyString → Ext (Join dir name) = Ext name.
Proof.
  intros Hne. unfold Ext, Join in *. rewrite !list_ascii_append, !rev_app_distr.
  rewrite <- app_assoc. by apply ext_scan_app.
Qed.

Lemma wanted_Ext (file : DirEntry) :
  wanted file = true →
  Ext (Join "ad_json" (Name file)) = Ext (Name file)
  ∧ (Ext (Name file) = ".json" ∨ Ext (Name file) = ".txt").
Proof.
  unfold wanted. rewrite andb_true_iff, orb_true_iff. intros [_ Hext].
  assert (Hor : Ext (Name file) = ".json" ∨ Ext (Name file) = ".txt").
  { destruct Hext as [He|He]; apply String.eqb_eq in He; tauto. }
  split; [|done]. apply Ext_Join. by destruct Hor as [-> | ->].
Qed.

(** X6. The two loops of [processAddressFiles] call
    [readAddressesFromFile] on the files of the listing that are not
    directories and are named [.json] or [.txt] only: for them the branch
    of the unsupported format is never taken, and a file of the listing
    that is no longer on the disk is a read error. *)
Theorem wanted_file_format_supported (d : gmap string string) (file : DirEntry) :
  wanted file = true →
  (∀ ext, readAddressesFromFile d (Join "ad_json" (Name file)) ≠ inl (ErrFormat ext))
  ∧ (d !! Join "ad_json" (Name file) = None →
     readAddressesFromFile d (Join "ad_json" (Name file)) = inl ErrReadFile).
Proof.
  intros Hw. destruct (wanted_Ext file Hw) as [Hext Hor].
  unfold readAddressesFromFile, ReadFile. rewrite Hext. split.
  - intros ext. destruct (d !! Join "ad_json" (Name file)) as [content|]; [|done].
    destruct Hor as [-> | ->].
    + change (String.eqb ".json" ".json") with true. cbv iota.
      destruct (Json.Unmarshal content) as [addresses []]; done.
    + change (String.eqb ".txt" ".json") with false.
      change (String.eqb ".txt" ".txt") with true. cbv iota.
      unfold read_txt. by destruct (existsb _ _).
  - by intros ->.
Qed.


(** ** JSON files: what the decoder stores *)

Import Json JsonSpec JsonValues.

Lemma byte_chr (n : N) : (n < 256)%N → byte (chr n) = n.
Proof. apply N_ascii_embedding. Qed.

Ltac euclid := zify; Z.to_euclidean_division_equations; lia.

Ltac bytes :=
  repeat match goal with
  | |- context [byte (chr ?n)] => rewrite (byte_chr n) by lia
  end.

Ltac decide_tests :=
  repeat match goal with
  | |- context [(?a <? ?b)%N] =>
      first [ replace (a <? b)%N with true by (symmetry; apply N.ltb_lt; lia)
            | replace (a <? b)%N with false by (symmetry; apply N.ltb_ge; lia) ]
  | |- context [(?a <=? ?b)%N] =>
      first [ replace (a <=? b)%N with true by (symmetry; apply N.leb_le; lia)
            | replace (a <=? b)%N with false by (symmetry; apply N.leb_gt; lia) ]
  | |- context [(?a =? ?b)%N] =>
      first [ replace (a =? b)%N with true by (symmetry; apply N.eqb_eq; lia)
            | replace (a =? b)%N with false by (symmetry; apply N.eqb_neq; lia) ]
  end.

Lemma valid_three (x : N) (t : string) :
  (2048 ≤ x < 65536)%N → ¬ (55296 ≤ x < 57344)%N →
  valid_from 0 (String (chr (224 + x / 4096)) (String (chr (128 + (x / 64) mod 64))
                  (String (chr (128 + x mod 64)) t)))
  = valid_from 0 t.
Proof.
  intros Hx Hs.
  assert (Hq : (x / 4096 < 16)%N) by euclid.
  assert (Hm2 : ((x / 64) mod 64 < 64)%N) by euclid.
  assert (Hm3 : (x mod 64 < 64)%N) by euclid.
  assert (Hlo : (x / 4096 = 0 → 32 ≤ (x / 64) mod 64)%N) by euclid.
  assert (Hhi : (x / 4096 = 13 → (x / 64) mod 64 ≤ 31)%N) by euclid.
  set (q := (x / 4096)%N) in *.
  set (m2 := ((x / 64) mod 64)%N) in *. set (m3 := (x mod 64)%N) in *.
  cbn [valid_from]. unfold utf8_len, is_cont. bytes. decide_tests.
  destruct (N.eqb_spec (224 + q) 224), (N.eqb_spec (224 + q) 237); decide_tests; reflexivity.
Qed.

Lemma valid_four (x : N) (t : string) :
  (65536 ≤ x ≤ 1114111)%N →
  valid_from 0 (String (chr (240 + x / 262144)) (String (chr (128 + (x / 4096) mod 64))
                  (String (chr (128 + (x / 64) mod 64)) (String (chr (128 + x mod 64)) t))))
  = valid_from 0 t.
Proof.
  intros Hx.
  assert (Hq : (x / 262144 < 5)%N) by euclid.
  assert (Hm1 : ((x / 4096) mod 64 < 64)%N) by euclid.
  assert (Hm2 : ((x / 64) mod 64 < 64)%N) by euclid.
  assert (Hm3 : (x mod 64 < 64)%N) by euclid.
  assert (Hlo : (x / 262144 = 0 → 16 ≤ (x / 4096) mod 64)%N) by euclid.
  assert (Hhi : (x / 262144 = 4 → (x / 4096) mod 64 ≤ 15)%N) by euclid.
  set (q := (x / 262144)%N) in *. set (m1 := ((x / 4096) mod 64)%N) in *.
  set (m2 := ((x / 64) mod 64)%N) in *. set (m3 := (x mod 64)%N) in *.
  cbn [valid_from]. unfold utf8_len, is_cont. bytes. decide_tests.
  destruct (N.eqb_spec (240 + q) 240), (N.eqb_spec (240 + q) 244); decide_tests; reflexivity.
Qed.

(** What [EncodeRune] writes is well-formed. *)
Lemma valid_encode (x : N) (t : string) :
  valid_from 0 (EncodeRune x +:+ t) = valid_from 0 t.
Proof.
  unfold EncodeRune.
  destruct (N.ltb_spec x 128) as [H1|H1].
  { rewrite append_cons. apply valid_ascii. rewrite byte_chr by lia. by apply N.ltb_lt. }
  destruct (N.ltb_spec x 2048) as [H2|H2].
  { assert (Hq : (2 ≤ x / 64 < 32)%N) by euclid.
    assert (Hm : (x mod 64 < 64)%N) by euclid.
    set (q := (x / 64)%N) in *. set (m := (x mod 64)%N) in *.
    rewrite !append_cons. cbn [valid_from]. unfold utf8_len, is_cont.
    bytes. decide_tests. reflexivity. }
  destruct (N.leb_spec 55296 x) as [H3|H3]; destruct (N.ltb_spec x 57344) as [H4|H4];
    destruct (N.ltb_spec 1114111 x) as [H5|H5]; cbn [andb orb]; try reflexivity;
    (destruct (N.ltb_spec x 65536) as [H6|H6];
     [apply valid_three; lia|apply valid_four; lia]).
Qed.

Lemma prepend_Some (p : string) (x : option (string * string)) (t rest : string) :
  prepend p x = Some (t, rest) → ∃ t', x = Some (t', rest) ∧ t = p +:+ t'.
Proof. destruct x as [[t' r]|]; [|done]. intros [= <- <-]. by exists t'. Qed.

Lemma append_nil_l (s : string) : EmptyString +:+ s = s.
Proof. reflexivity. Qed.

Lemma unquote_copy (c : ascii) (r : string) (n : nat) (t' rest : string) :
  (byte c <? 128)%N = false → utf8_len (String c r) = S n →
  unquote_from n r = Some (t', rest) → utf8_len (String c t') = S n.
Proof.
  intros Hb. unfold utf8_len. rewrite Hb.
  destruct (byte c <? 194)%N; [done|].
  destruct (byte c <? 224)%N.
  { destruct r as [|c1 r1]; [done|]. destruct (is_cont c1) eqn:Hc1; [|done].
    intros [= <-]. cbn [unquote_from]. intros Hu.
    apply prepend_Some in Hu as (t1 & _ & ->). by rewrite append_cons, Hc1. }
  destruct (byte c <? 240)%N.
  { destruct r as [|c1 [|c2 r2]]; try done.
    destruct (_ && _) eqn:Hc; [|done].
    intros [= <-]. cbn [unquote_from]. intros Hu.
    apply prepend_Some in Hu as (t1 & Hu & ->).
    apply prepend_Some in Hu as (t2 & _ & ->).
    repeat first [rewrite append_cons | rewrite append_nil_l]. by rewrite Hc. }
  destruct (byte c <? 245)%N; [|done].
  destruct r as [|c1 [|c2 [|c3 r3]]]; try done.
  destruct (_ && _) eqn:Hc; [|done].
  intros [= <-]. cbn [unquote_from]. intros Hu.
  apply prepend_Some in Hu as (t1 & Hu & ->).
  apply prepend_Some in Hu as (t2 & Hu & ->).
  apply prepend_Some in Hu as (t3 & _ & ->).
  repeat first [rewrite append_cons | rewrite append_nil_l]. by rewrite Hc.
Qed.

Lemma valid_replacement (t : string) : valid_from 0 (replacement +:+ t) = valid_from 0 t.
Proof. reflexivity. Qed.

Ltac bits a := destruct a as [[] [] [] [] [] [] [] []].

(** The second half of a surrogate pair, or the replacement character. *)
Lemma unquote_pair (rr : N) (r2 t rest : string) :
  match r2 with
  | String "\" (String "u" (String g1 (String g2 (String g3 (String g4 r3))))) =>
      match u4 g1 g2 g3 g4 with
      | Some rr1 =>
          match surrogate_pair rr rr1 with
          | Some dec => prepend (EncodeRune dec) (unquote_from 0 r3)
          | None => prepend replacement (unquote_from 0 r2)
          end
      | None => prepend replacement (unquote_from 0 r2)
      end
  | _ => prepend replacement (unquote_from 0 r2)
  end = Some (t, rest) →
  ∃ p r3 t', (String.length r3 ≤ String.length r2)%nat
    ∧ unquote_from 0 r3 = Some (t', rest) ∧ t = p +:+ t'
    ∧ ∀ X, valid_from 0 (p +:+ X) = valid_from 0 X.
Proof.
  assert (Hrep : prepend replacement (unquote_from 0 r2) = Some (t, rest) →
    ∃ p r3 t', (String.length r3 ≤ String.length r2)%nat
      ∧ unquote_from 0 r3 = Some (t', rest) ∧ t = p +:+ t'
      ∧ ∀ X, valid_from 0 (p +:+ X) = valid_from 0 X).
  { intros Hu. apply prepend_Some in Hu as (t' & Hu & ->).
    exists replacement, r2, t'. split; [done|]. split; [done|]. split; [done|].
    exact valid_replacement. }
  destruct r2 as [|a1 r2']; [exact Hrep|].
  bits a1; try exact Hrep.
  destruct r2' as [|a2 r2']; [exact Hrep|].
  bits a2; try exact Hrep.
  destruct r2' as [|g1 [|g2 [|g3 [|g4 r3]]]]; try exact Hrep.
  destruct (u4 g1 g2 g3 g4) as [rr1|]; [|exact Hrep].
  destruct (surrogate_pair rr rr1) as [dec|]; [|exact Hrep].
  intros Hu. apply prepend_Some in Hu as (t' & Hu & ->).
  exists (EncodeRune dec), r3, t'. split; [simpl; lia|]. split; [done|]. split; [done|].
  apply valid_encode.
Qed.

(** The text of a string literal is well-formed UTF-8, whatever the bytes
    of the literal. *)
Lemma unquote_valid (n : nat) (s : string) (k : nat) (t rest : string) :
  (String.length s ≤ n)%nat → unquote_from k s = Some (t, rest) → valid_from k t = true.
Proof.
  revert s k t rest. induction n as [|n IH]; intros s k t rest Hlen.
  { destruct s; [done|simpl in Hlen; lia]. }
  destruct s as [|c r]; [done|]. simpl in Hlen.
  destruct k as [|k].
  2:{ cbn [unquote_from]. intros Hu. apply prepend_Some in Hu as (t' & Hu & ->).
      rewrite append_cons. cbn [valid_from]. eapply (IH r); [lia|done]. }
  cbn [unquote_from].
  destruct (Ascii.eqb c dq); [by intros [= <- _]|].
  destruct (Ascii.eqb c "\").
  { destruct r as [|e r1]; [done|]. simpl in Hlen.
    assert (Hone : ∀ x : ascii, (byte x <? 128)%N = true →
              prepend (String x EmptyString) (unquote_from 0 r1) = Some (t, rest) →
              valid_from 0 t = true).
    { intros x Hx Hu. apply prepend_Some in Hu as (t' & Hu & ->).
      rewrite append_cons. change (EmptyString +:+ t') with t'.
      rewrite valid_ascii by done. eapply (IH r1); [lia|done]. }
    destruct (_ || _) eqn:He.
    { apply Hone. rewrite !orb_true_iff in He.
      destruct He as [[He|He]|He]; apply Ascii.eqb_eq in He; by subst e. }
    destruct (Ascii.eqb e "b"); [by apply Hone|].
    destruct (Ascii.eqb e "f"); [by apply Hone|].
    destruct (Ascii.eqb e "n"); [by apply Hone|].
    destruct (Ascii.eqb e "r"); [by apply Hone|].
    destruct (Ascii.eqb e "t"); [by apply Hone|].
    destruct (Ascii.eqb e "u"); [|done].
    destruct r1 as [|h1 [|h2 [|h3 [|h4 r2]]]]; try done. simpl in Hlen.
    destruct (u4 h1 h2 h3 h4) as [rr|]; [|done].
    destruct (is_surrogate rr).
    - intros Hu. apply unquote_pair in Hu as (p & r3 & t' & Hr3 & Hu & -> & Hp).
      rewrite Hp. eapply (IH r3); [lia|done].
    - intros Hu. apply prepend_Some in Hu as (t' & Hu & ->).
      rewrite valid_encode. eapply (IH r2); [lia|done]. }
  destruct (byte c <? 32)%N; [done|].
  destruct (byte c <? 128)%N eqn:Hb.
  { intros Hu. apply prepend_Some in Hu as (t' & Hu & ->).
    rewrite append_cons. change (EmptyString +:+ t') with t'.
    rewrite valid_ascii by done. eapply (IH r); [lia|done]. }
  destruct (utf8_len (String c r)) as [|m] eqn:Hm.
  - intros Hu. apply prepend_Some in Hu as (t' & Hu & ->).
    rewrite valid_replacement. eapply (IH r); [lia|done].
  - intros Hu. apply prepend_Some in Hu as (t' & Hu & ->).
    rewrite append_cons. change (EmptyString +:+ t') with t'.
    cbn [valid_from]. rewrite (unquote_copy c r m t' rest Hb Hm Hu).
    eapply (IH r); [lia|done].
Qed.

Lemma well_formed_array (l : list value) : Forall well_formed l → well_formed (Array l).
Proof.
  intros Hl. split; [done|]. split; [done|]. simpl.
  eapply Forall_impl; [exact Hl|]. by intros v (_ & Ho & _).
Qed.

Lemma well_formed_object (l : list (string * value)) :
  Forall (λ kv, well_formed kv.2) l → well_formed (Object l).
Proof.
  intros Hl. split; [done|]. split; [|done]. simpl.
  eapply Forall_impl; [exact Hl|]. by intros kv (Hs & _).
Qed.

(** The strings of a parsed value are well-formed UTF-8. *)
Lemma parse_well_formed (fuel : nat) :
  (∀ d s v r, parse_value fuel d s = Some (v, r) → well_formed v)
  ∧ (∀ d s l r, parse_elems fuel d s = Some (l, r) → Forall well_formed l)
  ∧ (∀ d s l r, parse_members fuel d s = Some (l, r) → Forall (λ kv, well_formed kv.2) l).
Proof.
  induction fuel as [|fuel (IHv & IHe & IHm)]; [by repeat split|].
  split; [|split].
  - intros d s v r. cbn [parse_value].
    destruct (skip_ws s) as [|c r0]; [done|].
    destruct (Ascii.eqb c dq).
    { destruct (unquote_from 0 r0) as [[t r']|] eqn:Hu; [|done]. intros [= <- _].
      split; [|done]. by apply (unquote_valid (String.length r0) r0 0 t r'). }
    destruct (Ascii.eqb c "[").
    { destruct (_ <? _)%N; [done|].
      assert (Hdef : match parse_elems fuel (d + 1) r0 with
                     | Some (l, r') => Some (Array l, r')
                     | None => None
                     end = Some (v, r) → well_formed v).
      { destruct (parse_elems fuel (d + 1) r0) as [[l r']|] eqn:Hl; [|done].
        intros [= <- _]. apply well_formed_array. by eapply IHe. }
      destruct (skip_ws r0) as [|a r1]; [exact Hdef|].
      bits a; try exact Hdef. intros [= <- _]. by apply well_formed_array. }
    destruct (Ascii.eqb c "{").
    { destruct (_ <? _)%N; [done|].
      assert (Hdef : match parse_members fuel (d + 1) r0 with
                     | Some (l, r') => Some (Object l, r')
                     | None => None
                     end = Some (v, r) → well_formed v).
      { destruct (parse_members fuel (d + 1) r0) as [[l r']|] eqn:Hl; [|done].
        intros [= <- _]. apply well_formed_object. by eapply IHm. }
      destruct (skip_ws r0) as [|a r1]; [exact Hdef|].
      bits a; try exact Hdef. intros [= <- _]. by apply well_formed_object. }
    destruct (HasPrefix _ "null"); [by intros [= <- _]|].
    destruct (HasPrefix _ "true"); [by intros [= <- _]|].
    destruct (HasPrefix _ "false"); [by intros [= <- _]|].
    destruct (lex_number _); [|done]. by intros [= <- _].
  - intros d s l r. cbn [parse_elems].
    destruct (parse_value fuel d s) as [[v r0]|] eqn:Hv; [|done].
    pose proof (IHv _ _ _ _ Hv) as Hwf.
    destruct (skip_ws r0) as [|a r1]; [done|].
    bits a; try done.
    + intros [= <- _]. by constructor.
    + destruct (parse_elems fuel d r1) as [[l' r']|] eqn:Hl; [|done].
      intros [= <- _]. constructor; [done|]. by eapply IHe.
  - intros d s l r. cbn [parse_members].
    destruct (skip_ws s) as [|c r0]; [done|].
    destruct (Ascii.eqb c dq); [|done].
    destruct (unquote_from 0 r0) as [[key r1]|]; [|done].
    destruct (skip_ws r1) as [|a r2]; [done|].
    bits a; try done.
    destruct (parse_value fuel d r2) as [[v r3]|] eqn:Hv; [|done].
    pose proof (IHv _ _ _ _ Hv) as Hwf.
    destruct (skip_ws r3) as [|b r4]; [done|].
    bits b; try done.
    + intros [= <- _]. by constructor.
    + destruct (parse_members fuel d r4) as [[l' r5]|] eqn:Hl; [|done].
      intros [= <- _]. constructor; [done|]. by eapply IHm.
Qed.

Lemma decode_members_valid (members : list (string * value)) (it : string * string) :
  Forall (λ kv, str_ok kv.2) members → valid_pair it →
  valid_pair (decode_members members it).1.
Proof.
  revert it. induction members as [|[key v] rest IH]; intros it Hall Hit; [done|].
  inversion Hall as [|? ? Hv Hrest]; subst. cbn [decode_members].
  destruct Hit as [Ha Hl].
  destruct (String.eqb (foldName key) "ADDRESS").
  { destruct v; try (by apply IH); by apply IH. }
  destruct (String.eqb (foldName key) "LABEL").
  { destruct v; try (by apply IH); by apply IH. }
  by apply IH.
Qed.

Lemma decode_items_valid (l : list value) :
  Forall obj_ok l → Forall valid_pair (decode_items l).1.
Proof.
  induction l as [|v rest IH]; intros Hall; [constructor|].
  inversion Hall as [|? ? Hv Hrest]; subst. cbn [decode_items].
  assert (Hitem : valid_pair (decode_item v).1).
  { destruct v; try done. by apply decode_members_valid. }
  specialize (IH Hrest).
  destruct (decode_item v) as [it e1]. destruct (decode_items rest) as [its e2].
  by constructor.
Qed.

(** Whatever the input, the records [Unmarshal] stores hold well-formed
    UTF-8. *)
Lemma Unmarshal_valid (data : string) : Forall valid_pair (Unmarshal data).1.
Proof.
  unfold Unmarshal, parse.
  destruct (parse_value _ 0 data) as [[v rest]|] eqn:Hp; [|constructor].
  destruct (proj1 (parse_well_formed _) _ _ _ _ Hp) as (_ & _ & Ha).
  destruct (skip_ws rest); [|constructor].
  destruct v; try constructor. by apply decode_items_valid.
Qed.

Lemma fmap_pair_item (pairs : list (string * string)) :
  pair_of_item <$> (item_of_pair <$> pairs) = pairs.
Proof. induction pairs as [|[a l] pairs IH]; [done|]. by rewrite !fmap_cons, IH. Qed.

Lemma read_json_valid (d : gmap string string) (path : string) (items : list AddressItem) :
  Ext path = ".json" → readAddressesFromFile d path = inr items → Forall valid_item items.
Proof.
  intros Hext. unfold readAddressesFromFile. destruct (ReadFile d path) as [content|]; [|done].
  rewrite Hext. change (String.eqb ".json" ".json") with true. cbv iota.
  pose proof (Unmarshal_valid content) as Hv.
  destruct (Json.Unmarshal content) as [addresses []]; [done|]. intros [= <-].
  apply Forall_fmap. eapply Forall_impl; [exact Hv|]. by intros [a l] [??].
Qed.

(** X7. Whatever the bytes of a [.json] file, the records
    [readAddressesFromFile] takes from it hold well-formed UTF-8: the
    decoder resolves the escapes to UTF-8 and puts U+FFFD in the place of
    every byte that starts no well-formed sequence. Such records are
    written back to JSON and read again without change. *)
Theorem json_records_are_well_formed (d : gmap string string) (path : string)
    (items : list AddressItem) :
  Ext path = ".json" →
  readAddressesFromFile d path = inr items →
  Forall valid_item items
  ∧ Json.Unmarshal (MarshalIndent_items items) = (pair_of_item <$> items, false).
Proof.
  intros Hext Hr. pose proof (read_json_valid d path items Hext Hr) as Hv.
  split; [done|]. unfold MarshalIndent_items. apply JsonProofs.Unmarshal_MarshalIndent.
  apply Forall_fmap. eapply Forall_impl; [exact Hv|]. by intros [a l] [??].
Qed.

Section AnalyzerFiles.
Context {fmt : Fmt} {browser : Browser} {dsk : Disk}.

Lemma qualifying_sublist (addresses : list AddressItem) (item : AddressItem) :
  item ∈ qualifying addresses → item ∈ addresses.
Proof. unfold qualifying. rewrite list_elem_of_filter. tauto. Qed.

(** X8. A file that [processAddressFiles] rewrites is read again as the
    records it kept: after the round of a file some of whose addresses
    qualify, [readAddressesFromFile] returns for it the qualifying
    records, as long as the write succeeds and, for a text file, each
    line written fits the buffer of the scanner. *)
Theorem rewritten_file_reads_back (file : DirEntry) (st : state)
    (addresses : list AddressItem) :
  wanted file = true →
  readAddressesFromFile (disk st) (Join "ad_json" (Name file)) = inr addresses →
  qualifying addresses ≠ [] →
  WriteFile_fails (disk st) (Join "ad_json" (Name file)) = false →
  (Ext (Name file) = ".txt" → Forall fits (qualifying addresses)) →
  readAddressesFromFile (disk (process_file file st)) (Join "ad_json" (Name file))
  = inr (qualifying addresses).
Proof.
  intros Hw Hr Hq Hwf Hfit.
  destruct (wanted_Ext file Hw) as [Hjoin Hext].
  assert (Hsub : ∀ P : AddressItem → Prop,
            Forall P addresses → Forall P (qualifying addresses)).
  { intros P HP. apply Forall_forall. intros x Hx. rewrite Forall_forall in HP.
    by apply HP, qualifying_sublist. }
  rewrite (process_file_read file st addresses Hw Hr). cbv zeta.
  destruct (qualifying addresses) as [|item kept] eqn:Hqe; [done|].
  unfold WriteFile. rewrite Hwf.
  unfold readAddressesFromFile at 1. unfold ReadFile.
  rewrite save_total_disk by apply Join_not_total.
  cbn [disk log set_disk]. rewrite lookup_insert_eq, Hjoin.
  destruct Hext as [Hext|Hext]; rewrite Hext.
  - change (String.eqb ".json" ".json") with true. cbv iota.
    unfold MarshalIndent_items. rewrite JsonProofs.Unmarshal_MarshalIndent.
    + by rewrite fmap_item_pair.
    + apply Forall_fmap. eapply Forall_impl.
      * apply Hsub. apply (read_json_valid (disk st) (Join "ad_json" (Name file))); [|done].
        by rewrite Hjoin.
      * by intros [a l] [??].
  - change (String.eqb ".txt" ".json") with false.
    change (String.eqb ".txt" ".txt") with true. cbv iota.
    apply read_txt_content; [|by apply Hfit].
    apply Hsub. unfold readAddressesFromFile in Hr.
    destruct (ReadFile (disk st) (Join "ad_json" (Name file))) as [content|]; [|done].
    rewrite Hjoin, Hext in Hr.
    change (String.eqb ".txt" ".json") with false in Hr.
    change (String.eqb ".txt" ".txt") with true in Hr. cbv iota in Hr.
    by apply (read_txt_records content).
Qed.
End AnalyzerFiles.

(** ** The analysis of one address *)

Section AnalysisFurther.
Context {fmt : Fmt} {browser : Browser}.

Lemma number_of_unreadable (field : interface) :
  unreadable field → number_of field = S754_zero false.
Proof. destruct field as [v|v|]; simpl; [done| |done]. by intros ->. Qed.

Lemma fetch_decoded (address jsonContent : string) (data : AddrData) :
  chromedp_Run 30 (apiURL address) = Some jsonContent →
  Unmarshal_AddrData jsonContent = Some data →
  (FetchAndAnalyzeData address).2
  = let addr := PageProps_AddressInfo data in
    let totalProfit := number_of (TotalProfit addr) in
    let solBalance := number_of (SolBalance addr) in
    let winRate := number_of (WinRate addr) in
    if (ge64 totalProfit c_1000000 && ge64 solBalance c_20 && ge64 winRate c_0_1)
       || (ge64 totalProfit c_10000 && ge64 winRate c_0_755)
    then inr (Some (mkResult address
                      (format_label totalProfit solBalance winRate (TwitterName addr))))
    else inr None.
Proof.
  intros Hrun Hdata. unfold FetchAndAnalyzeData. rewrite Hrun, Hdata. cbv zeta.
  by destruct (_ || _).
Qed.

Lemma ge64_nan_l (a b : float64) : is_nan a = true → ge64 a b = false.
Proof. destruct a; [done|done| |done]. intros _. by destruct b. Qed.

(** X9. The numbers of a page that cannot be read count as zero, and a
    win-rate or a total profit that is zero or not a number satisfies
    neither branch of the rule: an address whose page gives no total
    profit or no win-rate never qualifies, and one whose page gives no
    balance qualifies by the second branch only. *)
Theorem unreadable_numbers_never_qualify (address jsonContent : string) (data : AddrData) :
  chromedp_Run 30 (apiURL address) = Some jsonContent →
  Unmarshal_AddrData jsonContent = Some data →
  let addr := PageProps_AddressInfo data in
  ((unreadable (TotalProfit addr) ∨ is_nan (number_of (TotalProfit addr)) = true
    ∨ unreadable (WinRate addr) ∨ is_nan (number_of (WinRate addr)) = true) →
   (FetchAndAnalyzeData address).2 = inr None)
  ∧ ((unreadable (SolBalance addr) ∨ is_nan (number_of (SolBalance addr)) = true) →
     ∀ r, (FetchAndAnalyzeData address).2 = inr (Some r) →
          ge64 (number_of (TotalProfit addr)) c_10000 = true
          ∧ ge64 (number_of (WinRate addr)) c_0_755 = true).
Proof.
  intros Hrun Hdata addr. rewrite (fetch_decoded address jsonContent data Hrun Hdata).
  cbv zeta. fold addr. split.
  - intros Hcase.
    assert (Hno : ∀ x, unreadable x ∨ is_nan (number_of x) = true →
                       ∀ b, b = c_1000000 ∨ b = c_10000 ∨ b = c_0_1 ∨ b = c_0_755 →
                            ge64 (number_of x) b = false).
    { intros x [Hx|Hx] b Hb.
      - rewrite (number_of_unreadable x Hx).
        destruct Hb as [-> |[-> |[-> | ->]]]; vm_compute; reflexivity.
      - by apply ge64_nan_l. }
    destruct Hcase as [Hc|[Hc|[Hc|Hc]]].
    + rewrite !(Hno (TotalProfit addr)) by tauto. done.
    + rewrite !(Hno (TotalProfit addr)) by tauto. done.
    + rewrite !(Hno (WinRate addr)) by tauto. by rewrite !andb_false_r.
    + rewrite !(Hno (WinRate addr)) by tauto. by rewrite !andb_false_r.
  - intros Hcase r.
    assert (Hsb : ge64 (number_of (SolBalance addr)) c_20 = false).
    { destruct Hcase as [Hx|Hx].
      - rewrite (number_of_unreadable _ Hx). vm_compute. reflexivity.
      - by apply ge64_nan_l. }
    rewrite Hsb, andb_false_r. cbn [andb orb].
    destruct (ge64 (number_of (TotalProfit addr)) c_10000); [|done].
    by destruct (ge64 (number_of (WinRate addr)) c_0_755).
Qed.

Lemma format_label_marker (totalProfit solBalance winRate : float64) (name : string) :
  Contains (format_label totalProfit solBalance winRate name) "winrate:" = true.
Proof.
  unfold format_label.
  change (",winrate:" +:+ Sprintf_f 3 winRate +:+ ",name:" +:+ name)
    with ("," +:+ "winrate:" +:+ Sprintf_f 3 winRate +:+ ",name:" +:+ name).
  rewrite <- !(append_assoc _ _ ("winrate:" +:+ _)).
  apply Contains_append.
Qed.

Lemma fetch_result (address : string) (r : Result) :
  (FetchAndAnalyzeData address).2 = inr (Some r) →
  Result_Address r = address ∧ Contains (Result_Label r) "winrate:" = true.
Proof.
  unfold FetchAndAnalyzeData.
  destruct (chromedp_Run 30 (apiURL address)) as [jsonContent|]; [|done].
  destruct (Unmarshal_AddrData jsonContent) as [data|]; [|done].
  destruct (_ || _); [|done]. intros [= <-]. split; [done|].
  apply format_label_marker.
Qed.

(** X10. Every result of [FetchAndAnalyzeData] carries the address that was
    asked for and a label that holds the marker of the win-rate: the
    deduplication finds element 1 of its split and does not stop on it. *)
Theorem results_can_be_deduplicated (address : string) (r : Result) :
  (FetchAndAnalyzeData address).2 = inr (Some r) →
  Result_Address r = address
  ∧ ∃ p, parse_winrate (Result_Label r) = Ok p.
Proof.
  intros Hf. destruct (fetch_result address r Hf) as [Ha Hc].
  split; [done|]. by apply parse_winrate_ok.
Qed.
End AnalysisFurther.

(** ** More on the deduplication *)

Section DedupFurther.
Context {fmt : Fmt}.

Lemma dedup_step_log (m m1 : gmap string Result) (y : Result) (new : list log_entry) :
  map_ok m → dedup_step m y = Ok (m1, new) →
  new = match winrate_failure y with Some line => [line] | None => [] end.
Proof.
  intros Hm. unfold dedup_step, winrate_failure.
  destruct (parse_winrate (Result_Label y)) as [[w|]|]; simpl; [| |done].
  - destruct (le64 w c_0_1); [by intros [= _ <-]|].
    destruct (m !! Result_Address y) as [e|] eqn:He; [|by intros [= _ <-]].
    destruct (Hm _ _ He) as [_ [we [Hse _]]]. unfold scanned in Hse. rewrite Hse. simpl.
    destruct (gt64 w we); by intros [= _ <-].
  - by intros [= _ <-].
Qed.

Lemma dedup_loop_log (l : list Result) (m m' : gmap string Result)
    (lines lines' : list log_entry) :
  map_ok m → dedup_loop m l lines = Ok (m', lines') →
  lines' = lines ++ omap winrate_failure l.
Proof.
  revert m lines. induction l as [|y l IH]; intros m lines Hm; simpl.
  - intros [= _ <-]. by rewrite app_nil_r.
  - destruct (dedup_step m y) as [[m1 new]|] eqn:Hs; simpl; [|done].
    intros Hl. rewrite (IH m1 _ (dedup_step_map_ok m m1 y new Hm Hs) Hl).
    rewrite (dedup_step_log m m1 y new Hm Hs), <- app_assoc.
    by destruct (winrate_failure y).
Qed.

(** X11. The log of [deduplicateAndFilter] holds one line for each record
    of the input whose win-rate cannot be read, in the order of the input,
    and nothing else: the record stored for an address was read before it
    was stored, so the message about the win-rate of an existing record is
    never written. *)
Theorem dedup_log_lines (results out : list Result) (lines : list log_entry) :
  deduplicateAndFilter results = Ok (out, lines) →
  lines = omap winrate_failure results
  ∧ ∀ address, LogExistingWinrateFailed address ∉ lines.
Proof.
  unfold deduplicateAndFilter.
  destruct (dedup_loop ∅ results []) as [[m lines']|] eqn:Hl; simpl; [|done].
  intros [= _ <-].
  pose proof (dedup_loop_log results ∅ m [] lines' map_ok_empty Hl) as ->.
  split; [done|]. intros address Hin. simpl in Hin.
  apply list_elem_of_omap in Hin as (r & _ & Hr). unfold winrate_failure in Hr.
  by destruct (parse_winrate (Result_Label r)) as [[w|]|].
Qed.

Lemma dedup_loop_fresh (l : list Result) (m : gmap string Result)
    (lines : list log_entry) :
  NoDup (Result_Address <$> l) →
  (∀ r, r ∈ l → (∃ w, candidate r w) ∧ m !! Result_Address r = None) →
  dedup_loop m l lines
  = Ok (list_to_map ((λ r, (Result_Address r, r)) <$> l) ∪ m, lines).
Proof.
  revert m lines. induction l as [|r l IH]; intros m lines Hnd Hall.
  - simpl. by rewrite (left_id_L ∅ (∪)).
  - rewrite fmap_cons in Hnd. apply NoDup_cons in Hnd as [Hna Hnd].
    destruct (Hall r) as ([w [Hs Hw]] & Hma); [apply list_elem_of_here|].
    cbn [dedup_loop]. unfold dedup_step.
    unfold scanned in Hs. rewrite Hs. simpl. rewrite Hw, Hma. simpl.
    rewrite app_nil_r. rewrite IH; [|done|].
    + f_equal. f_equal.
      rewrite <- insert_union_r.
      * by rewrite insert_union_l.
      * apply not_elem_of_list_to_map_1. rewrite <- list_fmap_compose. exact Hna.
    + intros r' Hin. destruct (Hall r') as (Hc' & Hm'); [by apply list_elem_of_further|].
      split; [done|]. rewrite lookup_insert_ne; [done|].
      intros Heq. apply Hna. rewrite Heq. apply list_elem_of_fmap. by exists r'.
Qed.

(** X12. Deduplication is idempotent: applied to its own output, in any
    order, it returns the same records and logs nothing. *)
Theorem dedup_idempotent (results out l : list Result) (lines : list log_entry) :
  deduplicateAndFilter results = Ok (out, lines) →
  l ≡ₚ out →
  ∃ out', deduplicateAndFilter l = Ok (out', []) ∧ out' ≡ₚ out.
Proof.
  intros Hd Hperm.
  destruct (dedup_output results out lines Hd) as (m & _ & Hm & -> & Hin).
  assert (Hkv : (λ r, (Result_Address r, r)) <$> (map_to_list m).*2 = map_to_list m).
  { rewrite <- list_fmap_compose.
    transitivity (id <$> map_to_list m); [|apply list_fmap_id].
    apply list_fmap_ext. intros i [a r] Hi. simpl.
    apply list_elem_of_lookup_2, elem_of_map_to_list in Hi.
    by destruct (Hm _ _ Hi) as [-> _]. }
  unfold deduplicateAndFilter. rewrite (dedup_loop_fresh l ∅ []).
  - simpl. rewrite (right_id_L ∅ (∪)). eexists. split; [done|].
    assert (Hmap : list_to_map ((λ r, (Result_Address r, r)) <$> l) = m).
    { transitivity (list_to_map (map_to_list m) : gmap string Result);
        [|apply list_to_map_to_list].
      apply list_to_map_proper.
      - rewrite Hperm, Hkv. apply NoDup_fst_map_to_list.
      - by rewrite Hperm, Hkv. }
    by rewrite Hmap.
  - rewrite Hperm, (map_ok_addresses m Hm). apply NoDup_fst_map_to_list.
  - intros r Hr. rewrite Hperm in Hr. apply Hin in Hr.
    destruct (Hm _ _ Hr) as [_ Hc]. split; [done|]. apply lookup_empty.
Qed.
End DedupFurther.

(** ** The run of program B *)


Section RunFurther.
Context {fmt : Fmt} {browser : Browser} {dsk : Disk}.

Lemma save_total_results (fileResults : list Result) (st : state) :
  allResults (save_total fileResults st) = allResults st ++ fileResults.
Proof.
  unfold save_total. destruct fileResults as [|r l]; [by rewrite app_nil_r|].
  by destruct (WriteFile _ _ _).
Qed.

Lemma fetched_spec (item : AddressItem) (r : Result) :
  fetched item = Some r →
  (FetchAndAnalyzeData (Item_Address item)).2 = inr (Some r)
  ∧ Result_Address r = Item_Address item.
Proof.
  unfold fetched.
  destruct ((FetchAndAnalyzeData (Item_Address item)).2) as [err|[r'|]] eqn:Hf; try done.
  intros [= ->]. split; [done|]. by destruct (fetch_result _ _ Hf).
Qed.

(** What a round adds to the results, and where it comes from. *)
Lemma process_file_results (file : DirEntry) (st : state) :
  ∃ new, allResults (process_file file st) = allResults st ++ new
    ∧ ∀ r, r ∈ new →
        (FetchAndAnalyzeData (Result_Address r)).2 = inr (Some r)
        ∧ Result_Address r ∈ scraped [file] st.
Proof.
  cbn [scraped]. rewrite app_nil_r.
  destruct (wanted file) eqn:Hw.
  2:{ exists []. unfold process_file. rewrite Hw. rewrite app_nil_r.
      split; [done|]. intros r Hr. by apply elem_of_nil in Hr. }
  destruct (readAddressesFromFile (disk st) (Join "ad_json" (Name file)))
    as [err|addresses] eqn:Hr.
  { exists []. unfold process_file. rewrite Hw, Hr. simpl. rewrite app_nil_r.
    split; [done|]. intros r Hin. by apply elem_of_nil in Hin. }
  assert (Hnew : ∀ r, r ∈ omap fetched addresses →
            (FetchAndAnalyzeData (Result_Address r)).2 = inr (Some r)
            ∧ Result_Address r ∈ Item_Address <$> addresses).
  { intros r Hin. apply list_elem_of_omap in Hin as (item & Hitem & Hf).
    destruct (fetched_spec item r Hf) as [Hres Ha]. rewrite Ha. split; [done|].
    apply list_elem_of_fmap. by exists item. }
  rewrite (process_file_read file st addresses Hw Hr). cbv zeta.
  destruct (qualifying addresses) as [|item kept] eqn:Hq.
  - exists (omap fetched addresses). split; [|done].
    destruct (Remove _ _); by rewrite save_total_results.
  - destruct (WriteFile _ _ _).
    + exists (omap fetched addresses). split; [|done]. by rewrite save_total_results.
    + exists []. simpl. rewrite app_nil_r. split; [done|].
      intros r Hin. by apply elem_of_nil in Hin.
Qed.

(** X13. The loop over the files only appends to the results: those of an
    earlier run and of the files already handled stay in front, in their
    order, and every record added is the result [FetchAndAnalyzeData]
    gives for its own address, one of the addresses scraped. *)
Theorem results_only_grow (files : list DirEntry) (st : state) :
  ∃ new, allResults (process_files files st) = allResults st ++ new
    ∧ ∀ r, r ∈ new →
        (FetchAndAnalyzeData (Result_Address r)).2 = inr (Some r)
        ∧ Result_Address r ∈ scraped files st.
Proof.
  revert st. induction files as [|file rest IH]; intros st.
  - exists []. simpl. rewrite app_nil_r. split; [done|].
    intros r Hin. by apply elem_of_nil in Hin.
  - destruct (process_file_results file st) as (new1 & Hn1 & Hp1).
    destruct (IH (process_file file st)) as (new2 & Hn2 & Hp2).
    exists (new1 ++ new2). cbn [process_files]. rewrite Hn2, Hn1, <- app_assoc.
    split; [done|]. intros r Hin. apply elem_of_app in Hin as [Hin|Hin].
    + destruct (Hp1 r Hin) as [Hres Hs]. split; [done|].
      cbn [scraped] in *. rewrite app_nil_r in Hs. apply elem_of_app. by left.
    + destruct (Hp2 r Hin) as [Hres Hs]. split; [done|].
      cbn [scraped]. apply elem_of_app. by right.
Qed.

(** Where the results of a run come from. *)
Lemma process_files_origin (files : list DirEntry) (st : state) :
  ∃ new, allResults (process_files files st) = allResults st ++ new
    ∧ ∀ r, r ∈ new → (FetchAndAnalyzeData (Result_Address r)).2 = inr (Some r).
Proof.
  revert st. induction files as [|file rest IH]; intros st.
  - exists []. simpl. rewrite app_nil_r. split; [done|].
    intros r Hin. by apply elem_of_nil in Hin.
  - destruct (process_file_results file st) as (new1 & Hn1 & Hp1).
    destruct (IH (process_file file st)) as (new2 & Hn2 & Hp2).
    exists (new1 ++ new2). cbn [process_files]. rewrite Hn2, Hn1, <- app_assoc.
    split; [done|]. intros r Hin. apply elem_of_app in Hin as [Hin|Hin].
    + by destruct (Hp1 r Hin).
    + by apply Hp2.
Qed.

(** The labels of the results keep the marker of the win-rate. *)
Lemma process_files_labelled (files : list DirEntry) (st : state) :
  Forall (λ r, Contains (Result_Label r) "winrate:" = true) (allResults st) →
  Forall (λ r, Contains (Result_Label r) "winrate:" = true)
    (allResults (process_files files st)).
Proof.
  revert st. induction files as [|file rest IH]; intros st Hst; [done|].
  cbn [process_files]. apply IH.
  destruct (process_file_results file st) as (new & -> & Hp).
  apply Forall_app. split; [done|]. apply Forall_forall. intros r Hr.
  destruct (Hp r Hr) as [Hf _]. by destruct (fetch_result _ _ Hf).
Qed.

Lemma process_file_frame (file : DirEntry) (st : state) (path : string) :
  path ≠ "ad.json" →
  (wanted file = true → path ≠ Join "ad_json" (Name file)) →
  disk (process_file file st) !! path = disk st !! path.
Proof.
  intros Hp Hf. destruct (wanted file) eqn:Hw.
  2:{ unfold process_file. by rewrite Hw. }
  specialize (Hf eq_refl).
  destruct (readAddressesFromFile (disk st) (Join "ad_json" (Name file)))
    as [err|addresses] eqn:Hr.
  { unfold process_file. by rewrite Hw, Hr. }
  rewrite (process_file_read file st addresses Hw Hr). cbv zeta.
  destruct (qualifying addresses) as [|item kept].
  - unfold Remove. destruct (disk st !! Join "ad_json" (Name file)).
    + destruct (Remove_fails _ _); rewrite save_total_disk by done; simpl; [done|].
      by rewrite lookup_delete_ne.
    + by rewrite save_total_disk.
  - unfold WriteFile. destruct (WriteFile_fails _ _); [done|].
    rewrite save_total_disk by done. simpl. by rewrite lookup_insert_ne.
Qed.

Lemma process_files_frame (files : list DirEntry) (st : state) (path : string) :
  path ≠ "ad.json" →
  (∀ file, file ∈ files → wanted file = true → path ≠ Join "ad_json" (Name file)) →
  disk (process_files files st) !! path = disk st !! path.
Proof.
  intros Hp. revert st. induction files as [|file rest IH]; intros st Hf; [done|].
  cbn [process_files]. rewrite IH.
  - apply process_file_frame; [done|]. apply Hf, list_elem_of_here.
  - intros f Hin. by apply Hf, list_elem_of_further.
Qed.

Lemma original_labels_state (files : list DirEntry) (st : state)
    (originalLabels : gmap string string) :
  disk (original_labels files st originalLabels).2 = disk st
  ∧ allResults (original_labels files st originalLabels).2 = allResults st.
Proof.
  revert st originalLabels. induction files as [|file rest IH]; intros st m; [done|].
  cbn [original_labels]. destruct (wanted file); [|apply IH].
  destruct (readAddressesFromFile _ _); [|apply IH].
  destruct (IH (log (LogReadFailed (Name file) e) st) m) as [-> ->]. done.
Qed.

(** The text of the results, in closed form. *)
Lemma txt_results_spec (filteredResults : list Result) (originalLabels : gmap string string)
    (st : state) :
  txt_results filteredResults originalLabels st
  = (txt_lines (output_item originalLabels <$> filteredResults),
     mkState (disk st) (allResults st)
       (trace st
        ++ ((λ r, Log (LogNoOriginalLabel (Result_Address r)))
              <$> filter (λ r, originalLabels !! Result_Address r = None) filteredResults))).
Proof.
  revert st. induction filteredResults as [|r rest IH]; intros st.
  - simpl. rewrite app_nil_r. by destruct st.
  - cbn [txt_results]. rewrite filter_cons, fmap_cons.
    unfold output_item at 1. cbn [txt_lines Item_Address Item_Label].
    destruct (originalLabels !! Result_Address r) as [label|] eqn:Hl.
    + rewrite IH. destruct (decide _) as [Hd|Hd]; [done|]. done.
    + rewrite IH. destruct (decide _) as [Hd|Hd]; [|done].
      rewrite fmap_cons. simpl. by rewrite <- app_assoc.
Qed.

Lemma foldl_labels (addresses : list AddressItem) (m : gmap string string) (a : string) :
  foldl (λ m addr, <[Item_Address addr := Item_Label addr]> m) m addresses !! a
  = match last (filter (λ it, Item_Address it = a) addresses) with
    | Some it => Some (Item_Label it)
    | None => m !! a
    end.
Proof.
  revert m. induction addresses as [|it rest IH]; intros m; [done|].
  cbn [foldl]. rewrite IH, filter_cons.
  destruct (decide (Item_Address it = a)) as [Ha|Ha].
  - destruct (filter _ rest) as [|x l] eqn:Hf.
    + simpl. by rewrite <- Ha, lookup_insert_eq.
    + rewrite last_cons_cons. destruct (last (x :: l)) eqn:Hlast; [done|].
      by apply last_None in Hlast.
  - destruct (last (filter _ rest)); [done|]. by rewrite lookup_insert_ne.
Qed.

Lemma original_labels_spec (files : list DirEntry) (st : state)
    (originalLabels : gmap string string) :
  (original_labels files st originalLabels).1
  = foldl (λ m addr, <[Item_Address addr := Item_Label addr]> m) originalLabels
      (listed_items (disk st) files).
Proof.
  revert st originalLabels. induction files as [|file rest IH]; intros st m; [done|].
  cbn [original_labels listed_items flat_map]. fold (listed_items (disk st) rest).
  destruct (wanted file); [|apply IH].
  destruct (readAddressesFromFile _ _) as [err|addresses].
  - rewrite IH. done.
  - rewrite IH, foldl_app. done.
Qed.

(** X14. The second pass over the files gives an address the label of the
    last record that holds it, in the order of the listing and of the
    files; an address that no file holds has none. A file that cannot be
    read is passed over, and the disk is not touched. *)
Theorem original_labels_last_wins (files : list DirEntry) (st : state) (a : string) :
  (original_labels files st ∅).1 !! a
  = Item_Label <$> last (filter (λ it, Item_Address it = a) (listed_items (disk st) files))
  ∧ disk (original_labels files st ∅).2 = disk st.
Proof.
  split; [|apply original_labels_state].
  rewrite original_labels_spec, foldl_labels.
  by destruct (last _).
Qed.
(** X15. The text of the results holds one line for each record that is
    left after the deduplication, in the same order: the address of the
    record with the label of the last record of the files that holds that
    address, or with the label of the result itself when no file that can
    be read holds it; one warning is logged for each record of the second
    kind. Building the text does not touch the disk. *)
Theorem text_output_lines (files : list DirEntry) (st : state)
    (filteredResults : list Result) :
  let pass := original_labels files st ∅ in
  let out := txt_results filteredResults pass.1 pass.2 in
  out.1
  = txt_lines
      ((λ r, mkAddressItem (Result_Address r)
               (default (Result_Label r)
                  (Item_Label
                     <$> last (filter (λ it, Item_Address it = Result_Address r)
                                 (listed_items (disk st) files)))))
         <$> filteredResults)
  ∧ trace out.2
    = trace pass.2
      ++ ((λ r, Log (LogNoOriginalLabel (Result_Address r)))
            <$> filter (λ r, last (filter (λ it, Item_Address it = Result_Address r)
                                     (listed_items (disk st) files)) = None)
                  filteredResults)
  ∧ disk out.2 = disk st.
Proof.
  cbv zeta. rewrite txt_results_spec. cbn [fst snd disk trace].
  assert (Hlabel : ∀ a,
    (original_labels files st ∅).1 !! a
    = Item_Label <$> last (filter (λ it, Item_Address it = a) (listed_items (disk st) files))).
  { intros a. rewrite original_labels_spec, foldl_labels. by destruct (last _). }
  split; [|split].
  - f_equal. apply list_fmap_ext. intros i r _. unfold output_item. by rewrite Hlabel.
  - f_equal. f_equal. apply list_filter_iff. intros r. rewrite Hlabel.
    by destruct (last _).
  - apply original_labels_state.
Qed.
End RunFurther.

Section WholeRun.
Context {fmt : Fmt} {browser : Browser} {dsk : Disk}.

Lemma labelled_empty : labelled ∅.
Proof. intros a r Hr. by rewrite lookup_empty in Hr. Qed.

(** X16. A run of program B whose earlier results, if [ad.json] holds
    any, all carry the marker of the win-rate does not panic: every label
    the run itself produces carries the marker, so the split in
    [deduplicateAndFilter] always has its element 1. In particular a run
    that starts without [ad.json] always ends. *)
Theorem analyzer_never_panics (d : gmap string string) :
  (∀ content, d !! "ad.json" = Some content →
     Forall (λ p, Contains p.2 "winrate:" = true) (Json.Unmarshal content).1) →
  (∃ st err, processAddressFiles d = Ok (st, err)) ∧ (∃ st, main_B d = Ok st).
Proof.
  intros Hearlier.
  assert (Hrun : ∃ st err, processAddressFiles d = Ok (st, err)).
  { unfold processAddressFiles.
    destruct (ReadDir d "ad_json") as [files|]; [|by eauto]. cbv zeta.
    set (earlier := match ReadFile d "ad.json" with
                    | Some resultContent =>
                        result_of_pair <$> (Json.Unmarshal resultContent).1
                    | None => []
                    end).
    assert (He : Forall (λ r, Contains (Result_Label r) "winrate:" = true) earlier).
    { unfold earlier, ReadFile. destruct (d !! "ad.json") as [content|] eqn:Hc; [|constructor].
      apply Forall_fmap. eapply Forall_impl; [by apply Hearlier|]. by intros [a l]. }
    set (st0 := process_files files (mkState d earlier [])).
    assert (Hall : Forall (λ r, Contains (Result_Label r) "winrate:" = true) (allResults st0)).
    { by apply process_files_labelled. }
    destruct (dedup_loop_total (allResults st0) ∅ [] labelled_empty Hall) as (m & lines & Hl).
    unfold deduplicateAndFilter. rewrite Hl. simpl.
    destruct (WriteFile _ _ _) as [d1|]; [|by eauto].
    destruct (MkdirAll_fails d1 "ad_txt"); [by eauto|].
    destruct (ReadDir d1 "ad_json") as [files2|]; [|by eauto].
    destruct (original_labels _ _ _) as [originalLabels st2].
    destruct (txt_results _ _ _) as [text st3].
    destruct (WriteFile _ _ _); by eauto. }
  split; [done|]. destruct Hrun as (st & err & Hrun). unfold main_B. rewrite Hrun. simpl.
  destruct err; by eauto.
Qed.

(** X17. A run of program B changes nothing on the disk but the total
    [ad.json], the text output [ad_txt/addresses.txt] and the files of the
    listing of [ad_json] that are not directories and are named [.json] or
    [.txt]: every other path holds at the end what it held at the start. *)
Theorem analyzer_touches_only_its_files (d : gmap string string) (files : list DirEntry)
    (st : state) (err : option error) (path : string) :
  ReadDir d "ad_json" = Some files →
  processAddressFiles d = Ok (st, err) →
  path ≠ "ad.json" →
  path ≠ Join "ad_txt" "addresses.txt" →
  (∀ file, file ∈ files → wanted file = true → path ≠ Join "ad_json" (Name file)) →
  disk st !! path = d !! path.
Proof.
  intros Hdir Hrun Hp1 Hp2 Hfiles. unfold processAddressFiles in Hrun.
  rewrite Hdir in Hrun. cbv zeta in Hrun.
  set (st0 := process_files files _) in Hrun.
  assert (H0 : disk st0 !! path = d !! path).
  { unfold st0. by rewrite process_files_frame. }
  clear Hdir.
  destruct (deduplicateAndFilter (allResults st0)) as [[filtered lines]|]; simpl in Hrun;
    [|done].
  unfold WriteFile in Hrun at 1. cbn [disk] in Hrun.
  destruct (WriteFile_fails (disk st0) "ad.json"); [by injection Hrun as <- _|].
  destruct (MkdirAll_fails _ _); cbv iota in Hrun.
  { injection Hrun as <- _. simpl. by rewrite lookup_insert_ne. }
  destruct (ReadDir _ _) as [files2|]; cbv iota in Hrun.
  2:{ injection Hrun as <- _. simpl. by rewrite lookup_insert_ne. }
  destruct (original_labels files2 _ ∅) as [originalLabels st2] eqn:Ho.
  pose proof (original_labels_state files2
                (set_disk (<["ad.json" := MarshalIndent_results filtered]> (disk st0))
                   (mkState (disk st0) (allResults st0) (trace st0 ++ (Log <$> lines)))) ∅)
    as [Hd2 _].
  rewrite Ho in Hd2. simpl in Hd2.
  rewrite txt_results_spec in Hrun. unfold WriteFile in Hrun. cbn [disk] in Hrun.
  destruct (WriteFile_fails (disk st2) _); injection Hrun as <- _; simpl;
    rewrite ?lookup_insert_ne by done; rewrite Hd2; by rewrite lookup_insert_ne.
Qed.

(** X18. When [processAddressFiles] returns without error, [ad.json]
    holds the JSON of the deduplicated results, whose addresses are all
    different, and [ad_txt/addresses.txt] holds the title followed by one
    line for each of these records, in the same order and with the same
    address. *)
Theorem analyzer_outputs (d : gmap string string) (st : state) :
  processAddressFiles d = Ok (st, None) →
  ∃ filtered lines originalLabels,
    deduplicateAndFilter (allResults st) = Ok (filtered, lines)
    ∧ NoDup (Result_Address <$> filtered)
    ∧ disk st !! "ad.json" = Some (MarshalIndent_results filtered)
    ∧ disk st !! Join "ad_txt" "addresses.txt"
      = Some (txt_content (output_item originalLabels <$> filtered))
    ∧ Item_Address <$> (output_item originalLabels <$> filtered)
      = Result_Address <$> filtered.
Proof.
  intros Hrun. unfold processAddressFiles in Hrun.
  destruct (ReadDir d "ad_json") as [files|]; [|done]. cbv zeta in Hrun.
  set (st0 := process_files files _) in Hrun.
  destruct (deduplicateAndFilter (allResults st0)) as [[filtered lines]|] eqn:Hd;
    simpl in Hrun; [|done].
  unfold WriteFile in Hrun at 1. cbn [disk] in Hrun.
  destruct (WriteFile_fails (disk st0) "ad.json"); [done|].
  destruct (MkdirAll_fails _ _); [done|].
  destruct (ReadDir _ _) as [files2|]; [|done].
  destruct (original_labels files2 _ ∅) as [originalLabels st2] eqn:Ho.
  pose proof (original_labels_state files2
                (set_disk (<["ad.json" := MarshalIndent_results filtered]> (disk st0))
                   (mkState (disk st0) (allResults st0) (trace st0 ++ (Log <$> lines)))) ∅)
    as [Hd2 Ha2].
  rewrite Ho in Hd2, Ha2. simpl in Hd2, Ha2.
  rewrite txt_results_spec in Hrun. unfold WriteFile in Hrun. cbn [disk] in Hrun.
  destruct (WriteFile_fails (disk st2) _); [done|]. injection Hrun as <-.
  exists filtered, lines, originalLabels. simpl. rewrite Ha2.
  split; [done|]. split.
  { destruct (dedup_output _ _ _ Hd) as (m & _ & Hm & -> & _).
    rewrite (map_ok_addresses m Hm). apply NoDup_fst_map_to_list. }
  split.
  { rewrite lookup_insert_ne by done. rewrite Hd2. by rewrite lookup_insert_eq. }
  split.
  { by rewrite lookup_insert_eq. }
  rewrite <- list_fmap_compose. by apply list_fmap_ext.
Qed.
End WholeRun.

(** ** The records kept and the results *)

Lemma SFleb_trans (a b c : float64) :
  SFleb a b = true → SFleb b c = true → SFleb a c = true.
Proof.
  unfold SFleb.
  destruct a as [sa|sa| |sa ma ea], b as [sb|sb| |sb mb eb], c as [sc|sc| |sc mc ec];
    simpl; try done;
    repeat match goal with s : bool |- _ => destruct s end; simpl; try done;
    cmp_cases; simpl; try done; try lia.
Qed.

Section KeptRecords.
Context {fmt : Fmt} {browser : Browser} {dsk : Disk}.

Lemma fetched_addresses (addresses : list AddressItem) :
  Result_Address <$> omap fetched addresses = Item_Address <$> qualifying addresses.
Proof.
  unfold qualifying. induction addresses as [|item rest IH]; [done|].
  rewrite filter_cons. cbn [omap list_omap].
  destruct (fetched item) as [r|] eqn:Hf.
  - destruct (decide (is_Some (Some r))) as [_|Hn]; [|by exfalso; apply Hn; eexists].
    rewrite !fmap_cons, IH. f_equal. by destruct (fetched_spec item r Hf).
  - destruct (decide (is_Some None)) as [Hs|_]; [by destruct Hs|done].
Qed.

(** X19. The loop over the addresses of a file keeps a record and a
    result together: the results it returns have, in the same order, the
    addresses of the records it keeps, and these are records of the file
    in the order of the file. *)
Theorem kept_addresses_match_results (addresses valid : list AddressItem)
    (results : list Result) (tr tr' : list event) :
  scrape addresses [] [] tr = (valid, results, tr') →
  Result_Address <$> results = Item_Address <$> valid
  ∧ length results = length valid
  ∧ valid `sublist_of` addresses.
Proof.
  rewrite scrape_spec. intros [= <- <- _]. simpl.
  pose proof (fetched_addresses addresses) as Ha. split; [done|]. split.
  - by rewrite <- (length_fmap Result_Address), Ha, length_fmap.
  - apply sublist_filter.
Qed.

(** X20. The total is saved as soon as a file is done: after the round of
    a file some of whose addresses qualify, when the writes succeed, the
    results of the file have joined those found before and [ad.json]
    holds the JSON of all of them, not yet deduplicated. *)
Theorem total_saved_after_each_file (file : DirEntry) (st : state)
    (addresses : list AddressItem) :
  wanted file = true →
  readAddressesFromFile (disk st) (Join "ad_json" (Name file)) = inr addresses →
  qualifying addresses ≠ [] →
  (∀ d path, WriteFile_fails d path = false) →
  allResults (process_file file st) = allResults st ++ omap fetched addresses
  ∧ disk (process_file file st) !! "ad.json"
    = Some (MarshalIndent_results (allResults st ++ omap fetched addresses)).
Proof.
  intros Hw Hr Hq Hwf.
  rewrite (process_file_read file st addresses Hw Hr). cbv zeta.
  pose proof (fetched_addresses addresses) as Ha.
  destruct (qualifying addresses) as [|item kept]; [done|].
  unfold WriteFile at 1. rewrite Hwf. rewrite save_total_results. split; [done|].
  unfold save_total. destruct (omap fetched addresses) as [|r rs]; [done|].
  unfold WriteFile. rewrite !Hwf. simpl. by rewrite lookup_insert_eq.
Qed.
End KeptRecords.

Section RuleOrder.
Context {fmt : Fmt} {browser : Browser}.

(** X21. The rule is monotone: when the page of an address qualifies, so
    does every page whose total profit, balance and win-rate are at least
    as large. *)
Theorem qualification_is_monotone (a1 a2 j1 j2 : string) (d1 d2 : AddrData) :
  chromedp_Run 30 (apiURL a1) = Some j1 → Unmarshal_AddrData j1 = Some d1 →
  chromedp_Run 30 (apiURL a2) = Some j2 → Unmarshal_AddrData j2 = Some d2 →
  le64 (number_of (TotalProfit (PageProps_AddressInfo d1)))
       (number_of (TotalProfit (PageProps_AddressInfo d2))) = true →
  le64 (number_of (SolBalance (PageProps_AddressInfo d1)))
       (number_of (SolBalance (PageProps_AddressInfo d2))) = true →
  le64 (number_of (WinRate (PageProps_AddressInfo d1)))
       (number_of (WinRate (PageProps_AddressInfo d2))) = true →
  (∃ r, (FetchAndAnalyzeData a1).2 = inr (Some r)) →
  ∃ r, (FetchAndAnalyzeData a2).2 = inr (Some r).
Proof.
  intros Hr1 Hd1 Hr2 Hd2 Htp Hsb Hwr [r Hq].
  rewrite (fetch_decoded a1 j1 d1 Hr1 Hd1) in Hq.
  rewrite (fetch_decoded a2 j2 d2 Hr2 Hd2). cbv zeta in *.
  assert (Hup : ∀ c x y, ge64 x c = true → le64 x y = true → ge64 y c = true).
  { intros c x y Hc Hxy. unfold ge64, le64 in *. by eapply SFleb_trans. }
  destruct (_ || _) eqn:Hrule in Hq; [|done].
  apply orb_true_iff in Hrule as [Hb|Hb].
  - apply andb_true_iff in Hb as [Hb H3]. apply andb_true_iff in Hb as [H1 H2].
    rewrite (Hup _ _ _ H1 Htp), (Hup _ _ _ H2 Hsb), (Hup _ _ _ H3 Hwr). simpl. by eexists.
  - apply andb_true_iff in Hb as [H1 H3].
    rewrite (Hup _ _ _ H1 Htp), (Hup _ _ _ H3 Hwr). rewrite orb_true_r. by eexists.
Qed.
End RuleOrder.

Section EmptyRun.
Context {fmt : Fmt} {browser : Browser} {dsk : Disk}.

(** X22. When the deduplication leaves no record, because nothing was
    found or because every win-rate is [<= 0.1] or unreadable, a run that
    returns without error leaves [null] in [ad.json], not an empty array,
    and the title alone in [ad_txt/addresses.txt]. *)
Theorem empty_run_outputs (d : gmap string string) (st : state) (lines : list log_entry) :
  processAddressFiles d = Ok (st, None) →
  deduplicateAndFilter (allResults st) = Ok ([], lines) →
  disk st !! "ad.json" = Some "null"
  ∧ disk st !! Join "ad_txt" "addresses.txt" = Some ("address  label" +:+ Json.nl).
Proof.
  intros Hrun Hd. unfold processAddressFiles in Hrun.
  destruct (ReadDir d "ad_json") as [files|]; [|done]. cbv zeta in Hrun.
  set (st0 := process_files files _) in Hrun.
  destruct (deduplicateAndFilter (allResults st0)) as [[filtered lines0]|] eqn:Hd0;
    simpl in Hrun; [|done].
  unfold WriteFile in Hrun at 1. cbn [disk] in Hrun.
  destruct (WriteFile_fails (disk st0) "ad.json"); [done|].
  destruct (MkdirAll_fails _ _); [done|].
  destruct (ReadDir _ _) as [files2|]; [|done].
  destruct (original_labels files2 _ ∅) as [originalLabels st2] eqn:Ho.
  pose proof (original_labels_state files2
                (set_disk (<["ad.json" := MarshalIndent_results filtered]> (disk st0))
                   (mkState (disk st0) (allResults st0) (trace st0 ++ (Log <$> lines0)))) ∅)
    as [Hd2 Ha2].
  rewrite Ho in Hd2, Ha2. simpl in Hd2, Ha2.
  rewrite txt_results_spec in Hrun. unfold WriteFile in Hrun. cbn [disk] in Hrun.
  destruct (WriteFile_fails (disk st2) _); [done|]. injection Hrun as <-.
  simpl in Hd. rewrite Ha2, Hd0 in Hd. injection Hd as -> _. simpl. split.
  - rewrite lookup_insert_ne by done. rewrite Hd2. by rewrite lookup_insert_eq.
  - by rewrite lookup_insert_eq.
Qed.
End EmptyRun.

Section FailedRun.
Context {fmt : Fmt} {browser : Browser} {dsk : Disk}.

End FailedRun.

Section Provenance.
Context {fmt : Fmt} {browser : Browser} {dsk : Disk}.

Lemma run_results (d : gmap string string) (files : list DirEntry) (st : state)
    (err : option error) :
  ReadDir d "ad_json" = Some files →
  processAddressFiles d = Ok (st, err) →
  allResults st = allResults (process_files files (mkState d (earlier_results d) [])).
Proof.
  intros Hdir Hrun. unfold processAddressFiles in Hrun. rewrite Hdir in Hrun.
  cbv zeta in Hrun. fold (earlier_results d) in Hrun. clear Hdir.
  set (st0 := process_files files _) in *.
  destruct (deduplicateAndFilter (allResults st0)) as [[filtered lines]|]; simpl in Hrun;
    [|done].
  unfold WriteFile in Hrun at 1. cbn [disk] in Hrun.
  destruct (WriteFile_fails (disk st0) "ad.json"); cbv iota in Hrun;
    [by injection Hrun as <- _|].
  destruct (MkdirAll_fails _ _); cbv iota in Hrun; [by injection Hrun as <- _|].
  destruct (ReadDir _ _) as [files2|]; cbv iota in Hrun; [|by injection Hrun as <- _].
  destruct (original_labels files2 _ ∅) as [originalLabels st2] eqn:Ho.
  pose proof (original_labels_state files2
                (set_disk (<["ad.json" := MarshalIndent_results filtered]> (disk st0))
                   (mkState (disk st0) (allResults st0) (trace st0 ++ (Log <$> lines)))) ∅)
    as [_ Ha2].
  rewrite Ho in Ha2. simpl in Ha2.
  rewrite txt_results_spec in Hrun. unfold WriteFile in Hrun. cbn [disk] in Hrun.
  destruct (WriteFile_fails (disk st2) _); by injection Hrun as <- _.
Qed.

(** X24. The run invents no record: each record that is left after the
    deduplication, the content of [ad.json] at the end, is either a record
    of the [ad.json] of an earlier run or the result
    [FetchAndAnalyzeData] gives in this run for its own address; and its
    win-rate, as read in its label, is not [<= 0.1]. *)
Theorem final_records_provenance (d : gmap string string) (files : list DirEntry)
    (st : state) (err : option error) (filtered : list Result) (lines : list log_entry)
    (r : Result) :
  ReadDir d "ad_json" = Some files →
  processAddressFiles d = Ok (st, err) →
  deduplicateAndFilter (allResults st) = Ok (filtered, lines) →
  r ∈ filtered →
  (r ∈ earlier_results d ∨ (FetchAndAnalyzeData (Result_Address r)).2 = inr (Some r))
  ∧ ∃ w, candidate r w.
Proof.
  intros Hdir Hrun Hd Hr.
  destruct (dedup_kept_position _ _ _ r Hd Hr) as (w & l1 & l2 & Hall & Hc & _).
  split; [|by exists w].
  assert (Hin : r ∈ allResults st).
  { rewrite Hall. apply elem_of_app. right. apply list_elem_of_here. }
  rewrite (run_results d files st err Hdir Hrun) in Hin.
  destruct (process_files_origin files (mkState d (earlier_results d) []))
    as (new & Hnew & Hp).
  rewrite Hnew in Hin. apply elem_of_app in Hin as [Hin|Hin]; [by left|].
  right. by destruct (Hp r Hin).
Qed.
End Provenance.

(** ** The win-rate in the label *)

Lemma no_w_append (a b : string) : no_w a → no_w b → no_w (a +:+ b).
Proof. unfold no_w. rewrite list_ascii_append. intros Ha Hb. by apply Forall_app. Qed.

(** The first marker after a text without [w] is the first of the whole. *)
Lemma Cut_after (q y : string) :
  no_w q →
  Cut (q +:+ y) "winrate:"
  = match Cut y "winrate:" with
    | Some (a, b) => Some (q +:+ a, b)
    | None => None
    end.
Proof.
  induction q as [|c q IH]; intros Hq.
  - change (EmptyString +:+ y) with y. by destruct (Cut y "winrate:") as [[a b]|].
  - inversion Hq as [|? ? Hc Hq']; subst. rewrite append_cons, Cut_eq.
    cbn [HasPrefix]. destruct (Ascii.eqb_spec "w" c) as [Heq|_]; [by subst c|].
    rewrite (IH Hq'). by destruct (Cut y "winrate:") as [[a b]|].
Qed.

Lemma Cut_marker (x : string) : Cut ("winrate:" +:+ x) "winrate:" = Some (EmptyString, x).
Proof. by rewrite Cut_eq, HasPrefix_append. Qed.

Section LabelText.
Context {fmt : Fmt}.

(** X25. The win-rate that [deduplicateAndFilter] reads in a label made by
    [FetchAndAnalyzeData] is scanned from the text of the win-rate with
    three decimals, followed by the name up to a marker in it: as the
    formatted numbers hold no letter [w], the texts of the profit and of
    the balance are never taken for it, and the split always has its
    element 1. *)
Theorem label_winrate_text (totalProfit solBalance winRate : float64) (name : string) :
  (∀ n x, no_w (Sprintf_f n x)) →
  parse_winrate (format_label totalProfit solBalance winRate name)
  = Ok (Sscanf_f (Sprintf_f 3 winRate +:+ ",name:" +:+ before_marker name)).
Proof.
  intros Hfmt. unfold parse_winrate, format_label.
  set (p := "profit:" +:+ Sprintf_f 2 totalProfit +:+ ",balance:"
            +:+ Sprintf_f 2 solBalance +:+ ",").
  set (q := Sprintf_f 3 winRate +:+ ",name:").
  assert (Hlabel : "profit:" +:+ Sprintf_f 2 totalProfit +:+ ",balance:"
                   +:+ Sprintf_f 2 solBalance +:+ ",winrate:" +:+ Sprintf_f 3 winRate
                   +:+ ",name:" +:+ name
                   = p +:+ "winrate:" +:+ q +:+ name).
  { unfold p, q. rewrite !append_assoc. reflexivity. }
  rewrite Hlabel.
  assert (Hp : no_w p).
  { unfold p. repeat apply no_w_append; try apply Hfmt; repeat constructor; done. }
  assert (Hq : no_w q).
  { unfold q. apply no_w_append; [apply Hfmt|]. repeat constructor; done. }
  assert (Hcut : Cut (p +:+ "winrate:" +:+ q +:+ name) "winrate:" = Some (p, q +:+ name)).
  { rewrite (Cut_after p _ Hp), Cut_marker. by rewrite append_nil_r. }
  assert (Hrest : ∃ rest, split_loop (String.length (q +:+ name)) (q +:+ name) "winrate:"
                          = (q +:+ before_marker name) :: rest).
  { destruct (String.length (q +:+ name)) as [|n] eqn:Hn.
    { exfalso. unfold q in Hn. rewrite !append_length in Hn. simpl in Hn. lia. }
    cbn [split_loop]. rewrite (Cut_after q name Hq). unfold before_marker.
    destruct (Cut name "winrate:") as [[a b]|]; by eexists. }
  destruct Hrest as [rest Hrest].
  unfold Split.
  destruct (String.length (p +:+ "winrate:" +:+ q +:+ name)) as [|n] eqn:Hn.
  { exfalso. rewrite !append_length in Hn. simpl in Hn. lia. }
  cbn [split_loop]. rewrite Hcut.
  rewrite split_loop_enough, Hrest.
  - simpl. unfold q. by rewrite append_assoc.
  - done.
  - rewrite !append_length in Hn. simpl in Hn. rewrite !append_length. lia.
Qed.
End LabelText.

(** What [Sprintf] writes holds no letter [w]. *)
Lemma no_w_digits_from (u : Decimal.uint) : no_w (NilEmpty.string_of_uint u).
Proof.
  induction u; unfold no_w in *; simpl; [constructor|..]; (constructor; [done|assumption]).
Qed.

Lemma no_w_digits (u : Decimal.uint) : no_w (NilZero.string_of_uint u).
Proof.
  destruct u; try apply no_w_digits_from. repeat constructor; done.
Qed.

Lemma no_w_zeros (n : nat) : no_w (GoFmt.zeros n).
Proof. induction n; unfold no_w in *; simpl; [constructor|]. by constructor. Qed.

Lemma no_w_substring (s : string) (i k : nat) : no_w s → no_w (String.substring i k s).
Proof.
  revert i k. induction s as [|c s IH]; intros i k Hs.
  - by destruct i, k.
  - inversion Hs as [|? ? Hc Hs']; subst. destruct i as [|i].
    + destruct k as [|k]; [constructor|]. simpl. constructor; [done|]. by apply IH.
    + simpl. by apply IH.
Qed.

Lemma no_w_drop (s : string) (k : nat) : no_w s → no_w (string_drop k s).
Proof.
  revert s. induction k as [|k IH]; intros s Hs; [done|].
  destruct s as [|c s]; [done|]. inversion Hs; subst. simpl. by apply IH.
Qed.

Lemma no_w_fixed (neg : bool) (scaled : Z) (n : nat) : no_w (GoFmt.fixed neg scaled n).
Proof.
  unfold GoFmt.fixed, GoFmt.string_take, GoFmt.digits_of_Z.
  set (d := GoFmt.zeros _ +:+ _).
  assert (Hd : no_w d).
  { apply no_w_append; [apply no_w_zeros|apply no_w_digits]. }
  apply no_w_append; [destruct neg; repeat constructor; done|].
  apply no_w_append; [by apply no_w_substring|].
  destruct n; [constructor|]. apply no_w_append; [repeat constructor; done|].
  by apply no_w_drop.
Qed.

Lemma go_Sprintf_no_w (n : nat) (x : float64) : no_w (GoFmt.go_Sprintf_f n x).
Proof.
  destruct x as [s|s| |s m e]; simpl.
  - apply no_w_fixed.
  - destruct s; repeat constructor; done.
  - repeat constructor; done.
  - apply no_w_fixed.
Qed.

(** ** The further properties on the sample inputs *)

Lemma fetcher_touches_only_channel_files_witness :
  match main_A (net := sample_network) (dsk := sound_disk) ["fetch"; "gone"; "one"]
          (mkStateA sample_disk []) with
  | Ok st' => disk_A st' !! "ad_json/notes.txt" = sample_disk !! "ad_json/notes.txt"
  | Panic => False
  end.
Proof.
  destruct (main_A (net := sample_network) (dsk := sound_disk) ["fetch"; "gone"; "one"]
              (mkStateA sample_disk [])) as [st'|] eqn:Hrun.
  - apply (fetcher_touches_only_channel_files (net := sample_network) (dsk := sound_disk)
             ["fetch"; "gone"; "one"] (mkStateA sample_disk []) st' "ad_json/notes.txt" Hrun).
    intros c Hc. simpl in Hc.
    apply elem_of_cons in Hc as [->|Hc]; [discriminate|].
    apply elem_of_cons in Hc as [->|Hc]; [discriminate|]. by apply elem_of_nil in Hc.
  - vm_compute in Hrun. discriminate Hrun.
Defined.

Lemma fetcher_file_read_by_analyzer_witness :
  ∃ st', process_channel (net := sample_network) (dsk := sound_disk) "one" (mkStateA ∅ [])
         = Ok st'
    ∧ readAddressesFromFile (disk_A st') "one.json"
      = inr [mkAddressItem "W1" "alpha"; mkAddressItem "W3" "gamma"].
Proof.
  apply (fetcher_file_read_by_analyzer (net := sample_network) (dsk := sound_disk) "one"
           (mkStateA ∅ [])
           (mkWalletItem [ mkWalletEntry "W1" ["alpha"; "beta"]; mkWalletEntry "W2" [];
                           mkWalletEntry "W3" ["gamma"] ]) []).
  - reflexivity.
  - reflexivity.
  - repeat constructor.
Defined.

Lemma fetcher_writes_null_without_labels_witness :
  ∃ st', process_channel (net := quiet_network) (dsk := sound_disk) "mute" (mkStateA ∅ [])
         = Ok st'
    ∧ disk_A st' !! "mute.json" = Some "null".
Proof.
  apply (fetcher_writes_null_without_labels (net := quiet_network) (dsk := sound_disk) "mute"
           (mkStateA ∅ []) (mkWalletItem [ mkWalletEntry "W4" []; mkWalletEntry "W5" [] ]) []).
  - reflexivity.
  - reflexivity.
  - repeat constructor.
Defined.

Lemma sample_text_records :
  Forall txt_record [mkAddressItem "RICH" "big whale"; mkAddressItem "KEEN" "sharp trader"]
  ∧ Forall fits [mkAddressItem "RICH" "big whale"; mkAddressItem "KEEN" "sharp trader"].
Proof.
  split.
  - repeat (constructor; [by (split; [|split]; vm_compute)|]). constructor.
  - repeat (constructor; [by vm_compute|]). constructor.
Qed.

Lemma txt_round_trip_witness :
  Forall txt_record [mkAddressItem "RICH" "big whale"; mkAddressItem "POOR" "small";
                     mkAddressItem "KEEN" "sharp trader"]
  ∧ readAddressesFromFile
      (<["ad_json/list.txt" := txt_content [mkAddressItem "RICH" "big whale";
                                             mkAddressItem "KEEN" "sharp trader"]]>
         earlier_disk)
      "ad_json/list.txt"
    = inr [mkAddressItem "RICH" "big whale"; mkAddressItem "KEEN" "sharp trader"].
Proof.
  split.
  - apply (proj1 (txt_round_trip (dsk := sound_disk) earlier_disk earlier_disk
                    "ad_json/list.txt" _ eq_refl)).
    vm_compute. reflexivity.
  - apply (proj2 (txt_round_trip (dsk := sound_disk) earlier_disk _
                    "ad_json/list.txt" _ eq_refl)).
    + apply sample_text_records.
    + apply sample_text_records.
    + reflexivity.
Defined.

Lemma record_on_first_line_is_lost_witness :
  read_txt (txt_lines [mkAddressItem "RICH" "big whale"; mkAddressItem "KEEN" "sharp trader"])
  = inr [mkAddressItem "KEEN" "sharp trader"].
Proof.
  apply (record_on_first_line_is_lost (mkAddressItem "RICH" "big whale")
           [mkAddressItem "KEEN" "sharp trader"]); apply sample_text_records.
Defined.

Lemma wanted_file_format_supported_witness :
  (∀ ext, readAddressesFromFile sample_disk (Join "ad_json" "gone.txt")
          ≠ inl (ErrFormat ext))
  ∧ readAddressesFromFile sample_disk (Join "ad_json" "gone.txt") = inl ErrReadFile.
Proof.
  destruct (wanted_file_format_supported sample_disk (mkDirEntry "gone.txt" false) eq_refl)
    as [Hformat Hgone].
  split; [exact Hformat|]. apply Hgone. reflexivity.
Defined.

Lemma rewritten_file_reads_back_witness :
  readAddressesFromFile
    (disk (process_file (fmt := GoFmt.go_fmt) (browser := sample_browser) (dsk := text_disk)
             (mkDirEntry "list.txt" false) (mkState earlier_disk [] [])))
    (Join "ad_json" "list.txt")
  = inr (qualifying (fmt := GoFmt.go_fmt) (browser := sample_browser)
           [mkAddressItem "RICH" "big whale"; mkAddressItem "POOR" "small";
            mkAddressItem "KEEN" "sharp trader"]).
Proof.
  apply (rewritten_file_reads_back (fmt := GoFmt.go_fmt) (browser := sample_browser)
           (dsk := text_disk) (mkDirEntry "list.txt" false) (mkState earlier_disk [] [])).
  - reflexivity.
  - vm_compute. reflexivity.
  - vm_compute. discriminate.
  - reflexivity.
  - intros _. vm_compute. repeat constructor.
Defined.

Lemma unreadable_numbers_never_qualify_witness :
  (FetchAndAnalyzeData (fmt := GoFmt.go_fmt) (browser := second_browser) "BARE").2 = inr None.
Proof.
  apply (proj1 (unreadable_numbers_never_qualify (fmt := GoFmt.go_fmt)
                  (browser := second_browser) "BARE" "bare"
                  (mkAddrData (mkAddressInfo (I_float64 (float64_of_Z 5000000)) I_other
                                 (I_string "n/a") "bare"))
                  eq_refl eq_refl)).
  right. right. left. vm_compute. reflexivity.
Defined.

Lemma results_can_be_deduplicated_witness :
  Result_Address (mkResult "KEEN" "profit:10000.00,balance:0.00,winrate:0.755,name:keen")
  = "KEEN"
  ∧ ∃ p, parse_winrate (fmt := GoFmt.go_fmt)
           "profit:10000.00,balance:0.00,winrate:0.755,name:keen" = Ok p.
Proof.
  apply (results_can_be_deduplicated (fmt := GoFmt.go_fmt) (browser := sample_browser) "KEEN"
           (mkResult "KEEN" "profit:10000.00,balance:0.00,winrate:0.755,name:keen")).
  vm_compute. reflexivity.
Defined.

Lemma dedup_log_lines_witness :
  [LogWinrateFailed "E"]
  = omap (winrate_failure (fmt := GoFmt.go_fmt))
      (mkResult "E" "winrate:unknown" :: sample_results)
  ∧ ∀ address, LogExistingWinrateFailed address ∉ [LogWinrateFailed "E"].
Proof.
  apply (dedup_log_lines (fmt := GoFmt.go_fmt) (mkResult "E" "winrate:unknown" :: sample_results)
           [mkResult "A" "profit:30000.00,balance:2.00,winrate:0.900,name:second"]).
  vm_compute. reflexivity.
Defined.

Lemma dedup_idempotent_witness :
  ∃ out',
    deduplicateAndFilter (fmt := GoFmt.go_fmt)
      [mkResult "A" "profit:30000.00,balance:2.00,winrate:0.900,name:second"]
    = Ok (out', [])
    ∧ out' ≡ₚ [mkResult "A" "profit:30000.00,balance:2.00,winrate:0.900,name:second"].
Proof.
  apply (dedup_idempotent (fmt := GoFmt.go_fmt) sample_results _ _ []).
  - vm_compute. reflexivity.
  - reflexivity.
Defined.

Lemma results_only_grow_witness :
  ∃ new,
    allResults (process_files (fmt := GoFmt.go_fmt) (browser := sample_browser)
                  (dsk := text_disk) text_listing
                  (mkState earlier_disk [mkResult "OLD" "kept"] []))
    = [mkResult "OLD" "kept"] ++ new
    ∧ ∀ r, r ∈ new →
        (FetchAndAnalyzeData (fmt := GoFmt.go_fmt) (browser := sample_browser)
           (Result_Address r)).2 = inr (Some r)
        ∧ Result_Address r
          ∈ scraped (fmt := GoFmt.go_fmt) (browser := sample_browser) (dsk := text_disk)
              text_listing (mkState earlier_disk [mkResult "OLD" "kept"] []).
Proof.
  exact (results_only_grow (fmt := GoFmt.go_fmt) (browser := sample_browser) (dsk := text_disk)
           text_listing (mkState earlier_disk [mkResult "OLD" "kept"] [])).
Defined.

Lemma analyzer_never_panics_witness :
  (∃ st err, processAddressFiles (fmt := GoFmt.go_fmt) (browser := sample_browser)
               (dsk := text_disk) earlier_disk = Ok (st, err))
  ∧ (∃ st, main_B (fmt := GoFmt.go_fmt) (browser := sample_browser) (dsk := text_disk)
             earlier_disk = Ok st).
Proof.
  apply (analyzer_never_panics (fmt := GoFmt.go_fmt) (browser := sample_browser)
           (dsk := text_disk) earlier_disk).
  intros content Hc. vm_compute in Hc. injection Hc as <-.
  vm_compute. repeat constructor.
Defined.

Lemma analyzer_touches_only_its_files_witness :
  match processAddressFiles (fmt := GoFmt.go_fmt) (browser := sample_browser)
          (dsk := text_disk) earlier_disk with
  | Ok (st, _) => disk st !! "notes/todo.md" = earlier_disk !! "notes/todo.md"
  | Panic => False
  end.
Proof.
  destruct (processAddressFiles (fmt := GoFmt.go_fmt) (browser := sample_browser)
              (dsk := text_disk) earlier_disk) as [[st err]|] eqn:Hrun.
  - apply (analyzer_touches_only_its_files (fmt := GoFmt.go_fmt) (browser := sample_browser)
             (dsk := text_disk) earlier_disk text_listing st err "notes/todo.md" eq_refl Hrun).
    + discriminate.
    + discriminate.
    + intros file Hin _.
      apply elem_of_cons in Hin as [->|Hin]; [discriminate|].
      apply elem_of_cons in Hin as [->|Hin]; [discriminate|]. by apply elem_of_nil in Hin.
  - vm_compute in Hrun. discriminate Hrun.
Defined.

Lemma analyzer_outputs_witness :
  match processAddressFiles (fmt := GoFmt.go_fmt) (browser := sample_browser)
          (dsk := text_disk) earlier_disk with
  | Ok (st, None) =>
      ∃ filtered lines originalLabels,
        deduplicateAndFilter (fmt := GoFmt.go_fmt) (allResults st) = Ok (filtered, lines)
        ∧ NoDup (Result_Address <$> filtered)
        ∧ disk st !! "ad.json" = Some (MarshalIndent_results filtered)
        ∧ disk st !! Join "ad_txt" "addresses.txt"
          = Some (txt_content (output_item originalLabels <$> filtered))
        ∧ Item_Address <$> (output_item originalLabels <$> filtered)
          = Result_Address <$> filtered
  | _ => False
  end.
Proof.
  destruct (processAddressFiles (fmt := GoFmt.go_fmt) (browser := sample_browser)
              (dsk := text_disk) earlier_disk) as [[st [err|]]|] eqn:Hrun.
  - vm_compute in Hrun. discriminate Hrun.
  - exact (analyzer_outputs (fmt := GoFmt.go_fmt) (browser := sample_browser)
             (dsk := text_disk) earlier_disk st Hrun).
  - vm_compute in Hrun. discriminate Hrun.
Defined.

Lemma json_records_are_well_formed_witness :
  Forall valid_item [mkAddressItem (Json.replacement +:+ "abc") "imported"]
  ∧ Json.Unmarshal (MarshalIndent_items [mkAddressItem (Json.replacement +:+ "abc") "imported"])
    = (pair_of_item <$> [mkAddressItem (Json.replacement +:+ "abc") "imported"], false).
Proof.
  apply (json_records_are_well_formed
           (<["ad_json/copy.json" :=
                MarshalIndent_items [mkAddressItem (String (Json.chr 255) "abc") "imported"]]> ∅)
           "ad_json/copy.json").
  - reflexivity.
  - vm_compute. reflexivity.
Defined.

Lemma kept_addresses_match_results_witness :
  let '(valid, results, _) :=
    scrape (fmt := GoFmt.go_fmt) (browser := sample_browser) sample_addresses [] [] [] in
  Result_Address <$> results = Item_Address <$> valid
  ∧ length results = length valid
  ∧ valid `sublist_of` sample_addresses.
Proof.
  destruct (scrape (fmt := GoFmt.go_fmt) (browser := sample_browser) sample_addresses [] [] [])
    as [[valid results] tr'] eqn:Hs.
  exact (kept_addresses_match_results (fmt := GoFmt.go_fmt) (browser := sample_browser)
           sample_addresses valid results [] tr' Hs).
Defined.

Lemma total_saved_after_each_file_witness :
  allResults (process_file (fmt := GoFmt.go_fmt) (browser := sample_browser)
                (dsk := sound_disk) (mkDirEntry "group.json" false) sample_state)
  = [] ++ omap (fetched (fmt := GoFmt.go_fmt) (browser := sample_browser)) sample_addresses
  ∧ disk (process_file (fmt := GoFmt.go_fmt) (browser := sample_browser)
            (dsk := sound_disk) (mkDirEntry "group.json" false) sample_state) !! "ad.json"
    = Some (MarshalIndent_results
              ([] ++ omap (fetched (fmt := GoFmt.go_fmt) (browser := sample_browser))
                       sample_addresses)).
Proof.
  apply (total_saved_after_each_file (fmt := GoFmt.go_fmt) (browser := sample_browser)
           (dsk := sound_disk) (mkDirEntry "group.json" false) sample_state sample_addresses).
  - reflexivity.
  - vm_compute. reflexivity.
  - vm_compute. discriminate.
  - reflexivity.
Defined.

Lemma qualification_is_monotone_witness :
  ∃ r, (FetchAndAnalyzeData (fmt := GoFmt.go_fmt) (browser := second_browser) "BEST").2
       = inr (Some r).
Proof.
  apply (qualification_is_monotone (fmt := GoFmt.go_fmt) (browser := second_browser)
           "GOOD" "BEST" "good" "best" (sample_page 20000 "1" "0.8" "good")
           (sample_page 3000000 "30" "0.9" "best") eq_refl eq_refl eq_refl eq_refl).
  - vm_compute. reflexivity.
  - vm_compute. reflexivity.
  - vm_compute. reflexivity.
  - eexists. vm_compute. reflexivity.
Defined.

Lemma empty_run_outputs_witness :
  match processAddressFiles (fmt := GoFmt.go_fmt) (browser := sample_browser)
          (dsk := sound_disk)
          {[ "ad_json/notes.txt" := "address  label" +:+ Json.nl +:+ "POOR  small fish" ]} with
  | Ok (st, None) =>
      disk st !! "ad.json" = Some "null"
      ∧ disk st !! Join "ad_txt" "addresses.txt" = Some ("address  label" +:+ Json.nl)
  | _ => False
  end.
Proof.
  destruct (processAddressFiles (fmt := GoFmt.go_fmt) (browser := sample_browser)
              (dsk := sound_disk)
          {[ "ad_json/notes.txt" := "address  label" +:+ Json.nl +:+ "POOR  small fish" ]})
    as [[st [err|]]|] eqn:Hrun.
  - vm_compute in Hrun. discriminate Hrun.
  - apply (empty_run_outputs (fmt := GoFmt.go_fmt) (browser := sample_browser)
             (dsk := sound_disk) _ st [] Hrun).
    vm_compute in Hrun. injection Hrun as <-. vm_compute. reflexivity.
  - vm_compute in Hrun. discriminate Hrun.
Defined.


Lemma label_winrate_text_witness :
  parse_winrate (fmt := GoFmt.go_fmt)
    (format_label (fmt := GoFmt.go_fmt) c_10000 (S754_zero false) c_0_755 "my winrate:1.0")
  = Ok (Sscanf_f (Fmt := GoFmt.go_fmt) "0.755,name:my ").
Proof.
  exact (label_winrate_text (fmt := GoFmt.go_fmt) c_10000 (S754_zero false) c_0_755
           "my winrate:1.0" go_Sprintf_no_w).
Defined.

(** A win-rate that passes the rule at 0.1 is written with three decimals
    and read again by the deduplication, which asks for more than 0.1: the
    result of [EDGE] is produced and then dropped. *)
Example sample_threshold_gap :
  (FetchAndAnalyzeData (fmt := GoFmt.go_fmt) (browser := second_browser) "EDGE").2
  = inr (Some (mkResult "EDGE" "profit:2000000.00,balance:25.00,winrate:0.100,name:edge"))
  ∧ deduplicateAndFilter (fmt := GoFmt.go_fmt)
      [mkResult "EDGE" "profit:2000000.00,balance:25.00,winrate:0.100,name:edge"]
    = Ok ([], []).
Proof. split; vm_compute; reflexivity. Qed.

Lemma final_records_provenance_witness :
  (mkResult "KEEN" "profit:10000.00,balance:0.00,winrate:0.755,name:keen"
     ∈ earlier_results earlier_disk
   ∨ (FetchAndAnalyzeData (fmt := GoFmt.go_fmt) (browser := sample_browser) "KEEN").2
     = inr (Some (mkResult "KEEN" "profit:10000.00,balance:0.00,winrate:0.755,name:keen")))
  ∧ ∃ w, candidate (fmt := GoFmt.go_fmt)
           (mkResult "KEEN" "profit:10000.00,balance:0.00,winrate:0.755,name:keen") w.
Proof.
  destruct (processAddressFiles (fmt := GoFmt.go_fmt) (browser := sample_browser)
              (dsk := text_disk) earlier_disk) as [[st err]|] eqn:Hrun.
  2:{ vm_compute in Hrun. discriminate Hrun. }
  destruct (deduplicateAndFilter (fmt := GoFmt.go_fmt) (allResults st))
    as [[filtered lines]|] eqn:Hd.
  2:{ vm_compute in Hrun. injection Hrun as <- _. vm_compute in Hd. discriminate Hd. }
  apply (final_records_provenance (fmt := GoFmt.go_fmt) (browser := sample_browser)
           (dsk := text_disk) earlier_disk text_listing st err filtered lines
           (mkResult "KEEN" "profit:10000.00,balance:0.00,winrate:0.755,name:keen")
           eq_refl Hrun Hd).
  vm_compute in Hrun. injection Hrun as <- _. vm_compute in Hd. injection Hd as <- _.
  apply list_elem_of_here.
Defined.
